(** * Boulder: policy authority, order status, authorization surface, override export

    A shallow embedding of the parts of Boulder (an ACME certificate authority)
    that decide identifier policy ([policy/pa.go]), the computed order status
    and the surface form of stored authorizations ([sa/model.go]) and the
    export of rate-limit overrides ([ratelimits/limit.go]).

    Conventions.
    - A Go [string] is a sequence of bytes: Rocq's [string] (a list of 8-bit
      [ascii]).
    - A Go [error] value is an [option error]: [None] is [nil].
    - A Go [map[string]bool] is [option (gmap string bool)]: [None] is the nil
      map, which reads as empty.
    - A [time.Time] is an instant: its number of nanoseconds from the Unix
      epoch, in [Z]; [Before] is [<]. Go keeps the seconds of an instant
      counted from the year 1 in an [int64]; the conversions from and to a
      protobuf timestamp wrap around as Go's do.
    - Functions of Go's standard library and of packages outside the files
      modelled here ([net/netip], [idna], [norm], [iana], [json], ...) are
      Section variables: the theorems hold for every behaviour of theirs,
      except where a hypothesis states the one fact that is used. *)

From Stdlib Require Import ZArith Ascii String List Bool Lia DecimalString Sorted.
From stdpp Require Import base option list gmap strings.

Local Open Scope string_scope.
Local Open Scope list_scope.

(** ** Go's [strings] package, on byte strings *)

Module GoStrings.

(** [len(s)] *)
Definition len (s : string) : nat := String.length s.

(** [strings.HasPrefix(s, prefix)] *)
Fixpoint HasPrefix (s prefix : string) : bool :=
  match prefix, s with
  | EmptyString, _ => true
  | String p ps, String c cs => if Ascii.eqb c p then HasPrefix cs ps else false
  | String _ _, EmptyString => false
  end.

(** [s[n:]] for [n <= len(s)] *)
Fixpoint sliceFrom (n : nat) (s : string) : string :=
  match n, s with
  | O, _ => s
  | S n', String _ cs => sliceFrom n' cs
  | S _, EmptyString => EmptyString
  end.

(** [strings.HasSuffix(s, suffix)]:
    [len(s) >= len(suffix) && s[len(s)-len(suffix):] == suffix] *)
Definition HasSuffix (s suffix : string) : bool :=
  (len suffix <=? len s)%nat && String.eqb (sliceFrom (len s - len suffix) s) suffix.

(** [strings.TrimPrefix(s, prefix)] *)
Definition TrimPrefix (s prefix : string) : string :=
  if HasPrefix s prefix then sliceFrom (len prefix) s else s.

(** [strings.Count(s, substr)] for a one-byte [substr] *)
Fixpoint Count (s : string) (c : ascii) : nat :=
  match s with
  | EmptyString => O
  | String x xs => (if Ascii.eqb x c then 1 else 0) + Count xs c
  end.

(** [strings.Split(s, sep)] for a one-byte [sep]: the pieces between the
    separators, one more than there are separators. *)
Fixpoint Split (s : string) (sep : ascii) : list string :=
  match s with
  | EmptyString => [EmptyString]
  | String c cs =>
      if Ascii.eqb c sep then EmptyString :: Split cs sep
      else match Split cs sep with
           | [] => [String c EmptyString]
           | l :: ls => String c l :: ls
           end
  end.

(** [strings.SplitN(s, sep, n)] for a one-byte [sep] and [n >= 0]: at most [n]
    pieces, the last one the unsplit rest. *)
Fixpoint SplitN (s : string) (sep : ascii) (n : nat) : list string :=
  match n with
  | O => []
  | S O => [s]
  | S n' =>
      match s with
      | EmptyString => [EmptyString]
      | String c cs =>
          if Ascii.eqb c sep then EmptyString :: SplitN cs sep n'
          else match SplitN cs sep n with
               | [] => [String c EmptyString]
               | l :: ls => String c l :: ls
               end
      end
  end.

(** [strings.Join(elems, sep)] *)
Fixpoint Join (elems : list string) (sep : string) : string :=
  match elems with
  | [] => EmptyString
  | [x] => x
  | x :: xs => x ++ sep ++ Join xs sep
  end.

(** [strings.Contains(s, substr)] for a one-byte [substr] *)
Definition Contains (s : string) (c : ascii) : bool := negb (Nat.eqb (Count s c) 0).

(** ['lo' <= ch && ch <= 'hi'] on bytes *)
Definition byteIn (lo hi ch : ascii) : bool :=
  (N_of_ascii lo <=? N_of_ascii ch)%N && (N_of_ascii ch <=? N_of_ascii hi)%N.

(** A loop over the bytes of [s] that stops at the first one without [p]. *)
Fixpoint allBytes (p : ascii -> bool) (s : string) : bool :=
  match s with
  | EmptyString => true
  | String c cs => p c && allBytes p cs
  end.

Fixpoint mapBytes (f : ascii -> ascii) (s : string) : string :=
  match s with
  | EmptyString => EmptyString
  | String c cs => String (f c) (mapBytes f cs)
  end.

(** [c += 'a' - 'A'] for an upper-case ASCII letter [c] *)
Definition lowerByte (c : ascii) : ascii :=
  if byteIn "A" "Z" c then ascii_of_N (N_of_ascii c + 32) else c.

End GoStrings.

(** ** Identifiers ([identifier] package) *)

Module identifier.

Definition IdentifierType := string.
Definition TypeDNS : IdentifierType := "dns".
Definition TypeIP : IdentifierType := "ip".

Record ACMEIdentifier := mkACMEIdentifier {
  Type_ : IdentifierType;
  Value : string;
}.

Definition NewDNS (v : string) : ACMEIdentifier := mkACMEIdentifier TypeDNS v.
Definition NewIP (v : string) : ACMEIdentifier := mkACMEIdentifier TypeIP v.

End identifier.

(** ** Errors ([errors] package of Boulder, and Go's [error] interface) *)

Module berrors.

Inductive ErrorType :=
  | InternalServer | Malformed | Unauthorized | NotFound | RateLimit
  | RejectedIdentifier | InvalidEmail | ConnectionFailure | CAA | MissingSCTs
  | Duplicate | OrderNotReady | DNS | BadPublicKey | BadCSR | AlreadyRevoked
  | BadRevocationReason | UnsupportedContact | UnknownSerial | Conflict
  | InvalidProfile | AlreadyReplaced.

Inductive BoulderError :=
  | mkBoulderError (type : ErrorType) (detail : string)
                   (subErrors : list SubBoulderError)
with SubBoulderError :=
  | mkSubBoulderError (boulderError : BoulderError)
                      (ident : identifier.ACMEIdentifier).

Definition Type_ (e : BoulderError) : ErrorType :=
  match e with mkBoulderError t _ _ => t end.
Definition Detail (e : BoulderError) : string :=
  match e with mkBoulderError _ d _ => d end.
Definition SubErrors (e : BoulderError) : list SubBoulderError :=
  match e with mkBoulderError _ _ s => s end.
Definition sub_BoulderError (s : SubBoulderError) : BoulderError :=
  match s with mkSubBoulderError b _ => b end.
Definition sub_Identifier (s : SubBoulderError) : identifier.ACMEIdentifier :=
  match s with mkSubBoulderError _ i => i end.

(** [be.WithSubErrors(subErrs)] *)
Definition WithSubErrors (be : BoulderError) (subErrs : list SubBoulderError)
  : BoulderError :=
  mkBoulderError (Type_ be) (Detail be) (SubErrors be ++ subErrs).

End berrors.

(** A Go [error]: a Boulder error, an error that carries only its message
    ([errors.New], [fmt.Errorf]), or the storage layer's [errBadJSON]. *)
Inductive error :=
  | BoulderErr (e : berrors.BoulderError)
  | errorString (msg : string)
  | errBadJSON (msg : string) (json : string).

(** An argument of [fmt.Sprintf]. *)
Inductive fmtArg :=
  | ArgString (s : string)
  | ArgInt (z : Z).

(** ** Packages the modelled files call *)

(** [fmt.Sprintf]; [err.Error()] of an [errBadJSON]. *)
Class Fmt := {
  Sprintf : string -> list fmtArg -> string;
  badJSONMessage : string -> string -> string;
}.

(** [net/netip]: [None] is a parse error. *)
Class NetIP := {
  Addr : Type;
  Prefix : Type;
  ParseAddr : string -> option Addr;
  Addr_WithZone : Addr -> string -> Addr;
  Addr_String : Addr -> string;
  ParsePrefix : string -> option Prefix;
  Prefix_Contains : Prefix -> Addr -> bool;
}.

(** Boulder's [iana] package: [ExtractSuffix] returns the ICANN public suffix
    of a name, [None] when it has none; [IsReservedAddr] returns an error for
    an address in an IANA special-purpose registry. *)
Class IANA {netip : NetIP} := {
  ExtractSuffix : string -> option string;
  IsReservedAddr : Addr -> option error;
}.

(** [idna.ToUnicode], [norm.NFC.IsNormalString], and [strings.ToLower] on a
    string that is not all ASCII. *)
Class Unicode := {
  ToUnicode : string -> option string;
  IsNormalString : string -> bool;
  MapToLower : string -> string;
}.

(** [strings.ToLower(s)]: byte by byte when [s] is all ASCII, through
    [unicode.ToLower] on its runes otherwise. *)
Definition ToLower {unicode : Unicode} (s : string) : string :=
  if GoStrings.allBytes (fun c => (N_of_ascii c <? 128)%N) s then
    GoStrings.mapBytes GoStrings.lowerByte s
  else MapToLower s.

(** [err.Error()] *)
Definition Error {fmt : Fmt} (e : error) : string :=
  match e with
  | BoulderErr b => berrors.Detail b
  | errorString m => m
  | errBadJSON m j => badJSONMessage m j
  end.

(** [berrors.New(t, msg)] and the constructors built on it
    ([berrors.MalformedError(msg)], ...), for a message without arguments. *)
Definition berrors_New (t : berrors.ErrorType) (msg : string) : error :=
  BoulderErr (berrors.mkBoulderError t msg []).
Definition MalformedError := berrors_New berrors.Malformed.
Definition RejectedIdentifierError := berrors_New berrors.RejectedIdentifier.
Definition InternalServerError := berrors_New berrors.InternalServer.
Definition InvalidEmailError := berrors_New berrors.InvalidEmail.

(** A Go function's [(value, error)] result where exactly one of the two is
    set. *)
Inductive result (A : Type) :=
  | Ok (a : A)
  | Err (e : error).
Arguments Ok {A} a.
Arguments Err {A} e.

(** A value of type [int64]: arithmetic wraps around. *)
Definition int64 (z : Z) : Z := ((z + 2 ^ 63) mod 2 ^ 64 - 2 ^ 63)%Z.

(** ** Constants of Boulder's [core] package *)

Module core.

Definition AcmeStatus := string.
Definition StatusPending : AcmeStatus := "pending".
Definition StatusProcessing : AcmeStatus := "processing".
Definition StatusReady : AcmeStatus := "ready".
Definition StatusValid : AcmeStatus := "valid".
Definition StatusInvalid : AcmeStatus := "invalid".
Definition StatusRevoked : AcmeStatus := "revoked".
Definition StatusDeactivated : AcmeStatus := "deactivated".

Definition AcmeChallenge := string.
Definition ChallengeTypeHTTP01 : AcmeChallenge := "http-01".
Definition ChallengeTypeDNS01 : AcmeChallenge := "dns-01".
Definition ChallengeTypeTLSALPN01 : AcmeChallenge := "tls-alpn-01".
Definition ChallengeTypeDNSAccount01 : AcmeChallenge := "dns-account-01".

End core.

(** ** The policy authority ([policy/pa.go]) *)

Module policy.
Import GoStrings identifier.

(** [AuthorityImpl]. The mutex [blocklistMu] is not modelled: calls are
    sequential here. [log] holds the lines written through [pa.log]. *)
Record AuthorityImpl {netip : NetIP} := mkAuthorityImpl {
  log : list string;
  domainBlocklist : option (gmap string bool);
  fqdnBlocklist : option (gmap string bool);
  wildcardFqdnBlocklist : option (gmap string bool);
  ipPrefixBlocklist : list Prefix;
  enabledChallenges : option (gmap string bool);
  enabledIdentifiers : option (gmap string bool);
}.
Arguments mkAuthorityImpl {netip}.

(** [m[k]] on a [map[string]bool]: [false] for a missing key and on the nil
    map. *)
Definition index (m : option (gmap string bool)) (k : string) : bool :=
  match m with
  | Some m => default false (m !! k)
  | None => false
  end.

(** [m[k] = true] on a map made with [make]. *)
Definition setTrue (m : gmap string bool) (k : string) : gmap string bool :=
  <[k := true]> m.

(** [blockedIdentsPolicy] *)
Record blockedIdentsPolicy := mkBlockedIdentsPolicy {
  ExactBlockedNames : list string;
  HighRiskBlockedNames : list string;
  AdminBlockedNames : list string;
  AdminBlockedPrefixes : list string;
}.

Definition maxLabels : nat := 10.
Definition maxLabelLength : nat := 63.
Definition maxDNSIdentifierLength : nat := 253.

Definition isDNSCharacter (ch : ascii) : bool :=
  byteIn "a" "z" ch || byteIn "A" "Z" ch || byteIn "0" "9" ch
  || Ascii.eqb ch "." || Ascii.eqb ch "-".

(** The character class [[a-z0-9-]] of [dnsLabelCharacterRegexp]. *)
Definition dnsLabelCharacter (ch : ascii) : bool :=
  byteIn "a" "z" ch || byteIn "0" "9" ch || Ascii.eqb ch "-".

(** [dnsLabelCharacterRegexp.MatchString(s)] for the expression
    [^[a-z0-9-]+$]: in Go's syntax [$] matches at the end of the text only,
    so the whole of [s] is one or more characters of the class. *)
Definition dnsLabelCharacterRegexp_MatchString (s : string) : bool :=
  negb (String.eqb s EmptyString) && allBytes dnsLabelCharacter s.

Definition errNonPublic := MalformedError "Domain name does not end with a valid public suffix (TLD)".
Definition errICANNTLD := MalformedError "Domain name is an ICANN TLD".
Definition errPolicyForbidden := RejectedIdentifierError "The ACME server refuses to issue a certificate for this domain name, because it is forbidden by policy".
Definition errInvalidDNSCharacter := MalformedError "Domain name contains an invalid character".
Definition errNameTooLong := MalformedError "Domain name is longer than 253 bytes".
Definition errIPAddressInDNS := MalformedError "Identifier type is DNS but value is an IP address".
Definition errIPInvalid := MalformedError "IP address is invalid".
Definition errTooManyLabels := MalformedError "Domain name has more than 10 labels (parts)".
Definition errEmptyIdentifier := MalformedError "Identifier value (name) is empty".
Definition errNameEndsInDot := MalformedError "Domain name ends in a dot".
Definition errTooFewLabels := MalformedError "Domain name needs at least one dot".
Definition errLabelTooShort := MalformedError "Domain name can not have two dots in a row".
Definition errLabelTooLong := MalformedError "Domain has a label (component between dots) longer than 63 bytes".
Definition errMalformedIDN := MalformedError "Domain name contains malformed punycode".
Definition errInvalidRLDH := RejectedIdentifierError "Domain name contains an invalid label in a reserved format (R-LDH: '??--')".
Definition errTooManyWildcards := MalformedError "Domain name has more than one wildcard".
Definition errMalformedWildcard := MalformedError "Domain name contains an invalid wildcard. A wildcard is only permitted before the first dot in a domain name".
Definition errICANNTLDWildcard := MalformedError "Domain name is a wildcard for an ICANN TLD".
Definition errWildcardNotSupported := MalformedError "Wildcard domain names are not supported".
Definition errUnsupportedIdent := MalformedError "Invalid identifier type".

(** [s[i]], for [i < len(s)] *)
Definition byteAt (s : string) (i : nat) : ascii :=
  match String.get i s with
  | Some c => c
  | None => Ascii.zero
  end.

Section Validation.
Context {netip : NetIP} {iana : IANA} {unicode : Unicode}.

(** The body of the loop over the labels in [validNonWildcardDomain]: the
    error it returns for [label], [None] when it goes on to the next one. *)
Definition checkLabel (label : string) : option error :=
  if (len label <? 1)%nat then Some errLabelTooShort
  else if (maxLabelLength <? len label)%nat then Some errLabelTooLong
  else if negb (dnsLabelCharacterRegexp_MatchString label) then
    Some errInvalidDNSCharacter
  else if Ascii.eqb (byteAt label 0) "-"
          || Ascii.eqb (byteAt label (len label - 1)) "-" then
    Some errInvalidDNSCharacter
  else if (4 <=? len label)%nat && String.eqb (substring 2 2 label) "--" then
    if negb (String.eqb (substring 0 2 label) "xn") then Some errInvalidRLDH
    else match ToUnicode label with
         | None => Some errMalformedIDN
         | Some ulabel =>
             if negb (IsNormalString ulabel) then Some errMalformedIDN
             else None
         end
  else None.

Fixpoint checkLabels (labels : list string) : option error :=
  match labels with
  | [] => None
  | label :: rest =>
      match checkLabel label with
      | Some e => Some e
      | None => checkLabels rest
      end
  end.

Definition validNonWildcardDomain (domain : string) : option error :=
  if String.eqb domain EmptyString then Some errEmptyIdentifier
  else if HasPrefix domain "*." then Some errWildcardNotSupported
  else if negb (allBytes isDNSCharacter domain) then Some errInvalidDNSCharacter
  else if (maxDNSIdentifierLength <? len domain)%nat then Some errNameTooLong
  else match ParseAddr domain with
  | Some _ => Some errIPAddressInDNS
  | None =>
  if HasSuffix domain "." then Some errNameEndsInDot
  else
    let labels := Split domain "." in
    if (maxLabels <? length labels)%nat then Some errTooManyLabels
    else if (length labels <? 2)%nat then Some errTooFewLabels
    else match checkLabels labels with
    | Some e => Some e
    | None =>
        match ExtractSuffix domain with
        | None => Some errNonPublic
        | Some icannTLD =>
            if String.eqb icannTLD domain then Some errICANNTLD else None
        end
    end
  end.

Definition ValidDomain (domain : string) : option error :=
  if (Count domain "*" <=? 0)%nat then validNonWildcardDomain domain
  else if (1 <? Count domain "*")%nat then Some errTooManyWildcards
  else if negb (HasPrefix domain "*.") then Some errMalformedWildcard
  else
    let baseDomain := TrimPrefix domain "*." in
    match ExtractSuffix baseDomain with
    | None => Some errNonPublic
    | Some icannTLD =>
        if String.eqb baseDomain icannTLD then Some errICANNTLDWildcard
        else validNonWildcardDomain baseDomain
    end.

Definition ValidIP (ip : string) : option error :=
  if String.eqb ip EmptyString then Some errEmptyIdentifier
  else match ParseAddr ip with
  | None => Some errIPInvalid
  | Some parsedIP =>
      if negb (String.eqb (Addr_String (Addr_WithZone parsedIP EmptyString)) ip)
      then Some errIPInvalid
      else IsReservedAddr parsedIP
  end.

End Validation.

(** [os.ReadFile], [strictyaml.Unmarshal] into a [blockedIdentsPolicy], and
    [hex.EncodeToString(sha256.Sum256(b))]. *)
Class PolicyFile := {
  ReadFile : string -> result string;
  Unmarshal : string -> result blockedIdentsPolicy;
  sha256Hex : string -> string;
}.

Section Authority.
Context {netip : NetIP} {iana : IANA} {unicode : Unicode} {fmt : Fmt}
        {files : PolicyFile}.

(** The loop over [policy.ExactBlockedNames] in [processIdentPolicy]. *)
Fixpoint exactNamesLoop (names : list string)
    (exactNameMap wildcardNameMap : gmap string bool)
  : result (gmap string bool * gmap string bool) :=
  match names with
  | [] => Ok (exactNameMap, wildcardNameMap)
  | v :: rest =>
      let exactNameMap := setTrue exactNameMap v in
      let parts := SplitN v "." 2 in
      if (length parts <? 2)%nat then
        Err (errorString
               (Sprintf "malformed ExactBlockedNames entry, only one label: %q"
                        [ArgString v]))
      else
        exactNamesLoop rest exactNameMap
          (setTrue wildcardNameMap (default EmptyString (parts !! 1%nat)))
  end.

(** The loop over [policy.AdminBlockedPrefixes] in [processIdentPolicy]. *)
Fixpoint prefixesLoop (ps : list string) (prefixes : list Prefix)
  : result (list Prefix) :=
  match ps with
  | [] => Ok prefixes
  | p :: rest =>
      match ParsePrefix p with
      | None =>
          Err (errorString
                 (Sprintf "malformed AdminBlockedPrefixes entry, not a prefix: %q"
                          [ArgString p]))
      | Some prefix => prefixesLoop rest (prefixes ++ [prefix])
      end
  end.

(** [pa.processIdentPolicy(policy)]: the authority afterwards and the error
    returned. *)
Definition processIdentPolicy (pa : AuthorityImpl) (policy : blockedIdentsPolicy)
  : AuthorityImpl * option error :=
  let nameMap := foldl setTrue (∅ : gmap string bool) (HighRiskBlockedNames policy) in
  let nameMap := foldl setTrue nameMap (AdminBlockedNames policy) in
  match exactNamesLoop (ExactBlockedNames policy) ∅ ∅ with
  | Err e => (pa, Some e)
  | Ok (exactNameMap, wildcardNameMap) =>
      match prefixesLoop (AdminBlockedPrefixes policy) [] with
      | Err e => (pa, Some e)
      | Ok prefixes =>
          ({| log := log pa;
              domainBlocklist := Some nameMap;
              fqdnBlocklist := Some exactNameMap;
              wildcardFqdnBlocklist := Some wildcardNameMap;
              ipPrefixBlocklist := prefixes;
              enabledChallenges := enabledChallenges pa;
              enabledIdentifiers := enabledIdentifiers pa |}, None)
      end
  end.

(** [pa.log.Infof(...)] *)
Definition Infof (pa : AuthorityImpl) (line : string) : AuthorityImpl :=
  {| log := log pa ++ [line];
     domainBlocklist := domainBlocklist pa;
     fqdnBlocklist := fqdnBlocklist pa;
     wildcardFqdnBlocklist := wildcardFqdnBlocklist pa;
     ipPrefixBlocklist := ipPrefixBlocklist pa;
     enabledChallenges := enabledChallenges pa;
     enabledIdentifiers := enabledIdentifiers pa |}.

Definition LoadIdentPolicyFile (pa : AuthorityImpl) (f : string)
  : AuthorityImpl * option error :=
  match ReadFile f with
  | Err e => (pa, Some e)
  | Ok configBytes =>
      let pa := Infof pa (Sprintf "loading identifier policy, sha256: %s"
                                  [ArgString (sha256Hex configBytes)]) in
      match Unmarshal configBytes with
      | Err e => (pa, Some e)
      | Ok policy =>
          if Nat.eqb (length (HighRiskBlockedNames policy)) 0 then
            (pa, Some (errorString "no entries in HighRiskBlockedNames"))
          else if Nat.eqb (length (ExactBlockedNames policy)) 0 then
            (pa, Some (errorString "no entries in ExactBlockedNames"))
          else processIdentPolicy pa policy
      end
  end.

(** [subError(ident, err)]: [errors.As] finds the Boulder error when [err] is
    one. *)
Definition subError (ident : ACMEIdentifier) (err : error)
  : berrors.SubBoulderError :=
  match err with
  | BoulderErr bErr => berrors.mkSubBoulderError bErr ident
  | _ =>
      berrors.mkSubBoulderError
        (berrors.mkBoulderError berrors.RejectedIdentifier (Error err) [])
        ident
  end.

Definition combineSubErrors (subErrors : list berrors.SubBoulderError)
  : option error :=
  match subErrors with
  | [] => None
  | [e] =>
      Some (BoulderErr (berrors.mkBoulderError berrors.RejectedIdentifier
              (Sprintf "Cannot issue for %q: %s"
                 [ArgString (Value (berrors.sub_Identifier e));
                  ArgString (berrors.Detail (berrors.sub_BoulderError e))])
              []))
  | e :: _ =>
      let detail :=
        Sprintf "Cannot issue for %q: %s (and %d more problems. Refer to sub-problems for more information.)"
          [ArgString (Value (berrors.sub_Identifier e));
           ArgString (berrors.Detail (berrors.sub_BoulderError e));
           ArgInt (Z.of_nat (length subErrors) - 1)] in
      Some (BoulderErr
              (berrors.WithSubErrors
                 (berrors.mkBoulderError berrors.RejectedIdentifier detail [])
                 subErrors))
  end.

Definition IdentifierTypeEnabled (pa : AuthorityImpl) (t : IdentifierType) : bool :=
  index (enabledIdentifiers pa) t.

Definition ChallengeTypeEnabled (pa : AuthorityImpl) (t : core.AcmeChallenge) : bool :=
  index (enabledChallenges pa) t.

Definition checkWildcardBlocklist (pa : AuthorityImpl) (domain : string)
  : option error :=
  match wildcardFqdnBlocklist pa with
  | None => Some (errorString "identifier policy not yet loaded")
  | Some _ =>
      if index (wildcardFqdnBlocklist pa) domain then Some errPolicyForbidden
      else None
  end.

Definition checkBlocklists (pa : AuthorityImpl) (ident : ACMEIdentifier)
  : option error :=
  match domainBlocklist pa with
  | None => Some (errorString "identifier policy not yet loaded")
  | Some _ =>
      if String.eqb (Type_ ident) TypeDNS then
        let labels := Split (Value ident) "." in
        if existsb (fun i => index (domainBlocklist pa) (Join (drop i labels) "."))
                   (seq 0 (length labels))
        then Some errPolicyForbidden
        else if index (fqdnBlocklist pa) (Value ident) then Some errPolicyForbidden
        else None
      else if String.eqb (Type_ ident) TypeIP then
        match ParseAddr (Value ident) with
        | None => Some errIPInvalid
        | Some ip =>
            if existsb (fun prefix => Prefix_Contains prefix (Addr_WithZone ip EmptyString))
                       (ipPrefixBlocklist pa)
            then Some errPolicyForbidden
            else None
        end
      else Some errUnsupportedIdent
  end.

(** The loop of [WellFormedIdentifiers]: the sub-errors collected. *)
Fixpoint wellFormedLoop (idents : list ACMEIdentifier)
    (subErrors : list berrors.SubBoulderError) : list berrors.SubBoulderError :=
  match idents with
  | [] => subErrors
  | ident :: rest =>
      if String.eqb (Type_ ident) TypeDNS then
        match ValidDomain (Value ident) with
        | Some err => wellFormedLoop rest (subErrors ++ [subError ident err])
        | None => wellFormedLoop rest subErrors
        end
      else if String.eqb (Type_ ident) TypeIP then
        match ValidIP (Value ident) with
        | Some err => wellFormedLoop rest (subErrors ++ [subError ident err])
        | None => wellFormedLoop rest subErrors
        end
      else wellFormedLoop rest (subErrors ++ [subError ident errUnsupportedIdent])
  end.

Definition WellFormedIdentifiers (idents : list ACMEIdentifier) : option error :=
  combineSubErrors (wellFormedLoop idents []).

(** The loop of [WillingToIssue]: the sub-errors collected. *)
Fixpoint willingLoop (pa : AuthorityImpl) (idents : list ACMEIdentifier)
    (subErrors : list berrors.SubBoulderError) : list berrors.SubBoulderError :=
  match idents with
  | [] => subErrors
  | ident :: rest =>
      if negb (IdentifierTypeEnabled pa (Type_ ident)) then
        willingLoop pa rest
          (subErrors ++
             [subError ident
                (RejectedIdentifierError
                   "The ACME server has disabled this identifier type")])
      else
        match (if String.eqb (Type_ ident) TypeDNS
                  && (0 <? Count (Value ident) "*")%nat
               then checkWildcardBlocklist pa (TrimPrefix (Value ident) "*.")
               else None) with
        | Some err => willingLoop pa rest (subErrors ++ [subError ident err])
        | None =>
            match checkBlocklists pa ident with
            | Some err => willingLoop pa rest (subErrors ++ [subError ident err])
            | None => willingLoop pa rest subErrors
            end
        end
  end.

Definition WillingToIssue (pa : AuthorityImpl) (idents : list ACMEIdentifier)
  : option error :=
  match WellFormedIdentifiers idents with
  | Some err => Some err
  | None => combineSubErrors (willingLoop pa idents [])
  end.

(** [pa.ChallengeTypesFor(ident)]: the slice and the error, as Go returns
    them. *)
Definition ChallengeTypesFor (pa : AuthorityImpl) (ident : ACMEIdentifier)
  : list core.AcmeChallenge * option error :=
  if String.eqb (Type_ ident) TypeDNS then
    if HasPrefix (Value ident) "*." then ([core.ChallengeTypeDNS01], None)
    else ([core.ChallengeTypeHTTP01; core.ChallengeTypeDNS01;
           core.ChallengeTypeTLSALPN01], None)
  else if String.eqb (Type_ ident) TypeIP then
    ([core.ChallengeTypeHTTP01; core.ChallengeTypeTLSALPN01], None)
  else
    ([], Some (errorString
                 (Sprintf "unrecognized identifier type %q"
                          [ArgString (Type_ ident)]))).

End Authority.

(** [net/mail]: [mail.ParseAddress(address)], the [Address] field of the
    address it returns; [None] is a parse error. *)
Class Mail := {
  ParseAddress : string -> option string;
}.

(** [core.Authorization], what [CheckAuthzChallenges] uses of it: the
    identifier and [authz.SolvedBy()]. *)
Class CoreAuthz := {
  coreAuthorization : Type;
  authz_Identifier : coreAuthorization -> ACMEIdentifier;
  SolvedBy : coreAuthorization -> result core.AcmeChallenge;
}.

Definition forbiddenMailDomains : option (gmap string bool) :=
  Some (list_to_map [("example.com", true); ("example.net", true);
                     ("example.org", true)]).

Section Contacts.
Context {netip : NetIP} {iana : IANA} {unicode : Unicode} {fmt : Fmt}
        {mail : Mail} {coreAuthz : CoreAuthz}.

(** [New(identifierTypes, challengeTypes, log)]: the blocklists are the nil
    maps and the nil slice of the zero value. *)
Definition New (identifierTypes challengeTypes : option (gmap string bool))
    (logger : list string) : AuthorityImpl * option error :=
  ({| log := logger;
      domainBlocklist := None;
      fqdnBlocklist := None;
      wildcardFqdnBlocklist := None;
      ipPrefixBlocklist := [];
      enabledChallenges := challengeTypes;
      enabledIdentifiers := identifierTypes |}, None).

(** [ValidEmail(address)]. [strings.SplitN(s, "@", -1)] is
    [strings.Split(s, "@")]. *)
Definition ValidEmail (address : string) : option error :=
  match ParseAddress address with
  | None => Some (InvalidEmailError "unable to parse email address")
  | Some email_Address =>
      let splitEmail := Split email_Address "@" in
      let domain :=
        ToLower (default EmptyString (splitEmail !! (length splitEmail - 1)%nat)) in
      match validNonWildcardDomain domain with
      | Some err =>
          Some (InvalidEmailError
                  (Sprintf "contact email has invalid domain: %s"
                           [ArgString (Error err)]))
      | None =>
          if index forbiddenMailDomains domain then
            Some (InvalidEmailError
                    (Sprintf "contact email has forbidden domain %q"
                             [ArgString domain]))
          else None
      end
  end.

(** [slices.Contains(s, v)] on strings *)
Definition slices_Contains (s : list string) (v : string) : bool :=
  existsb (String.eqb v) s.

Definition CheckAuthzChallenges (pa : AuthorityImpl) (authz : coreAuthorization)
  : option error :=
  match SolvedBy authz with
  | Err err => Some err
  | Ok chall =>
      if negb (ChallengeTypeEnabled pa chall) then
        Some (errorString "authorization fulfilled by disabled challenge type")
      else
        match ChallengeTypesFor pa (authz_Identifier authz) with
        | (_, Some err) => Some err
        | (challTypes, None) =>
            if negb (slices_Contains challTypes chall) then
              Some (errorString "authorization fulfilled by inapplicable challenge type")
            else None
        end
  end.

End Contacts.

End policy.

(** ** The storage authority's models ([sa/model.go]) *)

Module sa.
Import GoStrings.

Local Open Scope Z_scope.

(** [m[k]] on a Go map with string values: the empty string for a missing
    key. *)
Definition indexStr (m : gmap Z string) (k : Z) : string :=
  default EmptyString (m !! k).

Definition uintToChallType : gmap Z string :=
  list_to_map [(0, "http-01"); (1, "dns-01"); (2, "tls-alpn-01");
               (3, "dns-account-01")]%string.

Definition uintToIdentifierType : gmap Z identifier.IdentifierType :=
  list_to_map [(0, "dns"); (1, "ip")]%string.

Definition uintToStatus : gmap Z core.AcmeStatus :=
  list_to_map [(0, core.StatusPending); (1, core.StatusValid);
               (2, core.StatusInvalid); (3, core.StatusDeactivated);
               (4, core.StatusRevoked)].

(** [timestamppb.Timestamp] *)
Record Timestamp := mkTimestamp {
  Seconds : Z;
  Nanos : Z;
}.

(** The seconds from the first of January of the year 1 to the Unix
    epoch: Go keeps the seconds of a [time.Time] counted from the year 1, in
    an [int64]. *)
Definition unixToInternal : Z := 62135596800.

(** [time.Unix(sec, nsec)]: nanoseconds outside [0, 999999999] are carried
    into the seconds, and the seconds are moved to the count from the year 1;
    both additions wrap around in [int64]. *)
Definition time_Unix (sec nsec : Z) : Z :=
  let '(sec, nsec) :=
    if (nsec <? 0) || (1000000000 <=? nsec) then
      let n := Z.quot nsec 1000000000 in
      let sec := int64 (sec + n) in
      let nsec := nsec - n * 1000000000 in
      if nsec <? 0 then (int64 (sec - 1), nsec + 1000000000) else (sec, nsec)
    else (sec, nsec) in
  (int64 (sec + unixToInternal) - unixToInternal) * 1000000000 + nsec.

(** [ts.AsTime()], also on a nil timestamp (its getters return zero). *)
Definition AsTime (ts : option Timestamp) : Z :=
  match ts with
  | None => time_Unix 0 0
  | Some t => time_Unix (Seconds t) (Nanos t)
  end.

(** [timestamppb.New(t)]: [t.Unix()], which moves the seconds back to the
    count from the Unix epoch in [int64], and [t.Nanosecond()]. *)
Definition timestamppb_New (t : Z) : Timestamp :=
  mkTimestamp (int64 (t / 1000000000)) (t mod 1000000000).

(** [t.Before(u)] *)
Definition Before (t u : Z) : bool := t <? u.

(** [probs.ProblemDetails] and its protobuf form. *)
Record ProblemDetails := mkProblemDetails {
  ProblemType : string;
  ProblemDetail : string;
  HTTPStatus : Z;
}.

(** [corepb.Identifier] *)
Record IdentifierPB := mkIdentifierPB {
  PBType : string;
  PBValue : string;
}.

(** [identifier.ACMEIdentifier.ToProto] *)
Definition ToProto (i : identifier.ACMEIdentifier) : IdentifierPB :=
  mkIdentifierPB (identifier.Type_ i) (identifier.Value i).

(** [corepb.Order], the fields [statusForOrder] reads. [Error] is the
    pointer to the order's problem document. *)
Record Order := mkOrder {
  Id : Z;
  RegistrationID : Z;
  Expires : option Timestamp;
  Error_ : option ProblemDetails;
  V2Authorizations : list Z;
  Identifiers : list IdentifierPB;
  CertificateSerial : string;
  BeganProcessing : bool;
}.

(** [authzValidity] *)
Record authzValidity := mkAuthzValidity {
  av_IdentifierType : Z;
  av_IdentifierValue : string;
  av_Status : Z;
  av_Expires : Z;
}.

(** The four counters of [statusForOrder]. *)
Record authzCounts := mkAuthzCounts {
  pendingAuthzs : nat;
  validAuthzs : nat;
  otherAuthzs : nat;
  expiredAuthzs : nat;
}.

Section OrderStatus.
Context {fmt : Fmt}.

(** [berrors.InternalServerError(msg, args...)] *)
Definition InternalServerErrorf (msg : string) (args : list fmtArg) : error :=
  InternalServerError (Sprintf msg args).

(** The [switch] on one authorization's status: the counters afterwards, or
    the error of the [default] case. *)
Definition countStatus (info : authzValidity) (c : authzCounts)
  : result authzCounts :=
  let st := indexStr uintToStatus (av_Status info) in
  if String.eqb st core.StatusPending then
    Ok (mkAuthzCounts (S (pendingAuthzs c)) (validAuthzs c) (otherAuthzs c) (expiredAuthzs c))
  else if String.eqb st core.StatusValid then
    Ok (mkAuthzCounts (pendingAuthzs c) (S (validAuthzs c)) (otherAuthzs c) (expiredAuthzs c))
  else if String.eqb st core.StatusInvalid then
    Ok (mkAuthzCounts (pendingAuthzs c) (validAuthzs c) (S (otherAuthzs c)) (expiredAuthzs c))
  else if String.eqb st core.StatusDeactivated then
    Ok (mkAuthzCounts (pendingAuthzs c) (validAuthzs c) (S (otherAuthzs c)) (expiredAuthzs c))
  else if String.eqb st core.StatusRevoked then
    Ok (mkAuthzCounts (pendingAuthzs c) (validAuthzs c) (S (otherAuthzs c)) (expiredAuthzs c))
  else
    Err (InternalServerErrorf
           "Order is in an invalid state. Authz has invalid status %d"
           [ArgInt (av_Status info)]).

(** The loop over [authzValidityInfo]. *)
Fixpoint countAuthzs (infos : list authzValidity) (now : Z) (c : authzCounts)
  : result authzCounts :=
  match infos with
  | [] => Ok c
  | info :: rest =>
      match countStatus info c with
      | Err e => Err e
      | Ok c =>
          let c :=
            if Before (av_Expires info) now then
              mkAuthzCounts (pendingAuthzs c) (validAuthzs c) (otherAuthzs c)
                            (S (expiredAuthzs c))
            else c in
          countAuthzs rest now c
      end
  end.

(** [statusForOrder(order, authzValidityInfo, now)]: the status string and
    the error, as Go returns them. *)
Definition statusForOrder (order : Order) (authzValidityInfo : list authzValidity)
    (now : Z) : string * option error :=
  if bool_decide (is_Some (Error_ order)) then (core.StatusInvalid, None)
  else if Before (AsTime (Expires order)) now then (core.StatusInvalid, None)
  else if negb (Nat.eqb (length authzValidityInfo) (length (V2Authorizations order)))
  then
    (EmptyString,
     Some (InternalServerErrorf
             "getAuthorizationStatuses returned the wrong number of authorization statuses (%d vs expected %d) for order %d"
             [ArgInt (Z.of_nat (length authzValidityInfo));
              ArgInt (Z.of_nat (length (V2Authorizations order)));
              ArgInt (Id order)]))
  else
    match countAuthzs authzValidityInfo now (mkAuthzCounts 0 0 0 0) with
    | Err e => (EmptyString, Some e)
    | Ok c =>
        if (0 <? otherAuthzs c)%nat || (0 <? expiredAuthzs c)%nat then
          (core.StatusInvalid, None)
        else if (0 <? pendingAuthzs c)%nat then (core.StatusPending, None)
        else
          let fullyAuthorized :=
            Nat.eqb (length (Identifiers order)) (validAuthzs c) in
          if negb fullyAuthorized then
            (EmptyString,
             Some (InternalServerError
                     "Order has the incorrect number of valid authorizations & no pending, deactivated or invalid authorizations"))
          else if fullyAuthorized
                  && negb (String.eqb (CertificateSerial order) EmptyString)
          then (core.StatusValid, None)
          else if fullyAuthorized && BeganProcessing order then
            (core.StatusProcessing, None)
          else if fullyAuthorized && negb (BeganProcessing order) then
            (core.StatusReady, None)
          else
            (EmptyString,
             Some (InternalServerErrorf
                     "Order %d is in an invalid state. No state known for this order's authorizations"
                     [ArgInt (Id order)]))
    end.

End OrderStatus.

(** [authzModel]: one row of the [authz2] table. The [uint8] columns are
    numbers in [0, 256). *)
Record authzModel := mkAuthzModel {
  am_ID : Z;
  am_IdentifierType : Z;
  am_IdentifierValue : string;
  am_RegistrationID : Z;
  am_CertificateProfileName : option string;
  am_Status : Z;
  am_Expires : Z;
  am_Challenges : Z;
  am_Attempted : option Z;
  am_AttemptedAt : option Z;
  am_Token : string;
  am_ValidationError : string;
  am_ValidationRecord : string;
}.

(** [core.ValidationRecord], with addresses in their text form. *)
Record ValidationRecord := mkValidationRecord {
  vr_Hostname : string;
  vr_Port : string;
  vr_AddressesResolved : list string;
  vr_AddressUsed : string;
  vr_URL : string;
  vr_ResolverAddrs : list string;
}.

(** What [rehydrateHostPort] reads of a parsed [url.URL]. *)
Record URL := mkURL {
  url_Scheme : string;
  url_Hostname : string;
  url_Port : string;
}.

(** [corepb.Challenge] *)
Record Challenge (VRPB PDPB : Type) := mkChallenge {
  ch_Type : string;
  ch_Status : string;
  ch_Token : string;
  ch_Validated : option Timestamp;
  ch_Error : option PDPB;
  ch_Validationrecords : list VRPB;
}.
Arguments mkChallenge {VRPB PDPB}.
Arguments ch_Type {VRPB PDPB}.
Arguments ch_Status {VRPB PDPB}.
Arguments ch_Token {VRPB PDPB}.
Arguments ch_Validated {VRPB PDPB}.
Arguments ch_Error {VRPB PDPB}.
Arguments ch_Validationrecords {VRPB PDPB}.

(** [corepb.Authorization] *)
Record Authorization (VRPB PDPB : Type) := mkAuthorization {
  pb_Id : string;
  pb_RegistrationID : Z;
  pb_Identifier : IdentifierPB;
  pb_Status : string;
  pb_Expires : Timestamp;
  pb_Challenges : list (Challenge VRPB PDPB);
  pb_CertificateProfileName : string;
}.
Arguments mkAuthorization {VRPB PDPB}.
Arguments pb_Id {VRPB PDPB}.
Arguments pb_RegistrationID {VRPB PDPB}.
Arguments pb_Identifier {VRPB PDPB}.
Arguments pb_Status {VRPB PDPB}.
Arguments pb_Expires {VRPB PDPB}.
Arguments pb_Challenges {VRPB PDPB}.
Arguments pb_CertificateProfileName {VRPB PDPB}.

(** [encoding/json], [net/url], [encoding/base64] and Boulder's [grpc]
    converters: [VRPB] and [PDPB] are the protobuf forms of a validation
    record and of a problem document. A failed [json.Unmarshal] or
    [url.Parse] is an [Err]. *)
Class Codec := {
  VRPB : Type;
  PDPB : Type;
  UnmarshalProblem : string -> result ProblemDetails;
  UnmarshalRecords : string -> result (list ValidationRecord);
  ProblemDetailsToPB : ProblemDetails -> result PDPB;
  ValidationRecordToPB : ValidationRecord -> result VRPB;
  url_Parse : string -> result URL;
  RawURLEncoding_EncodeToString : string -> string;
}.

Section AuthzModel.
Context {fmt : Fmt} {codec : Codec}.

(** [badJSONError(msg, jsonData, err)]; the cause [err] is dropped. *)
Definition badJSONError (msg : string) (jsonData : string) : error :=
  errBadJSON msg jsonData.

(** [rehydrateHostPort(vr)]: the record afterwards, or the error. *)
Definition rehydrateHostPort (vr : ValidationRecord) : result ValidationRecord :=
  if String.eqb (vr_URL vr) EmptyString then
    Err (errorString "rehydrating validation record, URL field cannot be empty")
  else match url_Parse (vr_URL vr) with
  | Err e =>
      Err (errorString (Sprintf "parsing validation record URL %q: %w"
                                [ArgString (vr_URL vr); ArgString (Error e)]))
  | Ok parsedUrl =>
      let step1 : result ValidationRecord :=
        if String.eqb (vr_Hostname vr) EmptyString then
          let hostname := url_Hostname parsedUrl in
          if String.eqb hostname EmptyString then
            Err (errorString (Sprintf "hostname missing in URL %q"
                                      [ArgString (vr_URL vr)]))
          else Ok (mkValidationRecord hostname (vr_Port vr)
                     (vr_AddressesResolved vr) (vr_AddressUsed vr) (vr_URL vr)
                     (vr_ResolverAddrs vr))
        else Ok vr in
      match step1 with
      | Err e => Err e
      | Ok vr =>
          let setPort (p : string) :=
            mkValidationRecord (vr_Hostname vr) p (vr_AddressesResolved vr)
              (vr_AddressUsed vr) (vr_URL vr) (vr_ResolverAddrs vr) in
          if String.eqb (vr_Port vr) EmptyString then
            if String.eqb (url_Port parsedUrl) EmptyString then
              if String.eqb (url_Scheme parsedUrl) "https" then Ok (setPort "443")
              else if String.eqb (url_Scheme parsedUrl) "http" then Ok (setPort "80")
              else Err (errorString
                          (Sprintf "unknown scheme %q in URL %q"
                             [ArgString (url_Scheme parsedUrl);
                              ArgString (vr_URL vr)]))
            else if String.eqb (url_Port parsedUrl) "80"
                    || String.eqb (url_Port parsedUrl) "443" then
              Ok (setPort (url_Port parsedUrl))
            else Err (errorString
                        (Sprintf "only ports 80/tcp and 443/tcp are allowed in URL %q"
                           [ArgString (vr_URL vr)]))
          else Ok vr
      end
  end.

(** The loop over the records in [populateAttemptedFields]. *)
Fixpoint recordsLoop (challengeType : string) (records : list ValidationRecord)
  : result (list VRPB) :=
  match records with
  | [] => Ok []
  | r :: rest =>
      let rehydrated :=
        if String.eqb challengeType core.ChallengeTypeHTTP01
        then rehydrateHostPort r else Ok r in
      match rehydrated with
      | Err e => Err e
      | Ok r =>
          match ValidationRecordToPB r with
          | Err e => Err e
          | Ok pb =>
              match recordsLoop challengeType rest with
              | Err e => Err e
              | Ok pbs => Ok (pb :: pbs)
              end
          end
      end
  end.

(** [populateAttemptedFields(am, challenge)]: the challenge afterwards, or the
    error. *)
Definition populateAttemptedFields (am : authzModel) (challenge : Challenge VRPB PDPB)
  : result (Challenge VRPB PDPB) :=
  let withStatus : result (Challenge VRPB PDPB) :=
    if negb (Nat.eqb (len (am_ValidationError am)) 0) then
      match UnmarshalProblem (am_ValidationError am) with
      | Err _ =>
          Err (badJSONError "failed to unmarshal authz2 model's validation error"
                            (am_ValidationError am))
      | Ok prob =>
          match ProblemDetailsToPB prob with
          | Err e => Err e
          | Ok pb =>
              Ok (mkChallenge (ch_Type challenge) core.StatusInvalid
                    (ch_Token challenge) (ch_Validated challenge) (Some pb)
                    (ch_Validationrecords challenge))
          end
      end
    else
      Ok (mkChallenge (ch_Type challenge) core.StatusValid (ch_Token challenge)
            (ch_Validated challenge) (ch_Error challenge)
            (ch_Validationrecords challenge)) in
  match withStatus with
  | Err e => Err e
  | Ok challenge =>
      match UnmarshalRecords (am_ValidationRecord am) with
      | Err _ =>
          Err (badJSONError "failed to unmarshal authz2 model's validation record"
                            (am_ValidationRecord am))
      | Ok records =>
          match recordsLoop (ch_Type challenge) records with
          | Err e => Err e
          | Ok pbs =>
              Ok (mkChallenge (ch_Type challenge) (ch_Status challenge)
                    (ch_Token challenge) (ch_Validated challenge)
                    (ch_Error challenge) pbs)
          end
      end
  end.

(** [(am.Challenges>>pos)&1 == 1] *)
Definition bitSet (challenges pos : Z) : bool :=
  Z.eqb (Z.land (Z.shiftr challenges pos) 1) 1.

(** The loop [for pos := uint8(0); pos < 8; pos++] of [modelToAuthzPB] over
    the positions still to visit: the challenges appended to [challenges], or
    the error. *)
Fixpoint challengesLoop (am : authzModel) (positions : list Z)
    (challenges : list (Challenge VRPB PDPB))
  : result (list (Challenge VRPB PDPB)) :=
  match positions with
  | [] => Ok challenges
  | pos :: rest =>
      if bitSet (am_Challenges am) pos then
        let challType := indexStr uintToChallType pos in
        let challenge :=
          mkChallenge challType core.StatusPending
            (RawURLEncoding_EncodeToString (am_Token am)) None None [] in
        match am_Attempted am with
        | Some attempted =>
            if String.eqb (indexStr uintToChallType attempted) challType then
              match populateAttemptedFields am challenge with
              | Err e => Err e
              | Ok challenge =>
                  let validated := option_map timestamppb_New (am_AttemptedAt am) in
                  let challenge :=
                    mkChallenge (ch_Type challenge) (ch_Status challenge)
                      (ch_Token challenge) validated (ch_Error challenge)
                      (ch_Validationrecords challenge) in
                  challengesLoop am rest (challenges ++ [challenge])
              end
            else challengesLoop am rest challenges
        | None => challengesLoop am rest (challenges ++ [challenge])
        end
      else challengesLoop am rest challenges
  end.

(** The values [0, 1, ..., 7] of the loop variable [pos]. *)
Definition positions : list Z := [0; 1; 2; 3; 4; 5; 6; 7].

Definition modelToAuthzPB (am : authzModel) : result (Authorization VRPB PDPB) :=
  match uintToIdentifierType !! am_IdentifierType am with
  | None =>
      Err (errorString (Sprintf "unrecognized identifier type encoding %d"
                                [ArgInt (am_IdentifierType am)]))
  | Some identType =>
      let profile := default EmptyString (am_CertificateProfileName am) in
      match challengesLoop am positions [] with
      | Err e => Err e
      | Ok challenges =>
          Ok {| pb_Id := Sprintf "%d" [ArgInt (am_ID am)];
                pb_Status := indexStr uintToStatus (am_Status am);
                pb_Identifier :=
                  ToProto (identifier.mkACMEIdentifier identType
                                                       (am_IdentifierValue am));
                pb_RegistrationID := am_RegistrationID am;
                pb_Expires := timestamppb_New (am_Expires am);
                pb_CertificateProfileName := profile;
                pb_Challenges := challenges |}
      end
  end.

End AuthzModel.

(** *** Encodings, names and identifiers *)

(** [m[k]] on a Go map with [uint8] values: zero for a missing key. *)
Definition indexUint (m : gmap string Z) (k : string) : Z := default 0 (m !! k).

Definition challTypeToUint : gmap string Z :=
  list_to_map [("http-01", 0); ("dns-01", 1); ("tls-alpn-01", 2);
               ("dns-account-01", 3)]%string.

Definition identifierTypeToUint : gmap string Z :=
  list_to_map [("dns", 0); ("ip", 1)]%string.

Definition statusToUint : gmap core.AcmeStatus Z :=
  list_to_map [(core.StatusPending, 0); (core.StatusValid, 1);
               (core.StatusInvalid, 2); (core.StatusDeactivated, 3);
               (core.StatusRevoked, 4)].

Definition statusUint (status : core.AcmeStatus) : Z := indexUint statusToUint status.

(** A value of type [uint8]: arithmetic wraps around at 256. *)
Definition uint8 (z : Z) : Z := z mod 256.

(** The loop [for i, j := 0, len(labels)-1; i < j; i, j = i+1, j-1] of
    [reverseFQDN], which swaps [labels[i]] and [labels[j]]; it stops after
    [rounds] rounds at the latest, and [len(labels)] rounds are enough. *)
Fixpoint swapLoop (rounds i j : nat) (labels : list string) : list string :=
  match rounds with
  | O => labels
  | S rounds' =>
      if (i <? j)%nat then
        let li := default EmptyString (labels !! i) in
        let lj := default EmptyString (labels !! j) in
        swapLoop rounds' (i + 1) (j - 1) (<[j := li]> (<[i := lj]> labels))
      else labels
  end.

Definition reverseFQDN (fqdn : string) : string :=
  let labels := Split fqdn "." in
  Join (swapLoop (length labels) 0 (length labels - 1) labels) ".".

Definition EncodeIssuedName {netip : NetIP} (name : string) : string :=
  match ParseAddr name with
  | Some netIP => Addr_String netIP
  | None => reverseFQDN name
  end.

(** [identifierModel] *)
Record identifierModel := mkIdentifierModel {
  im_Type : Z;
  im_Value : string;
}.

(** [sapb.Identifiers] *)
Record IdentifiersPB := mkIdentifiersPB {
  pb_Identifiers : list IdentifierPB;
}.

(** [sapb.NewAuthzRequest] *)
Record NewAuthzRequest := mkNewAuthzRequest {
  req_Identifier : IdentifierPB;
  req_RegistrationID : Z;
  req_Expires : option Timestamp;
  req_ChallengeTypes : list string;
  req_Token : string;
}.

(** [certificateModel]: one row of the [certificates] table. *)
Record certificateModel := mkCertificateModel {
  cm_ID : Z;
  cm_RegistrationID : Z;
  cm_Serial : string;
  cm_Digest : string;
  cm_DER : string;
  cm_Issued : Z;
  cm_Expires : Z;
}.

(** [corepb.Certificate] *)
Record Certificate := mkCertificate {
  cert_RegistrationID : Z;
  cert_Serial : string;
  cert_Digest : string;
  cert_Der : string;
  cert_Issued : Timestamp;
  cert_Expires : Timestamp;
}.

(** [model.toPb()] of a [certificateModel] *)
Definition certificateModel_toPb (model : certificateModel) : Certificate :=
  {| cert_RegistrationID := cm_RegistrationID model;
     cert_Serial := cm_Serial model;
     cert_Digest := cm_Digest model;
     cert_Der := cm_DER model;
     cert_Issued := timestamppb_New (cm_Issued model);
     cert_Expires := timestamppb_New (cm_Expires model) |}.

Definition certFields : string :=
  "id, registrationID, serial, digest, der, issued, expires".

(** [base64.RawURLEncoding.DecodeString]; and a [db.Selector] on the
    [certificates] table: the rows [s.Select] puts into the slice for a
    query and its arguments, and the error it returns. *)
Class Storage := {
  RawURLEncoding_DecodeString : string -> result string;
  QueryArgs : Type;
  Select_certificates : string -> QueryArgs -> list certificateModel * option error;
}.

Section Conversions.
Context {fmt : Fmt} {codec : Codec} {storage : Storage}.

(** The loop of [hasMultipleNonPendingChallenges], with its flag. *)
Fixpoint nonPendingLoop (challenges : list (Challenge VRPB PDPB)) (nonPending : bool)
  : bool :=
  match challenges with
  | [] => false
  | c :: rest =>
      if String.eqb (ch_Status c) core.StatusValid
         || String.eqb (ch_Status c) core.StatusInvalid then
        if negb nonPending then nonPendingLoop rest true else true
      else nonPendingLoop rest nonPending
  end.

Definition hasMultipleNonPendingChallenges (challenges : list (Challenge VRPB PDPB))
  : bool :=
  nonPendingLoop challenges false.

(** [newAuthzReqToModel(authz, profile)], for a request that has an
    identifier. *)
Definition newAuthzReqToModel (authz : NewAuthzRequest) (profile : string)
  : result authzModel :=
  let challenges :=
    foldl (fun bits challType =>
             Z.lor bits (uint8 (Z.shiftl 1 (indexUint challTypeToUint challType))))
          0 (req_ChallengeTypes authz) in
  match RawURLEncoding_DecodeString (req_Token authz) with
  | Err err => Err err
  | Ok token =>
      Ok {| am_ID := 0;
            am_IdentifierType :=
              indexUint identifierTypeToUint (PBType (req_Identifier authz));
            am_IdentifierValue := PBValue (req_Identifier authz);
            am_RegistrationID := req_RegistrationID authz;
            am_CertificateProfileName :=
              if negb (String.eqb profile EmptyString) then Some profile else None;
            am_Status := indexUint statusToUint core.StatusPending;
            am_Expires := AsTime (req_Expires authz);
            am_Challenges := challenges;
            am_Attempted := None;
            am_AttemptedAt := None;
            am_Token := token;
            am_ValidationError := EmptyString;
            am_ValidationRecord := EmptyString |}
  end.

Definition newIdentifierModelFromPB (pb : IdentifierPB) : result identifierModel :=
  match identifierTypeToUint !! PBType pb with
  | None =>
      Err (errorString (Sprintf "unsupported identifier type %q"
                                [ArgString (PBType pb)]))
  | Some idType => Ok (mkIdentifierModel idType (PBValue pb))
  end.

Definition newPBFromIdentifierModel (id : identifierModel) : result IdentifierPB :=
  match uintToIdentifierType !! im_Type id with
  | None =>
      Err (errorString (Sprintf "unsupported identifier type %d"
                                [ArgInt (im_Type id)]))
  | Some idType => Ok (mkIdentifierPB idType (im_Value id))
  end.

(** The loop of [newIdentifierModelsFromPB]. *)
Fixpoint identifierModelsLoop (pbs : list IdentifierPB) (ids : list identifierModel)
  : result (list identifierModel) :=
  match pbs with
  | [] => Ok ids
  | pb :: rest =>
      match newIdentifierModelFromPB pb with
      | Err err => Err err
      | Ok id => identifierModelsLoop rest (ids ++ [id])
      end
  end.

Definition newIdentifierModelsFromPB (pbs : list IdentifierPB)
  : result (list identifierModel) :=
  identifierModelsLoop pbs [].

(** The loop of [newPBFromIdentifierModels]. *)
Fixpoint identifierPBsLoop (ids : list identifierModel) (pbs : list IdentifierPB)
  : result (list IdentifierPB) :=
  match ids with
  | [] => Ok pbs
  | id :: rest =>
      match newPBFromIdentifierModel id with
      | Err err => Err err
      | Ok pb => identifierPBsLoop rest (pbs ++ [pb])
      end
  end.

Definition newPBFromIdentifierModels (ids : list identifierModel)
  : result IdentifiersPB :=
  match identifierPBsLoop ids [] with
  | Err err => Err err
  | Ok pbs => Ok (mkIdentifiersPB pbs)
  end.

(** The loop of [SelectCertificates] over the selected rows. *)
Fixpoint certificatesLoop (models : list certificateModel)
    (pbs : list Certificate) (highestID : Z) : list Certificate * Z :=
  match models with
  | [] => (pbs, highestID)
  | m :: rest =>
      certificatesLoop rest (pbs ++ [certificateModel_toPb m])
        (if highestID <? cm_ID m then cm_ID m else highestID)
  end.

(** [SelectCertificates(ctx, s, q, args)]: the certificates, the highest ID
    and the error of the query. *)
Definition SelectCertificates (q : string) (args : QueryArgs)
  : list Certificate * Z * option error :=
  let '(models, err) :=
    Select_certificates ("SELECT " ++ certFields ++ " FROM certificates " ++ q) args in
  let '(pbs, highestID) := certificatesLoop models [] 0 in
  (pbs, highestID, err).

End Conversions.

(** *** Queries for authorizations *)


(** An argument of a prepared statement. *)
Inductive queryArg :=
  | QInt64 (z : Z)
  | QUint8 (z : Z)
  | QTime (t : Z)
  | QText (s : string).

(** [db.QuestionMarks(n)], and a [db.Selector] on the [authz2] table: the
    rows [s.Select] puts into the slice for a statement and its arguments,
    and the error it returns. *)
Class AuthzStore := {
  QuestionMarks : nat -> string;
  Select_authz2 : string -> list queryArg -> list authzModel * option error;
}.


Section Queries.
Context {fmt : Fmt} {codec : Codec} {store : AuthzStore}.

(** The loop [for _, id := range idents] of
    [buildIdentifierQueryConditions]: the values of each type, in the order
    of the identifiers. *)
Definition identsByType (idents : list identifier.ACMEIdentifier)
  : gmap identifier.IdentifierType (list string) :=
  foldl (fun m id =>
           <[identifier.Type_ id :=
               default [] (m !! identifier.Type_ id) ++ [identifier.Value id]]> m)
        ∅ idents.

(** The loop [for idType, idValues := range identsByType], over the entries
    of the map in the order the iteration yields them. *)
Fixpoint conditionsLoop (groups : list (identifier.IdentifierType * list string))
    (conditions : list string) (args : list queryArg)
  : list string * list queryArg :=
  match groups with
  | [] => (conditions, args)
  | (idType, idValues) :: rest =>
      conditionsLoop rest
        (conditions ++
           [Sprintf "identifierType = ? AND identifierValue IN (%s)"
                    [ArgString (QuestionMarks (length idValues))]])
        ((args ++ [QUint8 (indexUint identifierTypeToUint idType)])
           ++ map QText idValues)
  end.

(** [buildIdentifierQueryConditions(idents)] for an iteration over the map
    of the types that yields [groups]. *)
Definition buildIdentifierQueryConditionsIn (idents : list identifier.ACMEIdentifier)
    (groups : list (identifier.IdentifierType * list string))
  : string * list queryArg :=
  if Nat.eqb (length idents) 0 then ("FALSE"%string, [])
  else
    let '(conditions, args) := conditionsLoop groups [] [] in
    (Join conditions " OR ", args).

Definition buildIdentifierQueryConditions (idents : list identifier.ACMEIdentifier)
    (out : string * list queryArg) : Prop :=
  exists groups,
    groups ≡ₚ map_to_list (identsByType idents) /\
    out = buildIdentifierQueryConditionsIn idents groups.




End Queries.

End sa.

(** ** Rate-limit overrides ([ratelimits/limit.go]) *)

Module ratelimits.
Import GoStrings.

Local Open Scope Z_scope.

(** [Limit]; [Period] is a duration in nanoseconds, [Name] the number of the
    [Name] enum. A [Limits] is a [map[string]*Limit]: the functions of the
    file store no nil pointer in one, and a map of limits holds the limits
    themselves here. *)
Record Limit := mkLimit {
  Burst : Z;
  Count : Z;
  Period : Z;
  Name : Z;
  Comment : string;
  emissionInterval : Z;
  burstOffset : Z;
  isOverride : bool;
}.

(** The local type [row] of [DumpOverrides]. *)
Record row := mkRow {
  name : string;
  id : string;
  count : Z;
  burst : Z;
  period : string;
  comment : string;
}.

(** The [Name] enum of the package ([names.go]): [name.isValid()],
    [name.String()], and the text of [LimitNames] in an error message. *)
Class Names := {
  isValid : Z -> bool;
  Name_String : Z -> string;
  LimitNames : string;
}.

(** [strconv.Atoi] ([None] is an error), [strconv.FormatInt(i, 10)],
    [time.Duration.String], [os.Create] (the error it returns), and a
    [csv.Writer] on the file at a path: the error [w.Write(record)] returns
    after the records [written] have been written, and the error
    [w.Error()] reports after [w.Flush()] when [written] have been. *)
Class Runtime := {
  Atoi : string -> option Z;
  FormatInt : Z -> string;
  Duration_String : Z -> string;
  os_Create : string -> option error;
  Writer_Write : string -> list (list string) -> list string -> option error;
  Writer_Error : string -> list (list string) -> option error;
}.

(** [sort.Slice(x, less)], with [less] on elements instead of indices. *)
Class Sort := {
  sort_Slice : forall A : Type, (A -> A -> bool) -> list A -> list A;
}.
Arguments sort_Slice {_ A}.

(** [a < b] on Go strings: byte-wise lexicographic order. *)
Definition stringLess (a b : string) : bool := String.ltb a b.

(** The [less] function handed to [sort.Slice] in [DumpOverrides]. *)
Definition rowLess (ri rj : row) : bool :=
  if negb (String.eqb (name ri) (name rj)) then stringLess (name ri) (name rj)
  else if negb (count ri =? count rj) then count rj <? count ri
  else if negb (burst ri =? burst rj) then burst rj <? burst ri
  else if negb (String.eqb (period ri) (period rj)) then
    stringLess (period ri) (period rj)
  else if negb (String.eqb (comment ri) (comment rj)) then
    stringLess (comment ri) (comment rj)
  else stringLess (id ri) (id rj).

Section Overrides.
Context {fmt : Fmt} {names : Names} {runtime : Runtime} {sorter : Sort}.

(** [parseOverrideNameEnumId(key)]: the name and the id, or the error. *)
Definition parseOverrideNameEnumId (key : string) : result (Z * string) :=
  if negb (Contains key ":") then
    Err (errorString (Sprintf "invalid override %q, must be formatted 'name:id'"
                              [ArgString key]))
  else
    let nameStrAndId := SplitN key ":" 2 in
    if negb (Nat.eqb (length nameStrAndId) 2) then
      Err (errorString (Sprintf "invalid override %q, must be formatted 'name:id'"
                                [ArgString key]))
    else
      let nameStr := default EmptyString (nameStrAndId !! 0%nat) in
      match Atoi nameStr with
      | None =>
          Err (errorString
                 (Sprintf "invalid name %q in override limit %q, must be an integer"
                          [ArgString nameStr; ArgString key]))
      | Some nameInt =>
          if negb (isValid nameInt) then
            Err (errorString
                   (Sprintf "invalid name %q in override limit %q, must be one of %v"
                            [ArgString nameStr; ArgString key; ArgString LimitNames]))
          else
            let id := default EmptyString (nameStrAndId !! 1%nat) in
            if String.eqb id EmptyString then
              Err (errorString
                     (Sprintf "empty id in override %q, must be formatted 'name:id'"
                              [ArgString key]))
            else Ok (nameInt, id)
      end.

(** The loop [for bucketKey, limit := range overrides] of [DumpOverrides],
    over the entries in the order the iteration yields them. *)
Fixpoint rowsLoop (entries : list (string * Limit)) (rows : list row)
  : result (list row) :=
  match entries with
  | [] => Ok rows
  | (bucketKey, limit) :: rest =>
      match parseOverrideNameEnumId bucketKey with
      | Err e => Err e
      | Ok (name, id) =>
          rowsLoop rest
            (rows ++ [mkRow (Name_String name) id (Count limit) (Burst limit)
                            (Duration_String (Period limit)) (Comment limit)])
      end
  end.

(** The record written for a row. *)
Definition csvRecord (r : row) : list string :=
  [name r; id r; FormatInt (count r); FormatInt (burst r); period r; comment r].

Definition csvHeader : list string :=
  ["name"; "id"; "count"; "burst"; "period"; "comment"]%string.

(** The loop [for _, r := range rows] of [DumpOverrides] with the flush
    after it: the records written, and the error returned, which is that of
    the first [w.Write] that fails, and that of [w.Error()] when none
    does. *)
Fixpoint writeLoop (path : string) (rows : list row) (written : list (list string))
  : list (list string) * option error :=
  match rows with
  | [] => (written, Writer_Error path written)
  | r :: rest =>
      match Writer_Write path written (csvRecord r) with
      | Some err => (written, Some err)
      | None => writeLoop path rest (written ++ [csvRecord r])
      end
  end.

(** [DumpOverrides(path, overrides)] for an iteration over the map that
    yields [entries]: the records written to the file at [path] ([None] when
    the file was not created) and the error returned. *)
Definition DumpOverridesIn (path : string) (entries : list (string * Limit))
  : option (list (list string)) * option error :=
  match rowsLoop entries [] with
  | Err e => (None, Some e)
  | Ok rows =>
      let rows := sort_Slice rowLess rows in
      match os_Create path with
      | Some e => (None, Some e)
      | None =>
          match Writer_Write path [] csvHeader with
          | Some err => (Some [], Some err)
          | None =>
              let '(written, err) := writeLoop path rows [csvHeader] in
              (Some written, err)
          end
      end
  end.

(** Ranging over a Go map yields its entries in an unspecified order:
    [DumpOverrides path overrides out] holds when [out] is a result of the
    call for one of them. *)
Definition DumpOverrides (path : string) (overrides : gmap string Limit)
    (out : option (list (list string)) * option error) : Prop :=
  exists entries,
    entries ≡ₚ map_to_list overrides /\ out = DumpOverridesIn path entries.

End Overrides.

(** *** Limits and the registry of limits *)

(** [LimitConfig] *)
Record LimitConfig := mkLimitConfig {
  lc_Burst : Z;
  lc_Count : Z;
  lc_Period : Z;
}.

(** An element of [overrideYAML.Ids]. *)
Record overrideIdYAML := mkOverrideIdYAML {
  oi_Id : string;
  oi_Comment : string;
}.

(** [overrideYAML] *)
Record overrideYAML := mkOverrideYAML {
  oy_LimitConfig : LimitConfig;
  oy_Ids : list overrideIdYAML;
}.

(** [limitRegistry] *)
Record limitRegistry := mkLimitRegistry {
  reg_defaults : gmap string Limit;
  reg_overrides : gmap string Limit;
}.

(** What a call does: it returns a value, or it panics. *)
Inductive run (A : Type) :=
  | Returns (a : A)
  | Panics (msg : string).
Arguments Returns {A} a.
Arguments Panics {A} msg.

Definition errLimitDisabled : error := errorString "limit disabled".

(** The message of the panic for reading a field through a nil pointer. *)
Definition nilPointerDereference : string :=
  "runtime error: invalid memory address or nil pointer dereference".

(** [names.go] and [utilities.go] of the package: the table [StringToName],
    [name.EnumString()], two of the names, [validateIdForName],
    [coveringIPPrefix] and [joinWithColon]; [netip.Prefix.String]; and
    [fmt.Sprintf("%x", core.HashIdentifiers(identifier.FromStringSlice(l)))]. *)
Class NameTable {netip : NetIP} := {
  StringToName : string -> option Z;
  EnumString : Z -> string;
  CertificatesPerDomain : Z;
  CertificatesPerFQDNSet : Z;
  validateIdForName : Z -> string -> option error;
  coveringIPPrefix : Z -> Addr -> result Prefix;
  Prefix_String : Prefix -> string;
  hashIdentifiersHex : list string -> string;
  joinWithColon : string -> string -> string;
}.

(** [os.ReadFile], and [strictyaml.Unmarshal] into a [LimitConfigs] and into
    an [overridesYAML]. A [LimitConfigs] is a [map[string]*LimitConfig]: its
    values are pointers, [None] is the nil pointer, which a key without a
    value decodes to. The maps of an [overridesYAML] hold values. *)
Class LimitFiles := {
  os_ReadFile : string -> result string;
  Unmarshal_LimitConfigs : string -> result (gmap string (option LimitConfig));
  Unmarshal_overridesYAML : string -> result (list (gmap string overrideYAML));
}.

Section Registry.
Context {fmt : Fmt} {netip : NetIP} {names : Names} {runtime : Runtime}
        {table : NameTable} {limitFiles : LimitFiles}.

(** [l.precompute()]: the limit afterwards. Dividing by a zero [Count]
    panics. *)
Definition precompute (l : Limit) : run Limit :=
  if Count l =? 0 then Panics "runtime error: integer divide by zero"
  else
    let interval := int64 (Z.quot (Period l) (Count l)) in
    Returns {| Burst := Burst l;
               Count := Count l;
               Period := Period l;
               Name := Name l;
               Comment := Comment l;
               emissionInterval := interval;
               burstOffset := int64 (interval * Burst l);
               isOverride := isOverride l |}.

Definition ValidateLimit (l : Limit) : option error :=
  if Burst l <=? 0 then
    Some (errorString (Sprintf "invalid burst '%d', must be > 0" [ArgInt (Burst l)]))
  else if Count l <=? 0 then
    Some (errorString (Sprintf "invalid count '%d', must be > 0" [ArgInt (Count l)]))
  else if Period l <=? 0 then
    Some (errorString (Sprintf "invalid period '%s', must be > 0"
                               [ArgString (Duration_String (Period l))]))
  else None.

Definition loadDefaults (path : string) : result (gmap string (option LimitConfig)) :=
  match os_ReadFile path with
  | Err err => Err err
  | Ok data =>
      match Unmarshal_LimitConfigs data with
      | Err err => Err err
      | Ok lm => Ok lm
      end
  end.

Definition loadOverrides (path : string) : result (list (gmap string overrideYAML)) :=
  match os_ReadFile path with
  | Err err => Err err
  | Ok data =>
      match Unmarshal_overridesYAML data with
      | Err err => Err err
      | Ok ov => Ok ov
      end
  end.

(** [parseOverrideNameId(key)]: the name and the id, or the error. *)
Definition parseOverrideNameId (key : string) : result (Z * string) :=
  if negb (Contains key ":") then
    Err (errorString (Sprintf "invalid override %q, must be formatted 'name:id'"
                              [ArgString key]))
  else
    let nameAndId := SplitN key ":" 2 in
    let nameStr := default EmptyString (nameAndId !! 0%nat) in
    if String.eqb nameStr EmptyString then
      Err (errorString (Sprintf "empty name in override %q, must be formatted 'name:id'"
                                [ArgString key]))
    else
      match StringToName nameStr with
      | None =>
          Err (errorString
                 (Sprintf "unrecognized name %q in override limit %q, must be one of %v"
                          [ArgString nameStr; ArgString key; ArgString LimitNames]))
      | Some name =>
          let id := default EmptyString (nameAndId !! 1%nat) in
          if String.eqb id EmptyString then
            Err (errorString
                   (Sprintf "empty id in override %q, must be formatted 'name:id'"
                            [ArgString key]))
          else Ok (name, id)
      end.

(** The [switch name] of [parseOverrideLimits]: the id the override is
    stored under. *)
Definition overrideBucketId (name : Z) (id : string) : result string :=
  if name =? CertificatesPerDomain then
    match ParseAddr id with
    | Some ip =>
        match coveringIPPrefix name ip with
        | Err err =>
            Err (errorString (Sprintf "computing prefix for IP address %q: %w"
                                      [ArgString id; ArgString (Error err)]))
        | Ok prefix => Ok (Prefix_String prefix)
        end
    | None => Ok id
    end
  else if name =? CertificatesPerFQDNSet then Ok (hashIdentifiersHex (Split id ","))
  else Ok id.

(** The loop over [v.Ids] in [parseOverrideLimits]. *)
Fixpoint idsLoop (k : string) (v : overrideYAML) (name : Z)
    (ids : list overrideIdYAML) (parsed : gmap string Limit)
  : run (result (gmap string Limit)) :=
  match ids with
  | [] => Returns (Ok parsed)
  | entry :: rest =>
      match validateIdForName name (oi_Id entry) with
      | Some err =>
          Returns
            (Err (errorString
                    (Sprintf "validating name %s and id %q for override limit %q: %w"
                             [ArgString (Name_String name); ArgString (oi_Id entry);
                              ArgString k; ArgString (Error err)])))
      | None =>
          match overrideBucketId name (oi_Id entry) with
          | Err err => Returns (Err err)
          | Ok id =>
              let lim :=
                {| Burst := lc_Burst (oy_LimitConfig v);
                   Count := lc_Count (oy_LimitConfig v);
                   Period := lc_Period (oy_LimitConfig v);
                   Name := name;
                   Comment := oi_Comment entry;
                   emissionInterval := 0;
                   burstOffset := 0;
                   isOverride := true |} in
              match precompute lim with
              | Panics msg => Panics msg
              | Returns lim =>
                  match ValidateLimit lim with
                  | Some err =>
                      Returns
                        (Err (errorString
                                (Sprintf "validating override limit %q: %w"
                                         [ArgString k; ArgString (Error err)])))
                  | None =>
                      idsLoop k v name rest
                        (<[joinWithColon (EnumString name) id := lim]> parsed)
                  end
              end
          end
      end
  end.

(** The loop [for k, v := range ov] of [parseOverrideLimits], over the
    entries of the map in the order the iteration yields them. *)
Fixpoint overrideEntriesLoop (ov : list (string * overrideYAML))
    (parsed : gmap string Limit) : run (result (gmap string Limit)) :=
  match ov with
  | [] => Returns (Ok parsed)
  | (k, v) :: rest =>
      match StringToName k with
      | None =>
          Returns
            (Err (errorString
                    (Sprintf "unrecognized name %q in override limit, must be one of %v"
                             [ArgString k; ArgString LimitNames])))
      | Some name =>
          match idsLoop k v name (oy_Ids v) parsed with
          | Returns (Ok parsed) => overrideEntriesLoop rest parsed
          | stopped => stopped
          end
      end
  end.

(** The loop [for _, ov := range newOverridesYAML]. *)
Fixpoint overridesLoop (ovs : list (list (string * overrideYAML)))
    (parsed : gmap string Limit) : run (result (gmap string Limit)) :=
  match ovs with
  | [] => Returns (Ok parsed)
  | ov :: rest =>
      match overrideEntriesLoop ov parsed with
      | Returns (Ok parsed) => overridesLoop rest parsed
      | stopped => stopped
      end
  end.

(** [parseOverrideLimits(newOverridesYAML)] for iterations over the maps
    that yield [orders]. *)
Definition parseOverrideLimitsIn (orders : list (list (string * overrideYAML)))
  : run (result (gmap string Limit)) :=
  overridesLoop orders ∅.

(** [overrides] is a list of maps; [orders] holds, for each of them, its
    entries in an order of iteration. *)
Definition iterations (orders : list (list (string * overrideYAML)))
    (overrides : list (gmap string overrideYAML)) : Prop :=
  Forall2 (fun entries ov => entries ≡ₚ map_to_list ov) orders overrides.

Definition parseOverrideLimits (newOverridesYAML : list (gmap string overrideYAML))
    (out : run (result (gmap string Limit))) : Prop :=
  exists orders,
    iterations orders newOverridesYAML /\ out = parseOverrideLimitsIn orders.

(** The loop of [parseDefaultLimits], over the entries of the map in the
    order the iteration yields them. Reading [v.Burst] of a nil [v]
    panics. *)
Fixpoint defaultsLoop (entries : list (string * option LimitConfig))
    (parsed : gmap string Limit) : run (result (gmap string Limit)) :=
  match entries with
  | [] => Returns (Ok parsed)
  | (k, v) :: rest =>
      match StringToName k with
      | None =>
          Returns
            (Err (errorString
                    (Sprintf "unrecognized name %q in default limit, must be one of %v"
                             [ArgString k; ArgString LimitNames])))
      | Some name =>
          match v with
          | None => Panics nilPointerDereference
          | Some v =>
              let lim :=
                {| Burst := lc_Burst v;
                   Count := lc_Count v;
                   Period := lc_Period v;
                   Name := name;
                   Comment := EmptyString;
                   emissionInterval := 0;
                   burstOffset := 0;
                   isOverride := false |} in
              match ValidateLimit lim with
              | Some err =>
                  Returns
                    (Err (errorString (Sprintf "parsing default limit %q: %w"
                                               [ArgString k; ArgString (Error err)])))
              | None =>
                  match precompute lim with
                  | Panics msg => Panics msg
                  | Returns lim => defaultsLoop rest (<[EnumString name := lim]> parsed)
                  end
              end
          end
      end
  end.

Definition parseDefaultLimitsIn (entries : list (string * option LimitConfig))
  : run (result (gmap string Limit)) :=
  defaultsLoop entries ∅.

Definition parseDefaultLimits (newDefaultLimits : gmap string (option LimitConfig))
    (out : run (result (gmap string Limit))) : Prop :=
  exists entries,
    entries ≡ₚ map_to_list newDefaultLimits /\ out = parseDefaultLimitsIn entries.

(** [newLimitRegistry(defaults, overrides)] for given iterations over the
    maps. *)
Definition newLimitRegistryIn (defaultEntries : list (string * option LimitConfig))
    (orders : list (list (string * overrideYAML))) : run (result limitRegistry) :=
  match parseDefaultLimitsIn defaultEntries with
  | Panics msg => Panics msg
  | Returns (Err err) => Returns (Err err)
  | Returns (Ok regDefaults) =>
      match parseOverrideLimitsIn orders with
      | Panics msg => Panics msg
      | Returns (Err err) => Returns (Err err)
      | Returns (Ok regOverrides) =>
          Returns (Ok (mkLimitRegistry regDefaults regOverrides))
      end
  end.

Definition newLimitRegistry (defaultLimits : gmap string (option LimitConfig))
    (overrideLimits : list (gmap string overrideYAML))
    (out : run (result limitRegistry)) : Prop :=
  exists entries orders,
    entries ≡ₚ map_to_list defaultLimits /\ iterations orders overrideLimits /\
    out = newLimitRegistryIn entries orders.

Definition newLimitRegistryFromFiles (defaultsPath overridesPath : string)
    (out : run (result limitRegistry)) : Prop :=
  match loadDefaults defaultsPath with
  | Err err => out = Returns (Err err)
  | Ok defaultsData =>
      if String.eqb overridesPath EmptyString then newLimitRegistry defaultsData [] out
      else
        match loadOverrides overridesPath with
        | Err err => out = Returns (Err err)
        | Ok overridesData => newLimitRegistry defaultsData overridesData out
        end
  end.

(** [l.getLimit(name, bucketKey)] *)
Definition getLimit (l : limitRegistry) (name : Z) (bucketKey : string) : result Limit :=
  if negb (isValid name) then
    Err (errorString (Sprintf "specified name enum %q, is invalid"
                              [ArgString (Name_String name)]))
  else
    match (if negb (String.eqb bucketKey EmptyString)
           then reg_overrides l !! bucketKey else None) with
    | Some ol => Ok ol
    | None =>
        match reg_defaults l !! EnumString name with
        | Some dl => Ok dl
        | None => Err errLimitDisabled
        end
    end.

Definition LoadOverridesByBucketKey (path : string)
    (out : run (result (gmap string Limit))) : Prop :=
  match loadOverrides path with
  | Err err => out = Returns (Err err)
  | Ok ovs => parseOverrideLimits ovs out
  end.

End Registry.

End ratelimits.

(** ** Reference instances of the packages

    Small executable stand-ins for the packages above. They give the
    theorems below concrete inputs to run on; each says how far it follows
    the package it stands for. *)

Module Ref.
Import GoStrings.

(** The double quote character. *)
Definition dquote : string := String (ascii_of_nat 34) EmptyString.

(** A natural number in decimal. *)
Definition decimalN (n : N) : string :=
  DecimalString.NilZero.string_of_uint (N.to_uint n).

(** An integer in decimal. *)
Definition decimalZ (z : Z) : string :=
  DecimalString.NilZero.string_of_int (Z.to_int z).

Definition render (verb : ascii) (a : fmtArg) : string :=
  match a with
  | ArgString s => if Ascii.eqb verb "q" then dquote ++ s ++ dquote else s
  | ArgInt z => decimalZ z
  end.

(** [fmt.Sprintf] for the verbs [%s], [%q], [%d], [%v] and [%w]; [%q]
    quotes without escaping, which is what Go prints for text without
    quotes, backslashes and control characters. *)
Fixpoint refSprintf (format : string) (args : list fmtArg) : string :=
  match format with
  | EmptyString => EmptyString
  | String c rest =>
      if Ascii.eqb c "%" then
        match rest with
        | EmptyString => "%!(NOVERB)"
        | String verb rest' =>
            match args with
            | a :: args' => render verb a ++ refSprintf rest' args'
            | [] => "%!" ++ String verb "(MISSING)" ++ refSprintf rest' []
            end
        end
      else String c (refSprintf rest args)
  end.

#[export] Instance RefFmt : Fmt := {|
  Sprintf := refSprintf;
  badJSONMessage := fun msg json => (msg ++ ": " ++ json)%string;
|}.

(** The digits of [s] read as a decimal number after [acc]. *)
Fixpoint digitsToN (s : string) (acc : N) : option N :=
  match s with
  | EmptyString => Some acc
  | String c cs =>
      if byteIn "0" "9" c then
        digitsToN cs (acc * 10 + (N_of_ascii c - 48))%N
      else None
  end.

(** A decimal number without sign and without leading zeros. *)
Definition parseDecimal (s : string) : option N :=
  match s with
  | EmptyString => None
  | String c cs =>
      if Ascii.eqb c "0" && negb (String.eqb cs EmptyString) then None
      else digitsToN s 0
  end.

(** An IPv4 address: its four bytes. *)
Definition refAddr : Type := ascii * ascii * ascii * ascii.

Definition parseOctet (s : string) : option ascii :=
  match parseDecimal s with
  | Some n => if (n <? 256)%N then Some (ascii_of_N n) else None
  | None => None
  end.

(** Dotted-quad text to an address: four decimal fields of at most 255,
    without leading zeros. *)
Definition refParseAddr (s : string) : option refAddr :=
  match Split s "." with
  | [a; b; c; d] =>
      match parseOctet a, parseOctet b, parseOctet c, parseOctet d with
      | Some a, Some b, Some c, Some d => Some (a, b, c, d)
      | _, _, _, _ => None
      end
  | _ => None
  end.

Definition refAddrString (a : refAddr) : string :=
  let '(a, b, c, d) := a in
  decimalN (N_of_ascii a) ++ "." ++ decimalN (N_of_ascii b) ++ "."
  ++ decimalN (N_of_ascii c) ++ "." ++ decimalN (N_of_ascii d).

(** The address as a 32-bit number. *)
Definition addrBits (a : refAddr) : N :=
  let '(a, b, c, d) := a in
  (((N_of_ascii a * 256 + N_of_ascii b) * 256 + N_of_ascii c) * 256
   + N_of_ascii d)%N.

(** An IPv4 prefix: an address and a number of leading bits. *)
Definition refPrefix : Type := refAddr * N.

Definition refParsePrefix (s : string) : option refPrefix :=
  match Split s "/" with
  | [a; bits] =>
      match refParseAddr a, parseDecimal bits with
      | Some a, Some n => if (n <=? 32)%N then Some (a, n) else None
      | _, _ => None
      end
  | _ => None
  end.

Definition refPrefixContains (p : refPrefix) (a : refAddr) : bool :=
  let '(base, bits) := p in
  (N.shiftr (addrBits a) (32 - bits) =? N.shiftr (addrBits base) (32 - bits))%N.

(** [net/netip] for IPv4 in dotted-quad form only. An IPv4 address has no
    zone, so [WithZone] changes nothing. *)
#[export] Instance RefNetIP : NetIP := {|
  Addr := refAddr;
  Prefix := refPrefix;
  ParseAddr := refParseAddr;
  Addr_WithZone := fun a _ => a;
  Addr_String := refAddrString;
  ParsePrefix := refParsePrefix;
  Prefix_Contains := refPrefixContains;
|}.

(** The last label of a name. *)
Definition lastLabel (s : string) : string :=
  List.last (Split s ".") EmptyString.

(** Modelled from the spec: [iana.ExtractSuffix] and [iana.IsReservedAddr]
    are not under src/. The spec asks that a name end with an IANA-registered
    public suffix and that an address be outside the IANA special-purpose
    registry; here the suffixes are [com], [org], [net] and [co], and the
    registry holds 0.0.0.0/8, 10.0.0.0/8, 127.0.0.0/8 and 192.168.0.0/16. *)
Definition refExtractSuffix (s : string) : option string :=
  let tld := lastLabel s in
  if String.eqb tld "com" || String.eqb tld "org" || String.eqb tld "net"
     || String.eqb tld "co"
  then Some tld else None.

Definition refReservedPrefixes : list refPrefix :=
  [(("000"%char, "000"%char, "000"%char, "000"%char), 8%N);
   (("010"%char, "000"%char, "000"%char, "000"%char), 8%N);
   (("127"%char, "000"%char, "000"%char, "000"%char), 8%N);
   (("192"%char, "168"%char, "000"%char, "000"%char), 16%N)].

Definition refIsReservedAddr (a : refAddr) : option error :=
  if existsb (fun p => refPrefixContains p a) refReservedPrefixes then
    Some (errorString "IP address is in a reserved address block")
  else None.

#[export] Instance RefIANA : IANA := {|
  ExtractSuffix := refExtractSuffix;
  IsReservedAddr := refIsReservedAddr;
|}.

(** No punycode label decodes; lowercasing of text that is not ASCII is not
    modelled. *)
#[export] Instance RefUnicode : Unicode := {|
  ToUnicode := fun _ => None;
  IsNormalString := fun _ => true;
  MapToLower := fun s => s;
|}.

(** The policy of the spec's blocklist scenario, with one high-risk name and
    one blocked prefix added. *)
Definition refPolicy : policy.blockedIdentsPolicy :=
  {| policy.ExactBlockedNames := ["hi.example.com"];
     policy.HighRiskBlockedNames := ["example.org"];
     policy.AdminBlockedNames := [];
     policy.AdminBlockedPrefixes := ["8.8.4.0/24"] |}.

(** A policy without exact names. *)
Definition refPolicyNoExact : policy.blockedIdentsPolicy :=
  {| policy.ExactBlockedNames := [];
     policy.HighRiskBlockedNames := ["example.org"];
     policy.AdminBlockedNames := [];
     policy.AdminBlockedPrefixes := [] |}.

(** A file system with two files, whose texts stand for the YAML of the two
    policies above; any other text is malformed, and the digest is not
    computed. *)
#[export] Instance RefPolicyFile : policy.PolicyFile := {|
  policy.ReadFile := fun f =>
    if String.eqb f "policy.yaml" then Ok "policy"
    else if String.eqb f "noexact.yaml" then Ok "noexact"
    else Err (errorString "open: no such file or directory");
  policy.Unmarshal := fun text =>
    if String.eqb text "policy" then Ok refPolicy
    else if String.eqb text "noexact" then Ok refPolicyNoExact
    else Err (errorString "yaml: unmarshal errors");
  policy.sha256Hex := fun _ => "(sha256)";
|}.

(** An authority that has loaded nothing yet, with DNS and IP identifiers
    enabled. *)
Definition refAuthority : policy.AuthorityImpl :=
  policy.mkAuthorityImpl [] None None None [] None
    (Some (<["dns" := true]> (<["ip" := true]> ∅))).

(** A byte that stands for itself inside a JSON string: printable ASCII
    other than the double quote and the backslash. *)
Definition plainJSONByte (c : ascii) : bool :=
  let n := N_of_ascii c in
  (32 <=? n)%N && (n <=? 126)%N && negb (n =? 34)%N && negb (n =? 92)%N.

(** A JSON object with the one member [detail], a string of plain bytes. *)
Definition detailJSON (detail : string) : string :=
  "{" ++ dquote ++ "detail" ++ dquote ++ ":" ++ dquote ++ detail ++ dquote ++ "}".

(** [json.Unmarshal] into a [probs.ProblemDetails] for the texts [{}] and
    [detailJSON detail]; other texts, JSON or not, are not decoded. *)
Definition refUnmarshalProblem (text : string) : result sa.ProblemDetails :=
  let opening := ("{" ++ dquote ++ "detail" ++ dquote ++ ":" ++ dquote)%string in
  let closing := (dquote ++ "}")%string in
  let detail := substring (len opening) (len text - len opening - len closing) text in
  if String.eqb text "{}" then Ok (sa.mkProblemDetails EmptyString EmptyString 0)
  else if String.eqb text (detailJSON detail) && allBytes plainJSONByte detail then
    Ok (sa.mkProblemDetails EmptyString detail 0)
  else Err (errorString "json: cannot unmarshal").

(** Decoding and conversion for the storage models: a validation error
    decodes as [refUnmarshalProblem] says, the only record list that decodes
    is the empty one, the protobuf forms are the values themselves, no URL
    parses, and a token is shown as it is stored. *)
#[export] Instance RefCodec : sa.Codec := {|
  sa.VRPB := sa.ValidationRecord;
  sa.PDPB := sa.ProblemDetails;
  sa.UnmarshalProblem := refUnmarshalProblem;
  sa.UnmarshalRecords := fun text =>
    if String.eqb text "[]" then Ok []
    else Err (errorString "json: cannot unmarshal");
  sa.ProblemDetailsToPB := Ok;
  sa.ValidationRecordToPB := Ok;
  sa.url_Parse := fun _ => Err (errorString "parse: invalid URL");
  sa.RawURLEncoding_EncodeToString := fun token => token;
|}.

(** Modelled from the spec: the [Name] enum of the rate limits ([names.go] is
    not under src/), with the six limits the spec lists, numbered from 1 in
    the order it lists them. *)
Definition refLimitNames : list string :=
  ["NewRegistrationsPerIPAddress"; "NewRegistrationsPerIPv6Range";
   "NewOrdersPerAccount"; "CertificatesPerDomain"; "CertificatesPerFQDNSet";
   "FailedAuthorizationsPerDomainPerAccount"].

#[export] Instance RefNames : ratelimits.Names := {|
  ratelimits.isValid := fun n => (0 <? n)%Z && (n <=? 6)%Z;
  ratelimits.Name_String := fun n =>
    if (0 <? n)%Z then nth (Z.to_nat (n - 1)) refLimitNames "Unknown" else "Unknown";
  ratelimits.LimitNames := GoStrings.Join refLimitNames " ";
|}.

(** [strconv.Atoi]: an optional sign and decimal digits, within 64 bits. *)
Definition refAtoi (s : string) : option Z :=
  let digits (r : string) : option Z :=
    if String.eqb r EmptyString then None
    else match digitsToN r 0 with
         | Some n => if (n <? 2 ^ 63)%N then Some (Z.of_N n) else None
         | None => None
         end in
  match s with
  | String c r =>
      if Ascii.eqb c "-" then option_map Z.opp (digits r)
      else if Ascii.eqb c "+" then digits r
      else digits s
  | EmptyString => None
  end.

(** [fmtFrac] of Go's [time] package: the digits of [v] below [10^prec],
    without trailing zeros and with the decimal point if there are any, put
    before [acc]; and [v / 10^prec]. *)
Fixpoint fmtFrac (prec : nat) (v : N) (print : bool) (acc : string) : string * N :=
  match prec with
  | O => (if print then ("." ++ acc)%string else acc, v)
  | S prec' =>
      let digit := (v mod 10)%N in
      let print := print || negb (digit =? 0)%N in
      fmtFrac prec' (v / 10)%N print
        (if print then String (ascii_of_N (48 + digit)) acc else acc)
  end.

(** [time.Duration.String] for a duration of [d] nanoseconds. *)
Definition refDurationString (d : Z) : string :=
  let u := Z.abs_N d in
  let text :=
    if (u <? 1000000000)%N then
      if (u =? 0)%N then "0s"%string
      else
        let '(prec, unit) :=
          if (u <? 1000)%N then (0%nat, "ns"%string)
          else if (u <? 1000000)%N then
            (3%nat, String (ascii_of_nat 194) (String (ascii_of_nat 181) "s"))
          else (6%nat, "ms"%string) in
        let '(frac, w) := fmtFrac prec u false EmptyString in
        (decimalN w ++ frac ++ unit)%string
    else
      let '(frac, secs) := fmtFrac 9 u false EmptyString in
      let seconds := (decimalN (secs mod 60) ++ frac ++ "s")%string in
      let mins := (secs / 60)%N in
      if (0 <? mins)%N then
        let minutes := (decimalN (mins mod 60) ++ "m")%string in
        let hours := (mins / 60)%N in
        if (0 <? hours)%N then (decimalN hours ++ "h" ++ minutes ++ seconds)%string
        else (minutes ++ seconds)%string
      else seconds in
  if (d <? 0)%Z then ("-" ++ text)%string else text.


(** The bytes a [csv.Writer] puts out for records whose fields need no
    quotes: the fields, a comma between two of them and a line feed after
    each record. *)
Definition csvBytes (records : list (list string)) : N :=
  fold_right
    (fun record n =>
       (fold_right (fun field m => N.of_nat (len field) + m) 0 record
        + N.max 1 (N.of_nat (length record)) + n)%N)
    0%N records.

Definition errNoSpace : error :=
  errorString "write /dev/full: no space left on device".

(** Every file can be created. A [csv.Writer] writes through a buffer of
    4096 bytes, as in Go; the file [/dev/full] takes no byte, so that on it
    the write that overflows the buffer fails and so does the flush at the
    end; every other file takes what is written. *)
#[export] Instance RefRuntime : ratelimits.Runtime := {|
  ratelimits.Atoi := refAtoi;
  ratelimits.FormatInt := decimalZ;
  ratelimits.Duration_String := refDurationString;
  ratelimits.os_Create := fun _ => None;
  ratelimits.Writer_Write := fun path written record =>
    if String.eqb path "/dev/full" && (4096 <? csvBytes (written ++ [record]))%N
    then Some errNoSpace else None;
  ratelimits.Writer_Error := fun path written =>
    if String.eqb path "/dev/full" && (0 <? csvBytes written)%N
    then Some errNoSpace else None;
|}.

(** Insertion sort: [x] goes before the first element it is less than. *)
Fixpoint insertBy {A : Type} (less : A -> A -> bool) (x : A) (l : list A) : list A :=
  match l with
  | [] => [x]
  | y :: l' => if less x y then x :: y :: l' else y :: insertBy less x l'
  end.

Definition insertionSort {A : Type} (less : A -> A -> bool) (l : list A) : list A :=
  fold_right (insertBy less) [] l.

(** [sort.Slice] as an insertion sort: any sorting procedure gives a sorted
    permutation, which is all the theorems use. *)
#[export] Instance RefSort : ratelimits.Sort := {|
  ratelimits.sort_Slice := @insertionSort;
|}.

(** [mail.ParseAddress] for the bare form [local@domain] only: one [@]
    with text on both sides and no space. *)
#[export] Instance RefMail : policy.Mail := {|
  policy.ParseAddress := fun address =>
    match Split address "@" with
    | [localPart; domain] =>
        if negb (String.eqb localPart EmptyString)
           && negb (String.eqb domain EmptyString)
           && negb (Contains address " ")
        then Some address else None
    | _ => None
    end;
|}.

(** An authorization as its identifier and the type of the challenge that
    solved it, if one did. *)
#[export] Instance RefCoreAuthz : policy.CoreAuthz := {|
  policy.coreAuthorization := identifier.ACMEIdentifier * option core.AcmeChallenge;
  policy.authz_Identifier := fst;
  policy.SolvedBy := fun authz =>
    match snd authz with
    | Some chall => Ok chall
    | None => Err (errorString "authorization not solved by any challenge")
    end;
|}.

(** A token is decoded as it is shown by [RefCodec]; the certificates
    table holds two rows, which every query selects. *)
#[export] Instance RefStorage : sa.Storage := {|
  sa.RawURLEncoding_DecodeString := Ok;
  sa.QueryArgs := unit;
  sa.Select_certificates := fun _ _ =>
    ([sa.mkCertificateModel 7 1 "0a" "d1" "der1" 1000 2000;
      sa.mkCertificateModel 3 1 "0b" "d2" "der2" 1500 2500], None);
|}.

(** Question marks are joined with commas; the [authz2] table holds two
    rows, which every statement selects. *)
#[export] Instance RefAuthzStore : sa.AuthzStore := {|
  sa.QuestionMarks := fun n => Join (repeat "?" n) ",";
  sa.Select_authz2 := fun _ _ =>
    ([sa.mkAuthzModel 17 0 "a.example" 1 None 1 1000 7 None None "tok"
        EmptyString EmptyString;
      sa.mkAuthzModel 18 1 "10.0.0.1" 1 None 3 1000 1 None None "tok2"
        EmptyString EmptyString], None);
|}.

(** [url.Parse] for the forms [http://host], [https://host] and those with
    [:port] and a path after the host. *)
Definition refUrlParse (s : string) : result sa.URL :=
  let parts :=
    if HasPrefix s "https://" then Some ("https", sliceFrom 8 s)
    else if HasPrefix s "http://" then Some ("http", sliceFrom 7 s)
    else None in
  match parts with
  | None => Err (errorString "parse: unsupported URL")
  | Some (scheme, rest) =>
      match Split (List.hd EmptyString (Split rest "/")) ":" with
      | [host] => Ok (sa.mkURL scheme host EmptyString)
      | [host; port] => Ok (sa.mkURL scheme host port)
      | _ => Err (errorString "parse: invalid authority")
      end
  end.

(** [RefCodec] with URLs that parse. *)
#[export] Instance RefCodecURL : sa.Codec := {|
  sa.VRPB := sa.ValidationRecord;
  sa.PDPB := sa.ProblemDetails;
  sa.UnmarshalProblem := sa.UnmarshalProblem (Codec := RefCodec);
  sa.UnmarshalRecords := sa.UnmarshalRecords (Codec := RefCodec);
  sa.ProblemDetailsToPB := Ok;
  sa.ValidationRecordToPB := Ok;
  sa.url_Parse := refUrlParse;
  sa.RawURLEncoding_EncodeToString := fun token => token;
|}.

(** The position of [s] in [l], counted from 1. *)
Fixpoint positionIn (s : string) (l : list string) : option Z :=
  match l with
  | [] => None
  | x :: rest =>
      if String.eqb s x then Some 1%Z
      else option_map Z.succ (positionIn s rest)
  end.

(** Modelled from the spec and the uses in [limit.go]: a name is looked up
    in the list of limit names, its enum string is its number in decimal, an
    id is valid when it is not empty, the prefix that covers an IPv4
    address is its /32, two parts are joined with a colon, and the hash of a
    set of identifiers is stood for by their comma-joined text. *)
#[export] Instance RefNameTable : ratelimits.NameTable := {|
  ratelimits.StringToName := fun s => positionIn s refLimitNames;
  ratelimits.EnumString := decimalZ;
  ratelimits.CertificatesPerDomain := 4%Z;
  ratelimits.CertificatesPerFQDNSet := 5%Z;
  ratelimits.validateIdForName := fun _ id =>
    if String.eqb id EmptyString then Some (errorString "empty id") else None;
  ratelimits.coveringIPPrefix := fun _ a => Ok (a, 32%N);
  ratelimits.Prefix_String := fun p =>
    (refAddrString (fst p) ++ "/" ++ decimalN (snd p))%string;
  ratelimits.hashIdentifiersHex := fun l => Join l ",";
  ratelimits.joinWithColon := fun a b => (a ++ ":" ++ b)%string;
|}.

(** A file system with the file [defaults.yml], whose text stands for the
    YAML of one default limit, the file [null.yml], whose text stands for
    the YAML of a limit name without a value, and the file [overrides.yml],
    whose text stands for the YAML of one override; any other text is
    malformed. *)
#[export] Instance RefLimitFiles : ratelimits.LimitFiles := {|
  ratelimits.os_ReadFile := fun path =>
    if String.eqb path "defaults.yml" then Ok "defaults"
    else if String.eqb path "null.yml" then Ok "NewOrdersPerAccount:"
    else if String.eqb path "overrides.yml" then Ok "overrides"
    else Err (errorString "open: no such file or directory");
  ratelimits.Unmarshal_LimitConfigs := fun text =>
    if String.eqb text "defaults" then
      Ok {["NewOrdersPerAccount" :=
             Some (ratelimits.mkLimitConfig 300 300 10800000000000)]}
    else if String.eqb text "NewOrdersPerAccount:" then
      Ok {["NewOrdersPerAccount" := None]}
    else Err (errorString "yaml: unmarshal errors");
  ratelimits.Unmarshal_overridesYAML := fun text =>
    if String.eqb text "overrides" then
      Ok [{["NewOrdersPerAccount" :=
              ratelimits.mkOverrideYAML
                (ratelimits.mkLimitConfig 500 500 10800000000000)
                [ratelimits.mkOverrideIdYAML "12345" "a large account"]]}]
    else Err (errorString "yaml: unmarshal errors");
|}.

End Ref.

(** * Vocabulary of the properties

    The notions the statements below are written with. *)

(** ** Policy *)

Section PolicyVocabulary.
Import GoStrings identifier policy.
Context {netip : NetIP} {iana : IANA} {unicode : Unicode} {fmt : Fmt}.

(** The four blocklist tables of the authority. *)
Definition tables (pa : AuthorityImpl) :=
  (domainBlocklist pa, fqdnBlocklist pa, wildcardFqdnBlocklist pa,
   ipPrefixBlocklist pa).

(** What the theorem on [ValidIP] uses of [net/netip]: the empty string is
    not an address, and the text of an address without zone has no [%], the
    character that starts a zone. *)
Class NetIPLaws : Prop := {
  ParseAddr_empty : ParseAddr EmptyString = None;
  String_no_zone :
    forall a : Addr, Contains (Addr_String (Addr_WithZone a EmptyString)) "%" = false;
}.

(** [ip] is the canonical text of the address [a]: it parses to [a], and [a]
    without its zone prints as [ip]. *)
Definition canonical (ip : string) (a : Addr) : Prop :=
  ParseAddr ip = Some a /\ Addr_String (Addr_WithZone a EmptyString) = ip.

(** The one-byte string [sep]. *)
Definition sepString (sep : ascii) : string := String sep EmptyString.

(** [v] is [x] or ends [x] after a separator: [x] is [v] or [y.v]. *)
Definition labelSuffix (sep : ascii) (v x : string) : Prop :=
  x = v \/ exists y, x = (y ++ String sep v)%string.

(** The bytes of a name that [ValidDomain] accepts: lower-case letters,
    digits, the hyphen, the dot and the asterisk. *)
Definition validDomainByte (c : ascii) : bool :=
  dnsLabelCharacter c || Ascii.eqb c "." || Ascii.eqb c "*".

(** The name an [ExactBlockedNames] entry adds to the wildcard table: the
    entry without its first label. *)
Definition parent (v : string) : string :=
  default EmptyString (SplitN v "." 2 !! 1%nat).

(** The error [WillingToIssue] returns for a single identifier [x] that a
    blocklist forbids. *)
Definition policyForbiddenFor (x : string) : error :=
  BoulderErr
    (berrors.mkBoulderError berrors.RejectedIdentifier
       (Sprintf "Cannot issue for %q: %s"
          [ArgString x; ArgString (Error errPolicyForbidden)])
       []).

(** The three lookups [WillingToIssue] makes for a DNS identifier. *)
Definition dnsBlocked (pa : AuthorityImpl) (x : string) : bool :=
  ((0 <? Count x "*")%nat && index (wildcardFqdnBlocklist pa) (TrimPrefix x "*."))
  || existsb (fun i => index (domainBlocklist pa) (Join (drop i (Split x ".")) "."))
             (seq 0 (length (Split x ".")))
  || index (fqdnBlocklist pa) x.

(** [policy] without the entry [v] in [ExactBlockedNames]. *)
Definition withoutExact (v : string) (pol : blockedIdentsPolicy) : blockedIdentsPolicy :=
  {| ExactBlockedNames :=
       List.filter (fun k => negb (String.eqb k v)) (ExactBlockedNames pol);
     HighRiskBlockedNames := HighRiskBlockedNames pol;
     AdminBlockedNames := AdminBlockedNames pol;
     AdminBlockedPrefixes := AdminBlockedPrefixes pol |}.

(** [policy] without the entry [v] in [HighRiskBlockedNames]. *)
Definition withoutHighRisk (v : string) (pol : blockedIdentsPolicy) : blockedIdentsPolicy :=
  {| ExactBlockedNames := ExactBlockedNames pol;
     HighRiskBlockedNames :=
       List.filter (fun k => negb (String.eqb k v)) (HighRiskBlockedNames pol);
     AdminBlockedNames := AdminBlockedNames pol;
     AdminBlockedPrefixes := AdminBlockedPrefixes pol |}.

End PolicyVocabulary.

(** ** Orders and authorizations *)

Section StorageVocabulary.
Import GoStrings sa.
Context {fmt : Fmt} {codec : Codec}.

Local Open Scope Z_scope.

(** The classes of an authorization that the case analysis of the order
    status speaks of. *)
Definition knownStatus (info : authzValidity) : bool :=
  (0 <=? av_Status info) && (av_Status info <=? 4).

Definition authzPending (info : authzValidity) : bool := av_Status info =? 0.

Definition authzValid (info : authzValidity) : bool := av_Status info =? 1.

(** Invalid, deactivated, revoked, or expired at [now]. *)
Definition authzInvalid (now : Z) (info : authzValidity) : bool :=
  (av_Status info =? 2) || (av_Status info =? 3) || (av_Status info =? 4)
  || Before (av_Expires info) now.

(** An internal server error and no status. *)
Definition isInternalError (r : string * option error) : Prop :=
  fst r = EmptyString /\
  exists detail,
    snd r = Some (BoulderErr (berrors.mkBoulderError berrors.InternalServer detail [])).

(** The type name of the challenge at bit [pos]. *)
Definition challTypeAt (pos : Z) : string := indexStr uintToChallType pos.

(** The challenge [modelToAuthzPB] starts from at bit [pos]: pending, with
    the token of the row. *)
Definition pendingChallenge (am : authzModel) (pos : Z) : Challenge VRPB PDPB :=
  mkChallenge (challTypeAt pos) core.StatusPending
    (RawURLEncoding_EncodeToString (am_Token am)) None None [].

(** The bits of the row that are set and whose type name is that of the
    attempted index [a]. *)
Definition attemptedBit (am : authzModel) (a pos : Z) : bool :=
  String.eqb (challTypeAt a) (challTypeAt pos) && bitSet (am_Challenges am) pos.

(** [challenge] with the attempt time of the row as its validation time. *)
Definition withValidated (am : authzModel) (challenge : Challenge VRPB PDPB)
  : Challenge VRPB PDPB :=
  mkChallenge (ch_Type challenge) (ch_Status challenge) (ch_Token challenge)
    (option_map timestamppb_New (am_AttemptedAt am)) (ch_Error challenge)
    (ch_Validationrecords challenge).

(** The status of an attempted challenge: invalid when a validation error is
    stored, valid otherwise. *)
Definition attemptedStatus (am : authzModel) : string :=
  if Nat.eqb (len (am_ValidationError am)) 0 then core.StatusValid
  else core.StatusInvalid.

(** A row as the functions of [model.go] store it: the identifier type is
    one of the two codes of [identifierTypeToUint], and an attempted
    challenge is one of the four codes of [challTypeToUint]. *)
Definition storedRow (am : authzModel) : Prop :=
  (am_IdentifierType am = 0 \/ am_IdentifierType am = 1) /\
  (forall a, am_Attempted am = Some a -> 0 <= a <= 3).

(** What the surface form shows of an attempted challenge: the type name of
    the attempted index, a status that is invalid exactly when a validation
    error is stored and valid otherwise, the attempt time, and the token. *)
Definition surfacedAttempted (am : authzModel) (a : Z) (c : Challenge VRPB PDPB)
  : Prop :=
  ch_Type c = challTypeAt a /\
  (ch_Status c = core.StatusInvalid <-> am_ValidationError am <> EmptyString) /\
  (ch_Status c = core.StatusValid <-> am_ValidationError am = EmptyString) /\
  ch_Validated c = option_map timestamppb_New (am_AttemptedAt am) /\
  ch_Token c = RawURLEncoding_EncodeToString (am_Token am).

End StorageVocabulary.

(** ** Orders of rows *)

Section OrderVocabulary.
Import ratelimits.

Local Open Scope Z_scope.

(** A comparison function of a total preorder. *)
Record OrderCmp {A : Type} (cmp : A -> A -> comparison) : Prop := {
  cmp_refl : forall x, cmp x x = Eq;
  cmp_antisym : forall x y, cmp x y = CompOpp (cmp y x);
  cmp_lt_trans : forall x y z, cmp x y = Lt -> cmp y z = Lt -> cmp x z = Lt;
  cmp_eq_l : forall x y z, cmp x y = Eq -> cmp x z = cmp y z;
}.

(** One comparison, then another where the first finds no difference. *)
Definition lex {A} (c1 c2 : A -> A -> comparison) (x y : A) : comparison :=
  match c1 x y with
  | Eq => c2 x y
  | r => r
  end.

(** A strict weak order, as [sort.Slice] needs of its [less]. *)
Definition StrictWeakOrder {A} (less : A -> A -> bool) : Prop :=
  (forall x, less x x = false) /\
  (forall x y z, less x y = true -> less y z = true -> less x z = true) /\
  (forall x y z,
     less x y = false -> less y x = false ->
     less y z = false -> less z y = false ->
     less x z = false /\ less z x = false).

(** The order of the rows as a comparison: name ascending, count
    descending, burst descending, then the texts of period, comment and id
    ascending, each text byte-wise. *)
Definition rowCompare : row -> row -> comparison :=
  lex (fun a b => String.compare (name a) (name b))
    (lex (fun a b => Z.compare (count b) (count a))
       (lex (fun a b => Z.compare (burst b) (burst a))
          (lex (fun a b => String.compare (period a) (period b))
             (lex (fun a b => String.compare (comment a) (comment b))
                (fun a b => String.compare (id a) (id b)))))).

(** What [sort.Slice] promises: the result is a permutation of the slice,
    and when [less] is a strict weak order no element of the result is less
    than an earlier one. *)
Class SortLaws {sorter : Sort} : Prop := {
  sort_Slice_perm :
    forall (A : Type) (less : A -> A -> bool) (l : list A),
      Permutation (sort_Slice less l) l;
  sort_Slice_sorted :
    forall (A : Type) (less : A -> A -> bool) (l : list A),
      StrictWeakOrder less ->
      StronglySorted (fun x y => less y x = false) (sort_Slice less l);
}.

(** Two overrides of the limit with number 1 that differ in their id and
    in their period: a week and a day. *)
Definition weekOverride : Limit :=
  mkLimit 10 10 604800000000000 1 EmptyString 60480000000000 604800000000000 true.

Definition dayOverride : Limit :=
  mkLimit 10 10 86400000000000 1 EmptyString 8640000000000 86400000000000 true.

Definition twoOverrides : gmap string Limit :=
  <["1:10.0.0.1" := weekOverride]> (<["1:10.0.0.2" := dayOverride]> ∅).


End OrderVocabulary.

Section IdentVocabulary.
Import GoStrings identifier policy.
Context {netip : NetIP} {iana : IANA} {unicode : Unicode} {fmt : Fmt}.

(** The error of the [switch] on the identifier type in
    [WellFormedIdentifiers], [None] for a well-formed identifier. *)
Definition identError (ident : ACMEIdentifier) : option error :=
  if String.eqb (Type_ ident) TypeDNS then ValidDomain (Value ident)
  else if String.eqb (Type_ ident) TypeIP then ValidIP (Value ident)
  else Some errUnsupportedIdent.

(** The error of one round of the loop of [WillingToIssue]. *)
Definition blockError (pa : AuthorityImpl) (ident : ACMEIdentifier) : option error :=
  if negb (IdentifierTypeEnabled pa (Type_ ident)) then
    Some (RejectedIdentifierError "The ACME server has disabled this identifier type")
  else
    match (if String.eqb (Type_ ident) TypeDNS && (0 <? Count (Value ident) "*")%nat
           then checkWildcardBlocklist pa (TrimPrefix (Value ident) "*.")
           else None) with
    | Some err => Some err
    | None => checkBlocklists pa ident
    end.

(** The identifiers of [idents] that are not well formed. *)
Definition malformed (idents : list ACMEIdentifier) : list ACMEIdentifier :=
  List.filter (fun ident => bool_decide (is_Some (identError ident))) idents.

(** The sub-errors of the two loops, identifier by identifier. *)
Definition subErrorOf (check : ACMEIdentifier -> option error) (ident : ACMEIdentifier)
  : option berrors.SubBoulderError :=
  option_map (subError ident) (check ident).

(** What [WillingToIssue] returns for one identifier that is refused with
    the message [detail]. *)
Definition cannotIssue (ident : ACMEIdentifier) (detail : string) : error :=
  BoulderErr
    (berrors.mkBoulderError berrors.RejectedIdentifier
       (Sprintf "Cannot issue for %q: %s" [ArgString (Value ident); ArgString detail])
       []).

End IdentVocabulary.

Section BlockVocabulary.
Import GoStrings identifier policy.
Context {netip : NetIP}.

(** The prefixes of [AdminBlockedPrefixes] that parse and contain the
    address [a] without its zone. *)
Definition prefixBlocked (pol : blockedIdentsPolicy) (a : Addr) : Prop :=
  exists p prefix,
    In p (AdminBlockedPrefixes pol) /\ ParsePrefix p = Some prefix /\
    Prefix_Contains prefix (Addr_WithZone a EmptyString) = true.

(** A name of [HighRiskBlockedNames] or [AdminBlockedNames] that [x] is or
    ends in label-wise. *)
Definition nameBlocked (pol : blockedIdentsPolicy) (x : string) : Prop :=
  exists v,
    (In v (HighRiskBlockedNames pol) \/ In v (AdminBlockedNames pol)) /\
    labelSuffix "." v x.

(** [x] is the wildcard over the parent of a name of [ExactBlockedNames]. *)
Definition wildcardBlocked (pol : blockedIdentsPolicy) (x : string) : Prop :=
  exists v, In v (ExactBlockedNames pol) /\ x = ("*." ++ parent v)%string.

End BlockVocabulary.

Section NameVocabulary.
Import GoStrings identifier policy.
Context {unicode : Unicode}.

(** A label [validNonWildcardDomain] accepts: 1 to 63 bytes, each a
    lower-case letter, a digit or a hyphen, no hyphen first or last, and
    hyphens in the third and fourth place only after [xn], in a label that
    [idna.ToUnicode] decodes to a string in normal form. *)
Definition wellFormedLabel (label : string) : Prop :=
  (1 <= len label <= maxLabelLength)%nat /\
  allBytes dnsLabelCharacter label = true /\
  HasPrefix label "-" = false /\ HasSuffix label "-" = false /\
  (substring 2 2 label = "--" ->
   HasPrefix label "xn--" = true /\
   exists ulabel, ToUnicode label = Some ulabel /\ IsNormalString ulabel = true).

End NameVocabulary.

Section ContactVocabulary.
Import GoStrings identifier policy.

(** The three domains of [forbiddenMailDomains]. *)
Definition exampleDomains : list string :=
  ["example.com"; "example.net"; "example.org"].

(** The challenge types [ChallengeTypesFor] lists for [ident]. *)
Definition applicable (ident : ACMEIdentifier) (chall : string) : Prop :=
  (Type_ ident = "dns" /\ HasPrefix (Value ident) "*." = true /\ chall = "dns-01") \/
  (Type_ ident = "dns" /\ HasPrefix (Value ident) "*." = false /\
   In chall ["http-01"; "dns-01"; "tls-alpn-01"]) \/
  (Type_ ident = "ip" /\ In chall ["http-01"; "tls-alpn-01"]).

End ContactVocabulary.

Section ConversionVocabulary.
Import GoStrings sa.
Context {codec : Codec}.

(** A challenge that is valid or invalid. *)
Definition nonPending (c : Challenge VRPB PDPB) : bool :=
  String.eqb (ch_Status c) core.StatusValid
  || String.eqb (ch_Status c) core.StatusInvalid.

(** The five statuses the storage layer encodes. *)
Definition storedStatuses : list core.AcmeStatus :=
  [core.StatusPending; core.StatusValid; core.StatusInvalid;
   core.StatusDeactivated; core.StatusRevoked].

(** The type a requested challenge type is stored as: itself when it is one
    of the four known types, [http-01] otherwise. *)
Definition storedChallengeType (t : string) : string :=
  if existsb (String.eqb t)
       [core.ChallengeTypeHTTP01; core.ChallengeTypeDNS01;
        core.ChallengeTypeTLSALPN01; core.ChallengeTypeDNSAccount01]
  then t else core.ChallengeTypeHTTP01.

(** The type an identifier type is stored as: [ip] for [ip], [dns] for any
    other text. *)
Definition storedIdentifierType (t : string) : string :=
  if String.eqb t identifier.TypeIP then identifier.TypeIP else identifier.TypeDNS.

(** A pending challenge of the type [t] with the token [token]. *)
Definition pendingWith (token : string) (t : string) : Challenge VRPB PDPB :=
  mkChallenge t core.StatusPending (RawURLEncoding_EncodeToString token) None None [].

End ConversionVocabulary.

Section LimitVocabulary.
Import GoStrings ratelimits.

Local Open Scope Z_scope.

(** A limit as the registry holds it: burst, count and period are
    positive, and the two precomputed fields are what [precompute] makes of
    them. *)
Definition checkedLimit (l : Limit) : Prop :=
  0 < Burst l /\ 0 < Count l /\ 0 < Period l /\
  emissionInterval l = int64 (Z.quot (Period l) (Count l)) /\
  burstOffset l = int64 (emissionInterval l * Burst l).

(** A configuration [ValidateLimit] accepts. *)
Definition positiveConfig (v : LimitConfig) : Prop :=
  0 < lc_Burst v /\ 0 < lc_Count v /\ 0 < lc_Period v.

End LimitVocabulary.

Section RegistryVocabulary.
Import GoStrings ratelimits.
Context {fmt : Fmt} {netip : NetIP} {table : NameTable}.

Local Open Scope Z_scope.

(** The limit [parseDefaultLimits] stores for the configuration [v] of the
    limit [name]. *)
Definition defaultLimit (name : Z) (v : LimitConfig) : Limit :=
  {| Burst := lc_Burst v;
     Count := lc_Count v;
     Period := lc_Period v;
     Name := name;
     Comment := EmptyString;
     emissionInterval := int64 (Z.quot (lc_Period v) (lc_Count v));
     burstOffset := int64 (int64 (Z.quot (lc_Period v) (lc_Count v)) * lc_Burst v);
     isOverride := false |}.

(** The limit [parseOverrideLimits] stores for an id of the override [v] of
    the limit [name]. *)
Definition overrideLimit (name : Z) (v : overrideYAML) (entry : overrideIdYAML) : Limit :=
  {| Burst := lc_Burst (oy_LimitConfig v);
     Count := lc_Count (oy_LimitConfig v);
     Period := lc_Period (oy_LimitConfig v);
     Name := name;
     Comment := oi_Comment entry;
     emissionInterval :=
       int64 (Z.quot (lc_Period (oy_LimitConfig v)) (lc_Count (oy_LimitConfig v)));
     burstOffset :=
       int64 (int64 (Z.quot (lc_Period (oy_LimitConfig v)) (lc_Count (oy_LimitConfig v)))
              * lc_Burst (oy_LimitConfig v));
     isOverride := true |}.

(** An entry of a map of default limits that [parseDefaultLimits] takes:
    the key is a name of the table, and the value is a configuration, not
    nil, whose burst, count and period are positive. *)
Definition goodDefault (k : string) (v : option LimitConfig) : Prop :=
  is_Some (StringToName k) /\ exists c, v = Some c /\ positiveConfig c.

(** An entry with a name of the table whose value is nil or a
    configuration with positive burst, count and period. *)
Definition nilOrGoodDefault (k : string) (v : option LimitConfig) : Prop :=
  is_Some (StringToName k) /\
  (v = None \/ exists c, v = Some c /\ positiveConfig c).

(** [l] is stored under [key] for the entry [k], [v] of a map of default
    limits. *)
Definition defaultOf (k : string) (v : LimitConfig) (key : string) (l : Limit) : Prop :=
  exists name,
    StringToName k = Some name /\ positiveConfig v /\
    key = EnumString name /\ l = defaultLimit name v.

(** [l] is stored under [key] for an id of the entry [k], [v] of a map of
    overrides. *)
Definition overrideOf (k : string) (v : overrideYAML) (key : string) (l : Limit) : Prop :=
  exists name entry id,
    StringToName k = Some name /\ In entry (oy_Ids v) /\
    validateIdForName name (oi_Id entry) = None /\
    overrideBucketId name (oi_Id entry) = Ok id /\
    positiveConfig (oy_LimitConfig v) /\
    key = joinWithColon (EnumString name) id /\ l = overrideLimit name v entry.

End RegistryVocabulary.

Section QueryVocabulary.
Import GoStrings identifier sa.
Context {fmt : Fmt} {store : AuthzStore}.

(** How many identifiers there are of each type. *)
Definition countByType (types : list IdentifierType) : gmap IdentifierType nat :=
  foldl (fun m t => <[t := S (default 0%nat (m !! t))]> m) ∅ types.

(** The condition for one type with [n] values. *)
Definition typeCondition (n : nat) : string :=
  Sprintf "identifierType = ? AND identifierValue IN (%s)" [ArgString (QuestionMarks n)].

(** The arguments for one type and its values. *)
Definition typeArgs (group : IdentifierType * list string) : list queryArg :=
  QUint8 (indexUint identifierTypeToUint (fst group)) :: map QText (snd group).

(** An argument that is the code of an identifier type or the value of one
    of the identifiers. *)
Definition identArg (idents : list ACMEIdentifier) (a : queryArg) : Prop :=
  match a with
  | QUint8 code => code = 0%Z \/ code = 1%Z
  | QText value => exists id, In id idents /\ Value id = value
  | _ => False
  end.

End QueryVocabulary.

(** * Properties *)

(** ** Byte strings *)

Section StringFacts.
Import GoStrings.

Lemma Split_nonempty (s : string) (sep : ascii) : Split s sep <> [].
Proof.
  destruct s as [| c cs]; simpl; [discriminate |].
  destruct (Ascii.eqb c sep); [discriminate |].
  destruct (Split cs sep); discriminate.
Qed.

Lemma Count_app (a b : string) (c : ascii) :
  Count (a ++ b) c = (Count a c + Count b c)%nat.
Proof. induction a as [| x a IH]; simpl; [reflexivity | rewrite IH; lia]. Qed.

Lemma Contains_app (a b : string) (c : ascii) :
  Contains (a ++ b) c = Contains a c || Contains b c.
Proof.
  unfold Contains. rewrite Count_app.
  destruct (Count a c), (Count b c); reflexivity.
Qed.

Lemma SplitN_1 (s : string) (sep : ascii) : SplitN s sep 1 = [s].
Proof. destruct s; reflexivity. Qed.

Lemma SplitN2_cons (c : ascii) (cs : string) (sep : ascii) :
  SplitN (String c cs) sep 2 =
  if Ascii.eqb c sep then [EmptyString; cs]
  else match SplitN cs sep 2 with
       | [] => [String c EmptyString]
       | l :: ls => String c l :: ls
       end.
Proof. simpl. rewrite SplitN_1. reflexivity. Qed.

(** [SplitN v sep 2] has two parts exactly when [v] contains [sep]. *)
Lemma SplitN2_length (v : string) (sep : ascii) :
  length (SplitN v sep 2) = if Contains v sep then 2%nat else 1%nat.
Proof.
  induction v as [| c cs IH]; [reflexivity |].
  rewrite SplitN2_cons. unfold Contains in *. simpl.
  destruct (Ascii.eqb c sep); simpl; [reflexivity |].
  destruct (SplitN cs sep 2) as [| l ls]; simpl in *.
  - destruct (Nat.eqb (Count cs sep) 0); discriminate.
  - exact IH.
Qed.

(** Splitting [a ++ sep ++ p] at the first separator, when [a] has none. *)
Lemma SplitN2_cut (a p : string) (sep : ascii) :
  Contains a sep = false ->
  SplitN (a ++ String sep p) sep 2 = [a; p].
Proof.
  unfold Contains. induction a as [| c a IH]; intros Hc.
  - simpl. rewrite Ascii.eqb_refl, SplitN_1. reflexivity.
  - change (String c a +:+ String sep p) with (String c (a +:+ String sep p)).
    rewrite SplitN2_cons. simpl in Hc.
    destruct (Ascii.eqb c sep) eqn:E; [discriminate |].
    simpl in Hc. rewrite (IH Hc). reflexivity.
Qed.

End StringFacts.

(** ** Labels of a name *)

Section LabelFacts.
Import GoStrings.

Lemma append_nil_l (b : string) : (EmptyString ++ b)%string = b.
Proof. reflexivity. Qed.

Lemma append_cons (c : ascii) (a b : string) :
  (String c a ++ b)%string = String c (a ++ b).
Proof. reflexivity. Qed.

Lemma append_assoc (a b c : string) : ((a ++ b) ++ c = a ++ (b ++ c))%string.
Proof.
  induction a as [| x a IH]; [reflexivity |].
  rewrite !append_cons, IH. reflexivity.
Qed.

Lemma append_length (a b : string) :
  String.length (a ++ b) = (String.length a + String.length b)%nat.
Proof. induction a as [| x a IH]; simpl; [reflexivity | rewrite IH; reflexivity]. Qed.

Lemma Split_cons (c : ascii) (cs : string) (sep : ascii) :
  Split (String c cs) sep =
  if Ascii.eqb c sep then EmptyString :: Split cs sep
  else match Split cs sep with
       | [] => [String c EmptyString]
       | l :: ls => String c l :: ls
       end.
Proof. reflexivity. Qed.

Lemma Join_cons_char (c : ascii) (l : string) (ls : list string) (sep : string) :
  Join (String c l :: ls) sep = String c (Join (l :: ls) sep).
Proof. destruct ls; reflexivity. Qed.

(** Joining the labels of a name gives the name back. *)
Lemma Join_Split (s : string) (sep : ascii) :
  Join (Split s sep) (sepString sep) = s.
Proof.
  induction s as [| c cs IH]; [reflexivity |].
  rewrite Split_cons. destruct (Ascii.eqb_spec c sep) as [-> | Hne].
  - pose proof (Split_nonempty cs sep) as Hn.
    destruct (Split cs sep) as [| l ls]; [contradiction |].
    change (Join (EmptyString :: l :: ls) (sepString sep))
      with (String sep (Join (l :: ls) (sepString sep))).
    rewrite IH. reflexivity.
  - pose proof (Split_nonempty cs sep) as Hn.
    destruct (Split cs sep) as [| l ls]; [contradiction |].
    rewrite Join_cons_char, IH. reflexivity.
Qed.

(** The labels of [y.v] are the labels of [y] followed by those of [v]. *)
Lemma Split_app_sep (y v : string) (sep : ascii) :
  Split (y ++ String sep v) sep = Split y sep ++ Split v sep.
Proof.
  induction y as [| c y IH].
  - rewrite append_nil_l, Split_cons, Ascii.eqb_refl. reflexivity.
  - rewrite append_cons, !Split_cons, IH.
    destruct (Ascii.eqb c sep); [reflexivity |].
    pose proof (Split_nonempty y sep) as Hn.
    destruct (Split y sep) as [| l ls]; [contradiction | reflexivity].
Qed.

Lemma Join_app (l1 l2 : list string) (sep : string) :
  l1 <> [] -> l2 <> [] ->
  Join (l1 ++ l2) sep = (Join l1 sep ++ sep ++ Join l2 sep)%string.
Proof.
  intros H1 H2. induction l1 as [| x l1 IH]; [contradiction |].
  destruct l1 as [| x' l1].
  - simpl. destruct l2; [contradiction | reflexivity].
  - change (Join ((x :: x' :: l1) ++ l2) sep)
      with (x +:+ sep +:+ Join ((x' :: l1) ++ l2) sep).
    rewrite IH by discriminate.
    change (Join (x :: x' :: l1) sep) with (x +:+ sep +:+ Join (x' :: l1) sep).
    rewrite !append_assoc. reflexivity.
Qed.

(** The joined label suffixes [strings.Join(labels[i:], ".")] of a name are
    the names that end it label-wise. *)
Lemma label_suffix_joined (sep : ascii) (v x : string) :
  labelSuffix sep v x <->
  exists i, (i < length (Split x sep))%nat /\
            Join (drop i (Split x sep)) (sepString sep) = v.
Proof.
  split.
  - intros [-> | [y ->]].
    + exists 0%nat. split.
      * pose proof (Split_nonempty v sep). destruct (Split v sep); simpl; [contradiction | lia].
      * rewrite drop_0. apply Join_Split.
    + exists (length (Split y sep)). rewrite Split_app_sep. split.
      * rewrite length_app. pose proof (Split_nonempty v sep).
        destruct (Split v sep); simpl; [contradiction | lia].
      * rewrite drop_app_length. apply Join_Split.
  - intros (i & Hi & Hj). destruct i as [| i].
    + left. rewrite drop_0, Join_Split in Hj. congruence.
    + right. exists (Join (take (S i) (Split x sep)) (sepString sep)).
      rewrite <- (Join_Split x sep) at 1.
      rewrite <- (take_drop (S i) (Split x sep)) at 1.
      rewrite Join_app.
      * rewrite Hj. reflexivity.
      * destruct (Split x sep); simpl in *; [lia | discriminate].
      * intros Hd. apply (f_equal length) in Hd. rewrite length_drop in Hd.
        simpl in Hd. lia.
Qed.

Lemma existsb_seq (f : nat -> bool) (n : nat) :
  existsb f (seq 0 n) = true <-> exists i, (i < n)%nat /\ f i = true.
Proof.
  rewrite existsb_exists. split.
  - intros (i & Hin & Hf). apply in_seq in Hin. exists i. split; [lia | exact Hf].
  - intros (i & Hi & Hf). exists i. split; [apply in_seq; lia | exact Hf].
Qed.

Lemma HasPrefix_app (p r : string) : HasPrefix (p ++ r) p = true.
Proof.
  induction p as [| c p IH]; [rewrite append_nil_l; destruct r; reflexivity |].
  rewrite append_cons. simpl. rewrite Ascii.eqb_refl. exact IH.
Qed.

Lemma HasPrefix_split (s p : string) :
  HasPrefix s p = true -> s = (p ++ sliceFrom (len p) s)%string.
Proof.
  revert s. induction p as [| c p IH]; intros s Hp; [reflexivity |].
  destruct s as [| x s]; [discriminate |]. simpl in Hp.
  destruct (Ascii.eqb_spec x c) as [-> | _]; [| discriminate].
  rewrite append_cons. simpl. f_equal. apply IH. exact Hp.
Qed.

Lemma sliceFrom_app (p r : string) : sliceFrom (len p) (p ++ r) = r.
Proof. induction p as [| c p IH]; simpl; [destruct r; reflexivity | exact IH]. Qed.

Lemma TrimPrefix_app (p r : string) : TrimPrefix (p ++ r) p = r.
Proof. unfold TrimPrefix. rewrite HasPrefix_app. apply sliceFrom_app. Qed.

Lemma allBytes_app (p : ascii -> bool) (a b : string) :
  allBytes p (a ++ b) = allBytes p a && allBytes p b.
Proof.
  induction a as [| c a IH]; simpl; [reflexivity |].
  rewrite IH, andb_assoc. reflexivity.
Qed.

Lemma allBytes_impl (p q : ascii -> bool) (s : string) :
  (forall c, p c = true -> q c = true) -> allBytes p s = true -> allBytes q s = true.
Proof.
  intros Hpq. induction s as [| c s IH]; simpl; [reflexivity |].
  intros H. apply andb_true_iff in H as [Hc Hs].
  rewrite (Hpq c Hc), (IH Hs). reflexivity.
Qed.

(** A name whose labels are all made of bytes with [p] is made of bytes
    with [p] and separators. *)
Lemma allBytes_Split (p : ascii -> bool) (s : string) (sep : ascii) :
  Forall (fun l => allBytes p l = true) (Split s sep) ->
  allBytes (fun c => p c || Ascii.eqb c sep) s = true.
Proof.
  induction s as [| c s IH]; [reflexivity |].
  rewrite Split_cons. simpl.
  destruct (Ascii.eqb c sep) eqn:E.
  - intros Hf. inversion Hf; subst. rewrite orb_true_r. simpl. auto.
  - pose proof (Split_nonempty s sep) as Hn.
    destruct (Split s sep) as [| l ls]; [contradiction |].
    intros Hf. inversion Hf as [| ? ? Hl Hls]; subst. simpl in Hl.
    apply andb_true_iff in Hl as [Hc Hl]. rewrite Hc. simpl.
    apply IH. constructor; assumption.
Qed.

End LabelFacts.

(** ** Validation of domain names and lowercasing *)

Section DomainFacts.
Import GoStrings identifier policy.
Context {netip : NetIP} {iana : IANA} {unicode : Unicode}.

Lemma validDomainByte_lower (c : ascii) :
  validDomainByte c = true ->
  (N_of_ascii c <? 128)%N = true /\ byteIn "A" "Z" c = false.
Proof.
  destruct c as [[] [] [] [] [] [] [] []]; vm_compute; intros; split; congruence.
Qed.

Lemma ToLower_fixed (s : string) :
  allBytes validDomainByte s = true -> ToLower s = s.
Proof.
  intros Hs. unfold ToLower.
  assert (Ha : allBytes (fun c => (N_of_ascii c <? 128)%N) s = true).
  { revert Hs. apply allBytes_impl. intros c Hc.
    apply (validDomainByte_lower c Hc). }
  rewrite Ha. clear Ha.
  induction s as [| c s IH]; [reflexivity |].
  simpl in Hs. apply andb_true_iff in Hs as [Hc Hs].
  simpl. rewrite (IH Hs). unfold lowerByte.
  destruct (validDomainByte_lower c Hc) as [_ ->]. reflexivity.
Qed.

Lemma checkLabel_bytes (label : string) :
  checkLabel label = None -> allBytes dnsLabelCharacter label = true.
Proof.
  unfold checkLabel.
  destruct (len label <? 1)%nat; [discriminate |].
  destruct (maxLabelLength <? len label)%nat; [discriminate |].
  unfold dnsLabelCharacterRegexp_MatchString.
  destruct (allBytes dnsLabelCharacter label); [reflexivity |].
  rewrite andb_false_r. discriminate.
Qed.

Lemma checkLabels_bytes (labels : list string) :
  checkLabels labels = None ->
  Forall (fun l => allBytes dnsLabelCharacter l = true) labels.
Proof.
  induction labels as [| l labels IH]; [constructor |].
  simpl. destruct (checkLabel l) eqn:E; [discriminate |].
  intros Hr. constructor; [apply checkLabel_bytes; exact E | apply IH; exact Hr].
Qed.

(** A name [validNonWildcardDomain] accepts has only lower-case letters,
    digits, hyphens and dots. *)
Lemma validNonWildcardDomain_bytes (domain : string) :
  validNonWildcardDomain domain = None ->
  allBytes (fun c => dnsLabelCharacter c || Ascii.eqb c ".") domain = true.
Proof.
  unfold validNonWildcardDomain.
  destruct (String.eqb domain EmptyString); [discriminate |].
  destruct (HasPrefix domain "*."); [discriminate |].
  destruct (negb (allBytes isDNSCharacter domain)); [discriminate |].
  destruct (maxDNSIdentifierLength <? len domain)%nat; [discriminate |].
  destruct (ParseAddr domain); [discriminate |].
  destruct (HasSuffix domain "."); [discriminate |].
  cbv zeta.
  destruct (maxLabels <? length (Split domain "."))%nat; [discriminate |].
  destruct (length (Split domain ".") <? 2)%nat; [discriminate |].
  destruct (checkLabels (Split domain ".")) eqn:E; [discriminate |].
  intros _. apply allBytes_Split, checkLabels_bytes, E.
Qed.

(** What [ValidDomain] accepts is a name that [validNonWildcardDomain]
    accepts, with [*.] before it or not. *)
Lemma ValidDomain_None (domain : string) :
  ValidDomain domain = None ->
  (Count domain "*" = 0%nat /\ validNonWildcardDomain domain = None) \/
  (exists base, domain = ("*." ++ base)%string /\
                validNonWildcardDomain base = None).
Proof.
  unfold ValidDomain.
  destruct (Count domain "*") as [| n] eqn:Ec; simpl.
  - intros Hv. left. split; [reflexivity | exact Hv].
  - destruct (1 <? S n)%nat; [discriminate |].
    destruct (HasPrefix domain "*.") eqn:Hp; [| discriminate]. simpl.
    destruct (ExtractSuffix _); [| discriminate].
    destruct (String.eqb _ _); [discriminate |].
    intros Hv. right. exists (TrimPrefix domain "*."). split; [| exact Hv].
    unfold TrimPrefix. rewrite Hp. apply (HasPrefix_split _ _ Hp).
Qed.

Lemma ValidDomain_bytes (domain : string) :
  ValidDomain domain = None -> allBytes validDomainByte domain = true.
Proof.
  intros Hv. apply ValidDomain_None in Hv as [[_ Hv] | (base & -> & Hv)].
  - apply validNonWildcardDomain_bytes in Hv. revert Hv. apply allBytes_impl.
    intros c Hc. unfold validDomainByte. rewrite Hc. reflexivity.
  - apply validNonWildcardDomain_bytes in Hv.
    rewrite allBytes_app. apply andb_true_iff. split; [reflexivity |].
    revert Hv. apply allBytes_impl.
    intros c Hc. unfold validDomainByte. rewrite Hc. reflexivity.
Qed.

(** C1 (amended): a domain that [ValidDomain] accepts is its own lowercased
    form, so [ValidDomain] returns the same result for the lowercased form;
    it has no upper-case ASCII letter. (A domain with an upper-case letter
    is refused, also when its lowercased form is accepted.) *)
Theorem ValidDomain_lower_of_valid (d : string) :
  ValidDomain d = None ->
  ToLower d = d /\
  ValidDomain (ToLower d) = ValidDomain d /\
  allBytes (fun c => negb (byteIn "A" "Z" c)) d = true.
Proof.
  intros Hv. pose proof (ValidDomain_bytes d Hv) as Hb.
  rewrite (ToLower_fixed d Hb). repeat split.
  revert Hb. apply allBytes_impl. intros c Hc.
  destruct (validDomainByte_lower c Hc) as [_ ->]. reflexivity.
Qed.

(** Whatever the packages do, a name with an upper-case letter in a label
    is refused: as an IP address if it parses as one, for the letter
    otherwise. *)
Lemma ValidDomain_upper_example :
  ValidDomain "A.com" = Some errIPAddressInDNS \/
  ValidDomain "A.com" = Some errInvalidDNSCharacter.
Proof.
  unfold ValidDomain, validNonWildcardDomain. simpl.
  destruct (ParseAddr "A.com"); [left | right]; reflexivity.
Qed.

End DomainFacts.

(** C1, counterexample: [A.com] is refused, its lowercased form [a.com] is
    accepted. *)
Lemma ValidDomain_lower_counterexample :
  policy.ValidDomain (iana := Ref.RefIANA) (unicode := Ref.RefUnicode) "A.com"
    = Some policy.errInvalidDNSCharacter /\
  ToLower (unicode := Ref.RefUnicode) "A.com" = "a.com" /\
  policy.ValidDomain (iana := Ref.RefIANA) (unicode := Ref.RefUnicode)
    (ToLower (unicode := Ref.RefUnicode) "A.com") = None.
Proof. repeat split; reflexivity. Qed.

(** C1, witness: [a.com]. *)
Lemma ValidDomain_lower_of_valid_witness :
  ToLower (unicode := Ref.RefUnicode) "a.com" = "a.com" /\
  policy.ValidDomain (iana := Ref.RefIANA) (unicode := Ref.RefUnicode)
    (ToLower (unicode := Ref.RefUnicode) "a.com")
  = policy.ValidDomain (iana := Ref.RefIANA) (unicode := Ref.RefUnicode) "a.com" /\
  GoStrings.allBytes (fun c => negb (GoStrings.byteIn "A" "Z" c)) "a.com" = true.
Proof.
  apply (ValidDomain_lower_of_valid (iana := Ref.RefIANA) (unicode := Ref.RefUnicode)
           "a.com").
  reflexivity.
Defined.

(** ** Challenge types and IP addresses *)

Section ChallengeFacts.
Import GoStrings identifier policy.
Context {netip : NetIP} {fmt : Fmt}.

(** C7: [ChallengeTypesFor] returns exactly [dns-01] for a DNS identifier
    whose value begins with [*.], exactly [http-01, dns-01, tls-alpn-01] for
    every other DNS identifier, exactly [http-01, tls-alpn-01] for an IP
    identifier, and no challenge type and an error for an identifier of any
    other type. *)
Theorem ChallengeTypesFor_spec (pa : AuthorityImpl) (ident : ACMEIdentifier) :
  (Type_ ident = "dns" -> HasPrefix (Value ident) "*." = true ->
   ChallengeTypesFor pa ident = (["dns-01"], None)) /\
  (Type_ ident = "dns" -> HasPrefix (Value ident) "*." = false ->
   ChallengeTypesFor pa ident = (["http-01"; "dns-01"; "tls-alpn-01"], None)) /\
  (Type_ ident = "ip" ->
   ChallengeTypesFor pa ident = (["http-01"; "tls-alpn-01"], None)) /\
  (Type_ ident <> "dns" -> Type_ ident <> "ip" ->
   exists e, ChallengeTypesFor pa ident = ([], Some e)).
Proof.
  unfold ChallengeTypesFor, TypeDNS, TypeIP.
  repeat split.
  - intros -> ->. reflexivity.
  - intros -> ->. reflexivity.
  - intros ->. reflexivity.
  - intros Hd Hi. apply String.eqb_neq in Hd, Hi. rewrite Hd, Hi. eauto.
Qed.

End ChallengeFacts.

Section IPFacts.
Import GoStrings identifier policy.
Context {netip : NetIP} {iana : IANA}.

(** C9: [ValidIP] returns an error for every input that contains a zone
    (a [%]) and for every input that is not the canonical text of the
    address it parses to; on the canonical text of an address it returns
    what [iana.IsReservedAddr] returns for that address, so it succeeds
    exactly when the address is in no special-purpose registry. *)
Theorem ValidIP_spec {laws : NetIPLaws} (ip : string) :
  (Contains ip "%" = true -> ValidIP ip = Some errIPInvalid) /\
  ((forall a, ~ canonical ip a) -> exists e, ValidIP ip = Some e) /\
  (forall a, canonical ip a ->
     ValidIP ip = IsReservedAddr a /\
     (ValidIP ip = None <-> IsReservedAddr a = None)).
Proof.
  unfold ValidIP, canonical. split; [| split].
  - intros Hz. destruct (String.eqb_spec ip EmptyString) as [-> | _]; [discriminate |].
    destruct (ParseAddr ip) as [a |]; [| reflexivity].
    destruct (String.eqb_spec (Addr_String (Addr_WithZone a EmptyString)) ip) as [E | _];
      [| reflexivity].
    pose proof (String_no_zone a) as Hn. rewrite E in Hn. congruence.
  - intros Hnc. destruct (String.eqb ip EmptyString); [eauto |].
    destruct (ParseAddr ip) as [a |] eqn:Hp; [| eauto].
    destruct (String.eqb_spec (Addr_String (Addr_WithZone a EmptyString)) ip) as [E | _];
      [| eauto].
    exfalso. apply (Hnc a). split; [reflexivity | exact E].
  - intros a [Hp Hs].
    assert (Heq : ValidIP ip = IsReservedAddr a).
    { unfold ValidIP.
      destruct (String.eqb_spec ip EmptyString) as [-> | _].
      - rewrite ParseAddr_empty in Hp. discriminate.
      - rewrite Hp, Hs, String.eqb_refl. reflexivity. }
    unfold ValidIP in Heq. rewrite Heq. split; [reflexivity | tauto].
Qed.

End IPFacts.

(** C7, witness: a wildcard name, a plain name, an address and an identifier
    of an unknown type. *)
Lemma ChallengeTypesFor_spec_witness :
  let pa := policy.mkAuthorityImpl (netip := Ref.RefNetIP) [] None None None [] None None in
  policy.ChallengeTypesFor (fmt := Ref.RefFmt) pa (identifier.NewDNS "*.example.com")
    = (["dns-01"], None) /\
  policy.ChallengeTypesFor (fmt := Ref.RefFmt) pa (identifier.NewDNS "example.com")
    = (["http-01"; "dns-01"; "tls-alpn-01"], None) /\
  policy.ChallengeTypesFor (fmt := Ref.RefFmt) pa (identifier.NewIP "192.0.2.1")
    = (["http-01"; "tls-alpn-01"], None) /\
  exists e,
    policy.ChallengeTypesFor (fmt := Ref.RefFmt) pa
      (identifier.mkACMEIdentifier "email" "a@example.com") = ([], Some e).
Proof.
  intros pa. split; [| split; [| split]].
  - apply (proj1 (ChallengeTypesFor_spec pa (identifier.NewDNS "*.example.com")));
      reflexivity.
  - apply (proj1 (proj2 (ChallengeTypesFor_spec pa (identifier.NewDNS "example.com"))));
      reflexivity.
  - apply (proj1 (proj2 (proj2
             (ChallengeTypesFor_spec pa (identifier.NewIP "192.0.2.1")))));
      reflexivity.
  - apply (proj2 (proj2 (proj2
             (ChallengeTypesFor_spec pa
                (identifier.mkACMEIdentifier "email" "a@example.com")))));
      discriminate.
Defined.

Lemma decimalN_byte_no_zone (b : ascii) :
  GoStrings.Contains (Ref.decimalN (N_of_ascii b)) "%" = false.
Proof.
  destruct b as [[] [] [] [] [] [] [] []]; vm_compute; reflexivity.
Qed.

(** The reference [net/netip] has the two properties. *)
Lemma RefNetIP_laws : NetIPLaws (netip := Ref.RefNetIP).
Proof.
  split; [reflexivity |].
  intros [[[a b] c] d]. simpl. unfold Ref.refAddrString.
  rewrite !Contains_app, !decimalN_byte_no_zone. reflexivity.
Qed.

(** C9, witness: a public address in canonical form is accepted; a reserved
    one, one with a zone and one with a leading zero are refused. *)
Lemma ValidIP_spec_witness :
  policy.ValidIP (iana := Ref.RefIANA) "8.8.8.8" = None /\
  policy.ValidIP (iana := Ref.RefIANA) "10.0.0.1" =
    Some (errorString "IP address is in a reserved address block") /\
  policy.ValidIP (iana := Ref.RefIANA) "8.8.8.8%eth0" = Some policy.errIPInvalid.
Proof.
  pose proof (@ValidIP_spec Ref.RefNetIP Ref.RefIANA RefNetIP_laws) as Hs.
  split; [| split].
  - rewrite (proj1 (proj2 (proj2 (Hs "8.8.8.8")) ("008", "008", "008", "008")%char
                      (conj eq_refl eq_refl))).
    reflexivity.
  - rewrite (proj1 (proj2 (proj2 (Hs "10.0.0.1")) ("010", "000", "000", "001")%char
                      (conj eq_refl eq_refl))).
    reflexivity.
  - apply (proj1 (Hs "8.8.8.8%eth0")). reflexivity.
Defined.

(** ** Loading the identifier policy *)

Section PolicyLoad.
Import GoStrings identifier policy.
Context {netip : NetIP} {fmt : Fmt} {files : PolicyFile}.

Lemma exactNamesLoop_single_label (names : list string) (v : string)
    (m w : gmap string bool) :
  In v names -> Contains v "." = false ->
  exists e, exactNamesLoop names m w = Err e.
Proof.
  revert m w. induction names as [| x names IH]; intros m w Hin Hv; [destruct Hin |].
  simpl. rewrite SplitN2_length.
  destruct (Contains x ".") eqn:Hx; simpl.
  - destruct Hin as [-> | Hin]; [congruence |]. apply IH; assumption.
  - eauto.
Qed.

Lemma prefixesLoop_unparseable (ps : list string) (p : string) (acc : list Prefix) :
  In p ps -> ParsePrefix p = None ->
  exists e, prefixesLoop ps acc = Err e.
Proof.
  revert acc. induction ps as [| x ps IH]; intros acc Hin Hp; [destruct Hin |].
  simpl. destruct (ParsePrefix x) eqn:Hx.
  - destruct Hin as [-> | Hin]; [congruence |]. apply IH; assumption.
  - eauto.
Qed.

Lemma processIdentPolicy_error (pa pa' : AuthorityImpl) (policy : blockedIdentsPolicy)
    (e : error) :
  processIdentPolicy pa policy = (pa', Some e) -> pa' = pa.
Proof.
  unfold processIdentPolicy.
  destruct (exactNamesLoop _ _ _) as [[m w] | e1]; [| congruence].
  destruct (prefixesLoop _ _); congruence.
Qed.

Lemma processIdentPolicy_ok (pa pa' : AuthorityImpl) (policy : blockedIdentsPolicy) :
  processIdentPolicy pa policy = (pa', None) ->
  exists exact wild prefixes,
    exactNamesLoop (ExactBlockedNames policy) ∅ ∅ = Ok (exact, wild) /\
    prefixesLoop (AdminBlockedPrefixes policy) [] = Ok prefixes /\
    domainBlocklist pa' =
      Some (foldl setTrue (foldl setTrue ∅ (HighRiskBlockedNames policy))
                  (AdminBlockedNames policy)) /\
    fqdnBlocklist pa' = Some exact /\
    wildcardFqdnBlocklist pa' = Some wild /\
    ipPrefixBlocklist pa' = prefixes /\
    log pa' = log pa /\
    enabledChallenges pa' = enabledChallenges pa /\
    enabledIdentifiers pa' = enabledIdentifiers pa.
Proof.
  unfold processIdentPolicy.
  destruct (exactNamesLoop _ _ _) as [[m w] | e1]; [| congruence].
  destruct (prefixesLoop _ _) as [ps | e2]; [| congruence].
  intros [= <-]. exists m, w, ps. simpl. repeat split; reflexivity.
Qed.

(** C10: when [LoadIdentPolicyFile] or [processIdentPolicy] returns an error,
    the four blocklist tables of the authority are what they were before the
    call; when [LoadIdentPolicyFile] succeeds, [domainBlocklist],
    [fqdnBlocklist], [wildcardFqdnBlocklist] and [ipPrefixBlocklist] are all
    the tables computed from the file's policy; and each of the listed
    causes (unreadable file, malformed file, empty [HighRiskBlockedNames],
    empty [ExactBlockedNames], an [ExactBlockedNames] entry of one label, an
    [AdminBlockedPrefixes] entry that does not parse) makes the load return
    an error. *)
Theorem LoadIdentPolicyFile_atomic (pa : AuthorityImpl) (f : string) :
  (forall pa' e, LoadIdentPolicyFile pa f = (pa', Some e) -> tables pa' = tables pa) /\
  (forall pa' e policy, processIdentPolicy pa policy = (pa', Some e) ->
     tables pa' = tables pa) /\
  (forall pa', LoadIdentPolicyFile pa f = (pa', None) ->
     exists configBytes policy exact wild prefixes,
       ReadFile f = Ok configBytes /\ Unmarshal configBytes = Ok policy /\
       exactNamesLoop (ExactBlockedNames policy) ∅ ∅ = Ok (exact, wild) /\
       prefixesLoop (AdminBlockedPrefixes policy) [] = Ok prefixes /\
       tables pa' =
         (Some (foldl setTrue (foldl setTrue ∅ (HighRiskBlockedNames policy))
                      (AdminBlockedNames policy)),
          Some exact, Some wild, prefixes)) /\
  (forall policy,
     (exists e, ReadFile f = Err e) \/
     (exists configBytes,
        ReadFile f = Ok configBytes /\
        ((exists e, Unmarshal configBytes = Err e) \/
         (Unmarshal configBytes = Ok policy /\
          (HighRiskBlockedNames policy = [] \/
           ExactBlockedNames policy = [] \/
           (exists v, In v (ExactBlockedNames policy) /\ Contains v "." = false) \/
           (exists p, In p (AdminBlockedPrefixes policy) /\ ParsePrefix p = None))))) ->
     exists pa' e, LoadIdentPolicyFile pa f = (pa', Some e)).
Proof.
  split; [| split; [| split]].
  - intros pa' e. unfold LoadIdentPolicyFile.
    destruct (ReadFile f) as [bytes | e1]; [| intros [= <- _]; reflexivity].
    destruct (Unmarshal bytes) as [policy | e2]; [| intros [= <- _]; reflexivity].
    destruct (Nat.eqb _ 0); [intros [= <- _]; reflexivity |].
    destruct (Nat.eqb _ 0); [intros [= <- _]; reflexivity |].
    intros Hp. apply processIdentPolicy_error in Hp. subst pa'. reflexivity.
  - intros pa' e policy Hp. apply processIdentPolicy_error in Hp. congruence.
  - intros pa'. unfold LoadIdentPolicyFile.
    destruct (ReadFile f) as [bytes | e1] eqn:Hr; [| discriminate].
    destruct (Unmarshal bytes) as [policy | e2] eqn:Hu; [| discriminate].
    destruct (Nat.eqb _ 0); [discriminate |].
    destruct (Nat.eqb _ 0); [discriminate |].
    intros Hp. apply processIdentPolicy_ok in Hp.
    destruct Hp as (exact & wild & ps & He & Hps & Hd & Hf & Hw & Hi & _).
    exists bytes, policy, exact, wild, ps. unfold tables.
    rewrite Hd, Hf, Hw, Hi. repeat split; first [reflexivity | assumption].
  - intros policy Hcause. unfold LoadIdentPolicyFile.
    destruct Hcause as [[e He] | (bytes & Hb & Hcause)]; [rewrite He; eauto |].
    rewrite Hb.
    destruct Hcause as [[e He] | (Hu & Hcause)]; [rewrite He; eauto |].
    rewrite Hu.
    destruct (Nat.eqb (length (HighRiskBlockedNames policy)) 0) eqn:Eh; [eauto |].
    destruct (Nat.eqb (length (ExactBlockedNames policy)) 0) eqn:Ee; [eauto |].
    destruct Hcause as [Hh | [Hx | [(v & Hin & Hv) | (p & Hin & Hp)]]].
    + rewrite Hh in Eh. discriminate.
    + rewrite Hx in Ee. discriminate.
    + unfold processIdentPolicy.
      destruct (exactNamesLoop_single_label _ v ∅ ∅ Hin Hv) as [e ->]. eauto.
    + unfold processIdentPolicy.
      destruct (exactNamesLoop _ _ _) as [[m w] | e1]; [| eauto].
      destruct (prefixesLoop_unparseable _ p [] Hin Hp) as [e ->]. eauto.
Qed.
End PolicyLoad.

(** C10, witness: loading a missing file, and a file without exact names,
    leaves the tables of a loaded authority as they were; loading the
    reference policy installs its four tables. *)
Lemma LoadIdentPolicyFile_atomic_witness :
  let load pa f :=
    policy.LoadIdentPolicyFile (fmt := Ref.RefFmt) (files := Ref.RefPolicyFile) pa f in
  let loaded := fst (load Ref.refAuthority "policy.yaml") in
  snd (load Ref.refAuthority "policy.yaml") = None /\
  tables (fst (load loaded "missing.yaml")) = tables loaded /\
  tables (fst (load loaded "noexact.yaml")) = tables loaded /\
  exists e1 e2,
    snd (load loaded "missing.yaml") = Some e1 /\
    snd (load loaded "noexact.yaml") = Some e2.
Proof.
  intros load loaded.
  pose proof (LoadIdentPolicyFile_atomic (fmt := Ref.RefFmt)
                (files := Ref.RefPolicyFile) loaded "missing.yaml") as (Hm & _).
  pose proof (LoadIdentPolicyFile_atomic (fmt := Ref.RefFmt)
                (files := Ref.RefPolicyFile) loaded "noexact.yaml") as (Hn & _).
  split; [reflexivity |].
  split; [apply (Hm _ (errorString "open: no such file or directory")); reflexivity |].
  split; [apply (Hn _ (errorString "no entries in ExactBlockedNames")); reflexivity |].
  eexists _, _. split; reflexivity.
Defined.

(** ** Blocklists *)

Section BlocklistFacts.
Import GoStrings identifier policy.
Context {netip : NetIP} {iana : IANA} {unicode : Unicode} {fmt : Fmt}.

Lemma bool_eq_iff (a b : bool) : (a = true <-> b = true) -> a = b.
Proof. destruct a, b; intuition congruence. Qed.

Lemma index_setTrue (m : gmap string bool) (v k : string) :
  index (Some (setTrue m v)) k = true <-> v = k \/ index (Some m) k = true.
Proof.
  unfold index, setTrue. rewrite lookup_insert.
  destruct (decide (v = k)) as [-> | Hne]; simpl; [tauto |].
  split; [auto | intros [? | ?]; [contradiction | assumption]].
Qed.

Lemma index_foldl_setTrue (l : list string) (m : gmap string bool) (k : string) :
  index (Some (foldl setTrue m l)) k = true <-> In k l \/ index (Some m) k = true.
Proof.
  revert m. induction l as [| v l IH]; intros m.
  - simpl. tauto.
  - change (foldl setTrue m (v :: l)) with (foldl setTrue (setTrue m v) l).
    rewrite IH, index_setTrue. simpl. tauto.
Qed.

Lemma index_empty (k : string) : index (Some ∅) k = false.
Proof. unfold index. rewrite lookup_empty. reflexivity. Qed.

Lemma parent_cut (a p : string) :
  Contains a "." = false -> parent (a ++ String "." p) = p.
Proof. intros Ha. unfold parent. rewrite (SplitN2_cut a p "." Ha). reflexivity. Qed.

(** The two tables the loop over [ExactBlockedNames] builds. *)
Lemma exactNamesLoop_ok (names : list string) (m w m' w' : gmap string bool) :
  exactNamesLoop names m w = Ok (m', w') ->
  (forall k, index (Some m') k = true <-> In k names \/ index (Some m) k = true) /\
  (forall k, index (Some w') k = true <->
             (exists v, In v names /\ parent v = k) \/ index (Some w) k = true).
Proof.
  revert m w. induction names as [| v names IH]; intros m w Hl.
  - simpl in Hl. injection Hl as <- <-. split; intros k.
    + simpl. tauto.
    + split; [auto | intros [(v & [] & _) | Hk]; exact Hk].
  - cbn [exactNamesLoop] in Hl.
    destruct (length (SplitN v "." 2) <? 2)%nat; [discriminate |].
    apply IH in Hl as [Hm Hw]. split; intros k.
    + rewrite Hm, index_setTrue. simpl. tauto.
    + rewrite Hw, index_setTrue. fold (parent v). split.
      * intros [(u & Hu & Hp) | [Hp | Hk]]; [left; exists u; simpl; auto | | auto].
        left. exists v. simpl. auto.
      * intros [(u & [-> | Hu] & Hp) | Hk]; eauto.
Qed.

(** The tables of an authority after a successful load. *)
Lemma processIdentPolicy_tables (pa pa' : AuthorityImpl) (pol : blockedIdentsPolicy) :
  processIdentPolicy pa pol = (pa', None) ->
  (forall k, index (domainBlocklist pa') k = true <->
             In k (HighRiskBlockedNames pol) \/ In k (AdminBlockedNames pol)) /\
  (forall k, index (fqdnBlocklist pa') k = true <-> In k (ExactBlockedNames pol)) /\
  (forall k, index (wildcardFqdnBlocklist pa') k = true <->
             exists v, In v (ExactBlockedNames pol) /\ parent v = k) /\
  domainBlocklist pa' <> None /\ wildcardFqdnBlocklist pa' <> None /\
  enabledIdentifiers pa' = enabledIdentifiers pa /\
  ipPrefixBlocklist pa' = match prefixesLoop (AdminBlockedPrefixes pol) [] with
                          | Ok ps => ps
                          | Err _ => []
                          end.
Proof.
  intros Hp. apply processIdentPolicy_ok in Hp.
  destruct Hp as (exact & wild & ps & He & Hps & Hd & Hf & Hw & Hi & _ & _ & Hen).
  apply exactNamesLoop_ok in He as [Hm Hwm].
  rewrite Hd, Hf, Hw, Hps. repeat split; try discriminate; try assumption.
  - rewrite !index_foldl_setTrue, index_empty. intuition congruence.
  - rewrite !index_foldl_setTrue, index_empty. intuition congruence.
  - rewrite Hm, index_empty. intuition congruence.
  - rewrite Hm, index_empty. intuition congruence.
  - rewrite Hwm, index_empty. intuition congruence.
  - rewrite Hwm, index_empty. intuition congruence.
Qed.

Lemma WellFormedIdentifiers_dns (x : string) :
  WellFormedIdentifiers [NewDNS x] =
  match ValidDomain x with
  | Some err => combineSubErrors [subError (NewDNS x) err]
  | None => None
  end.
Proof.
  unfold WellFormedIdentifiers. simpl. destruct (ValidDomain x); reflexivity.
Qed.

Lemma combineSubErrors_single (e : berrors.SubBoulderError) :
  is_Some (combineSubErrors [e]).
Proof. simpl. eauto. Qed.

(** [WillingToIssue] on one DNS identifier, case by case. *)
Lemma WillingToIssue_dns (pa : AuthorityImpl) (x : string) :
  domainBlocklist pa <> None -> wildcardFqdnBlocklist pa <> None ->
  WillingToIssue pa [NewDNS x] =
  match ValidDomain x with
  | Some err => combineSubErrors [subError (NewDNS x) err]
  | None =>
      if negb (IdentifierTypeEnabled pa TypeDNS) then
        combineSubErrors
          [subError (NewDNS x)
             (RejectedIdentifierError
                "The ACME server has disabled this identifier type")]
      else if dnsBlocked pa x then Some (policyForbiddenFor x)
      else None
  end.
Proof.
  intros Hd Hw. unfold WillingToIssue. rewrite WellFormedIdentifiers_dns.
  destruct (ValidDomain x) as [err |]; [reflexivity |].
  cbn [willingLoop Type_ Value NewDNS].
  destruct (negb (IdentifierTypeEnabled pa TypeDNS)); [reflexivity |].
  unfold dnsBlocked, checkWildcardBlocklist, checkBlocklists.
  cbn [Type_ Value NewDNS].
  destruct (domainBlocklist pa) as [d |] eqn:Ed; [| contradiction].
  destruct (wildcardFqdnBlocklist pa) as [w |] eqn:Ew; [| contradiction].
  change (String.eqb TypeDNS TypeDNS) with true. cbn [andb].
  destruct (0 <? Count x "*")%nat; cbn [andb orb].
  - destruct (index (Some w) (TrimPrefix x "*.")); cbn [orb]; [reflexivity |].
    destruct (existsb _ _); cbn [orb]; [reflexivity |].
    destruct (index (fqdnBlocklist pa) x); reflexivity.
  - destruct (existsb _ _); cbn [orb]; [reflexivity |].
    destruct (index (fqdnBlocklist pa) x); reflexivity.
Qed.

(** A blocked DNS identifier is refused, and as forbidden by policy when it
    is well formed and DNS identifiers are enabled. *)
Lemma WillingToIssue_dns_blocked (pa : AuthorityImpl) (x : string) :
  domainBlocklist pa <> None -> wildcardFqdnBlocklist pa <> None ->
  dnsBlocked pa x = true ->
  is_Some (WillingToIssue pa [NewDNS x]) /\
  (ValidDomain x = None -> IdentifierTypeEnabled pa TypeDNS = true ->
   WillingToIssue pa [NewDNS x] = Some (policyForbiddenFor x)).
Proof.
  intros Hd Hw Hb. rewrite (WillingToIssue_dns pa x Hd Hw), Hb. split.
  - destruct (ValidDomain x); [apply combineSubErrors_single |].
    destruct (negb _); [apply combineSubErrors_single | eauto].
  - intros -> ->. reflexivity.
Qed.

(** Two authorities with the same identifier types enabled that answer the
    three lookups for [x] alike decide alike on [x]. *)
Lemma WillingToIssue_dns_same (pa1 pa2 : AuthorityImpl) (x : string) :
  domainBlocklist pa1 <> None -> wildcardFqdnBlocklist pa1 <> None ->
  domainBlocklist pa2 <> None -> wildcardFqdnBlocklist pa2 <> None ->
  enabledIdentifiers pa1 = enabledIdentifiers pa2 ->
  (ValidDomain x = None -> dnsBlocked pa1 x = dnsBlocked pa2 x) ->
  WillingToIssue pa1 [NewDNS x] = WillingToIssue pa2 [NewDNS x].
Proof.
  intros Hd1 Hw1 Hd2 Hw2 He Hb.
  rewrite (WillingToIssue_dns pa1 x Hd1 Hw1), (WillingToIssue_dns pa2 x Hd2 Hw2).
  unfold IdentifierTypeEnabled. rewrite He.
  destruct (ValidDomain x); [reflexivity |]. rewrite (Hb eq_refl). reflexivity.
Qed.

Lemma existsb_ext_in {A} (f g : A -> bool) (l : list A) :
  (forall a, In a l -> f a = g a) -> existsb f l = existsb g l.
Proof.
  induction l as [| a l IH]; intros Hfg; [reflexivity |].
  simpl. rewrite (Hfg a) by (simpl; auto). f_equal.
  apply IH. intros b Hb. apply Hfg. simpl. auto.
Qed.

Lemma append_inj_r (a b c : string) : (a ++ c = b ++ c)%string -> a = b.
Proof.
  revert b. induction a as [| x a IH]; intros [| y b] E.
  - reflexivity.
  - apply (f_equal String.length) in E. rewrite append_nil_l, append_length in E.
    simpl in E. lia.
  - apply (f_equal String.length) in E. rewrite append_nil_l, append_length in E.
    simpl in E. lia.
  - rewrite !append_cons in E. injection E as -> E. f_equal. apply IH, E.
Qed.

Lemma In_filter_ne (v k : string) (l : list string) :
  In k (List.filter (fun k => negb (String.eqb k v)) l) <-> In k l /\ k <> v.
Proof.
  rewrite List.filter_In, negb_true_iff, String.eqb_neq. tauto.
Qed.

(** An [ExactBlockedNames] entry [v] decides only on [v] and on the wildcard
    over its parent: on any other name the authority answers as the one
    loaded from the policy without the entry. *)
Lemma exact_entry_elsewhere (pa pa' pa0 : AuthorityImpl) (pol : blockedIdentsPolicy)
    (v x : string) :
  processIdentPolicy pa pol = (pa', None) ->
  processIdentPolicy pa (withoutExact v pol) = (pa0, None) ->
  x <> v -> x <> ("*." ++ parent v)%string ->
  WillingToIssue pa' [NewDNS x] = WillingToIssue pa0 [NewDNS x].
Proof.
  intros Hp Hp0 Hxv Hxw.
  apply processIdentPolicy_tables in Hp as (Hd & Hf & Hw & Hdn & Hwn & He & _).
  apply processIdentPolicy_tables in Hp0 as (Hd0 & Hf0 & Hw0 & Hdn0 & Hwn0 & He0 & _).
  apply WillingToIssue_dns_same; try assumption; [congruence |].
  intros Hv. unfold dnsBlocked. f_equal; [f_equal |].
  - apply ValidDomain_None in Hv as [[-> _] | (base & -> & _)]; [reflexivity |].
    rewrite (TrimPrefix_app "*." base). f_equal.
    apply bool_eq_iff. rewrite Hw, Hw0. simpl.
    assert (Hb : base <> parent v) by congruence.
    split; intros (u & Hu & Hpu); exists u.
    + split; [| exact Hpu]. apply In_filter_ne. split; [exact Hu | congruence].
    + apply In_filter_ne in Hu as [Hu _]. auto.
  - apply existsb_ext_in. intros i _. apply bool_eq_iff.
    rewrite Hd, Hd0. reflexivity.
  - apply bool_eq_iff. rewrite Hf, Hf0. simpl. rewrite In_filter_ne. tauto.
Qed.

(** C5: after a successful load of a policy whose [ExactBlockedNames] holds
    [a.p], where [a] is one label, [WillingToIssue] refuses the identifier
    [a.p] and the wildcard identifier [*.p], as forbidden by policy when
    the name is well formed and DNS identifiers are enabled; and on [p], on
    [z.a.p] and on a sibling [d.p] it answers as the authority loaded from
    the policy without that entry does. *)
Theorem ExactBlockedNames_blocks (pa pa' : AuthorityImpl) (pol : blockedIdentsPolicy)
    (a p : string) :
  Contains a "." = false ->
  In (a ++ String "." p)%string (ExactBlockedNames pol) ->
  processIdentPolicy pa pol = (pa', None) ->
  (is_Some (WillingToIssue pa' [NewDNS (a ++ String "." p)]) /\
   (ValidDomain (a ++ String "." p) = None ->
    IdentifierTypeEnabled pa' TypeDNS = true ->
    WillingToIssue pa' [NewDNS (a ++ String "." p)]
    = Some (policyForbiddenFor (a ++ String "." p)))) /\
  (is_Some (WillingToIssue pa' [NewDNS ("*." ++ p)]) /\
   (ValidDomain ("*." ++ p) = None ->
    IdentifierTypeEnabled pa' TypeDNS = true ->
    WillingToIssue pa' [NewDNS ("*." ++ p)] = Some (policyForbiddenFor ("*." ++ p)))) /\
  (forall pa0,
     processIdentPolicy pa (withoutExact (a ++ String "." p) pol) = (pa0, None) ->
     WillingToIssue pa' [NewDNS p] = WillingToIssue pa0 [NewDNS p] /\
     (forall z,
        WillingToIssue pa' [NewDNS (z ++ String "." (a ++ String "." p))]
        = WillingToIssue pa0 [NewDNS (z ++ String "." (a ++ String "." p))]) /\
     (forall d, d <> a -> d <> "*"%string ->
        WillingToIssue pa' [NewDNS (d ++ String "." p)]
        = WillingToIssue pa0 [NewDNS (d ++ String "." p)])).
Proof.
  intros Ha Hin Hp.
  pose proof (processIdentPolicy_tables pa pa' pol Hp)
    as (Hd & Hf & Hw & Hdn & Hwn & He & _).
  pose proof (parent_cut a p Ha) as Hpar.
  split; [| split].
  - apply WillingToIssue_dns_blocked; try assumption.
    unfold dnsBlocked. apply orb_true_iff. right. apply Hf, Hin.
  - apply WillingToIssue_dns_blocked; try assumption.
    unfold dnsBlocked. rewrite (TrimPrefix_app "*." p).
    apply orb_true_iff. left. apply orb_true_iff. left.
    apply andb_true_iff. split; [reflexivity |].
    apply Hw. exists (a ++ String "." p)%string. auto.
  - intros pa0 Hp0.
    assert (Hgen : forall x, x <> (a ++ String "." p)%string ->
                             x <> ("*." ++ p)%string ->
              WillingToIssue pa' [NewDNS x] = WillingToIssue pa0 [NewDNS x]).
    { intros x Hx1 Hx2.
      apply (exact_entry_elsewhere pa pa' pa0 pol (a ++ String "." p) x Hp Hp0 Hx1).
      rewrite Hpar. exact Hx2. }
    split; [| split].
    + apply Hgen; intros E; apply (f_equal String.length) in E;
        rewrite append_length in E; simpl in E; lia.
    + intros z. apply Hgen.
      * intros E. apply (f_equal String.length) in E.
        rewrite append_length in E. simpl in E. lia.
      * intros E.
        change (z ++ String "." (a ++ String "." p))%string
          with (z ++ ("." ++ (a ++ ("." ++ p))))%string in E.
        rewrite <- !append_assoc in E. apply append_inj_r in E.
        pose proof (f_equal String.length E) as El.
        rewrite !append_length in El. simpl in El.
        destruct z; [| simpl in El; lia]. destruct a; [| simpl in El; lia].
        cbv in E. discriminate E.
    + intros d Hda Hds. apply Hgen.
      * intros E. apply append_inj_r in E. contradiction.
      * intros E. change ("*." ++ p)%string with ("*" ++ String "." p)%string in E.
        apply append_inj_r in E. contradiction.
Qed.

(** C6: after a successful load of a policy whose [HighRiskBlockedNames]
    holds [v], [WillingToIssue] refuses every DNS identifier that is [v] or
    ends in [.v] (so [a.v], [v] and [*.a.v]), as forbidden by policy when
    the name is well formed and DNS identifiers are enabled; on a name that
    does not end label-wise in [v] it answers as the authority loaded from
    the policy without that entry does. *)
Theorem HighRiskBlockedNames_blocks (pa pa' : AuthorityImpl)
    (pol : blockedIdentsPolicy) (v : string) :
  In v (HighRiskBlockedNames pol) ->
  processIdentPolicy pa pol = (pa', None) ->
  (forall x, labelSuffix "." v x ->
     is_Some (WillingToIssue pa' [NewDNS x]) /\
     (ValidDomain x = None -> IdentifierTypeEnabled pa' TypeDNS = true ->
      WillingToIssue pa' [NewDNS x] = Some (policyForbiddenFor x))) /\
  (forall x pa0, ~ labelSuffix "." v x ->
     processIdentPolicy pa (withoutHighRisk v pol) = (pa0, None) ->
     WillingToIssue pa' [NewDNS x] = WillingToIssue pa0 [NewDNS x]).
Proof.
  intros Hin Hp.
  pose proof (processIdentPolicy_tables pa pa' pol Hp)
    as (Hd & Hf & Hw & Hdn & Hwn & He & _).
  split.
  - intros x Hs. apply WillingToIssue_dns_blocked; try assumption.
    unfold dnsBlocked. apply orb_true_iff. left. apply orb_true_iff. right.
    apply label_suffix_joined in Hs as (i & Hi & Hj).
    apply existsb_seq. exists i. split; [exact Hi |].
    change "."%string with (sepString ".").
    rewrite Hj. apply Hd. auto.
  - intros x pa0 Hns Hp0.
    apply processIdentPolicy_tables in Hp0 as (Hd0 & Hf0 & Hw0 & Hdn0 & Hwn0 & He0 & _).
    apply WillingToIssue_dns_same; try assumption; [congruence |].
    intros _. unfold dnsBlocked. f_equal; [f_equal |].
    + f_equal. apply bool_eq_iff. rewrite Hw, Hw0. reflexivity.
    + apply existsb_ext_in. intros i Hi. apply in_seq in Hi.
      apply bool_eq_iff. rewrite Hd, Hd0. simpl. rewrite In_filter_ne.
      assert (Hne : Join (drop i (Split x ".")) "." <> v).
      { intros E. apply Hns. apply label_suffix_joined.
        exists i. split; [lia | exact E]. }
      tauto.
    + apply bool_eq_iff. rewrite Hf, Hf0. reflexivity.
Qed.

End BlocklistFacts.

(** C5, witness: the blocklist scenario of the spec. With [hi.example.com]
    in [ExactBlockedNames], [hi.example.com] and [*.example.com] are
    forbidden, [example.com], [www.hi.example.com] and [lo.example.com]
    are decided as without the entry, and [lo.example.com] is accepted. *)
Lemma ExactBlockedNames_blocks_witness :
  let pa' := fst (policy.processIdentPolicy (fmt := Ref.RefFmt)
                    Ref.refAuthority Ref.refPolicy) in
  let pa0 := fst (policy.processIdentPolicy (fmt := Ref.RefFmt) Ref.refAuthority
                    (withoutExact "hi.example.com" Ref.refPolicy)) in
  let willing pa x :=
    policy.WillingToIssue (iana := Ref.RefIANA) (unicode := Ref.RefUnicode)
      (fmt := Ref.RefFmt) pa [identifier.NewDNS x] in
  willing pa' "hi.example.com"
    = Some (policyForbiddenFor (fmt := Ref.RefFmt) "hi.example.com") /\
  willing pa' "*.example.com"
    = Some (policyForbiddenFor (fmt := Ref.RefFmt) "*.example.com") /\
  willing pa' "example.com" = willing pa0 "example.com" /\
  willing pa' "www.hi.example.com" = willing pa0 "www.hi.example.com" /\
  willing pa' "lo.example.com" = willing pa0 "lo.example.com" /\
  willing pa' "lo.example.com" = None.
Proof.
  intros pa' pa0 willing.
  destruct (ExactBlockedNames_blocks (iana := Ref.RefIANA) (unicode := Ref.RefUnicode)
              (fmt := Ref.RefFmt) Ref.refAuthority pa' Ref.refPolicy
              "hi" "example.com" eq_refl (or_introl eq_refl) eq_refl)
    as ((_ & Hv) & (_ & Hw) & Hrest).
  destruct (Hrest pa0 eq_refl) as (Hp & Hz & Hd).
  split; [exact (Hv eq_refl eq_refl) |].
  split; [exact (Hw eq_refl eq_refl) |].
  split; [exact Hp |].
  split; [exact (Hz "www") |].
  split; [apply (Hd "lo"); discriminate | reflexivity].
Defined.

(** C6, witness: with [example.co] in [HighRiskBlockedNames],
    [a.example.co], [example.co] and [*.a.example.co] are forbidden, and
    [example.com] is decided as without the entry: it is accepted. *)
Lemma HighRiskBlockedNames_blocks_witness :
  let pol := {| policy.ExactBlockedNames := ["hi.example.com"];
                policy.HighRiskBlockedNames := ["example.co"];
                policy.AdminBlockedNames := [];
                policy.AdminBlockedPrefixes := [] |} in
  let pa' := fst (policy.processIdentPolicy (fmt := Ref.RefFmt) Ref.refAuthority pol) in
  let pa0 := fst (policy.processIdentPolicy (fmt := Ref.RefFmt) Ref.refAuthority
                    (withoutHighRisk "example.co" pol)) in
  let willing pa x :=
    policy.WillingToIssue (iana := Ref.RefIANA) (unicode := Ref.RefUnicode)
      (fmt := Ref.RefFmt) pa [identifier.NewDNS x] in
  willing pa' "a.example.co"
    = Some (policyForbiddenFor (fmt := Ref.RefFmt) "a.example.co") /\
  willing pa' "example.co"
    = Some (policyForbiddenFor (fmt := Ref.RefFmt) "example.co") /\
  willing pa' "*.a.example.co"
    = Some (policyForbiddenFor (fmt := Ref.RefFmt) "*.a.example.co") /\
  willing pa' "example.com" = willing pa0 "example.com" /\
  willing pa' "example.com" = None.
Proof.
  intros pol pa' pa0 willing.
  destruct (HighRiskBlockedNames_blocks (iana := Ref.RefIANA)
              (unicode := Ref.RefUnicode) (fmt := Ref.RefFmt)
              Ref.refAuthority pa' pol "example.co" (or_introl eq_refl) eq_refl)
    as (Hb & Hu).
  split; [apply (Hb "a.example.co"); [right; exists "a"%string |..]; reflexivity |].
  split; [apply (Hb "example.co"); [left |..]; reflexivity |].
  split; [apply (Hb "*.a.example.co"); [right; exists "*.a"%string |..]; reflexivity |].
  split; [| reflexivity].
  apply (Hu "example.com" pa0); [| reflexivity].
  intros Hs. apply label_suffix_joined in Hs as (i & Hi & Hj).
  simpl in Hi. destruct i as [| [| i]]; [discriminate Hj | discriminate Hj | lia].
Defined.

(** ** The status of an order *)

Section OrderStatusFacts.
Import sa.
Context {fmt : Fmt}.

Local Open Scope Z_scope.

Lemma int64_small (z : Z) : - 2 ^ 63 <= z < 2 ^ 63 -> int64 z = z.
Proof.
  intros Hz. unfold int64. rewrite Z.mod_small by lia. lia.
Qed.

(** The time of a timestamp whose seconds, counted from the year 1, fit an
    [int64] and whose nanoseconds are below a second: no wrap-around. *)
Lemma AsTime_in_range (t : Timestamp) :
  - 2 ^ 63 <= Seconds t + unixToInternal < 2 ^ 63 ->
  0 <= Nanos t < 1000000000 ->
  AsTime (Some t) = Seconds t * 1000000000 + Nanos t.
Proof.
  intros Hs Hn. unfold AsTime, time_Unix.
  assert ((Nanos t <? 0) || (1000000000 <=? Nanos t) = false) as ->.
  { apply orb_false_iff. split; [apply Z.ltb_ge | apply Z.leb_gt]; lia. }
  rewrite int64_small by exact Hs. lia.
Qed.

Lemma indexStr_uintToStatus (z : Z) :
  indexStr uintToStatus z =
  if z =? 0 then core.StatusPending
  else if z =? 1 then core.StatusValid
  else if z =? 2 then core.StatusInvalid
  else if z =? 3 then core.StatusDeactivated
  else if z =? 4 then core.StatusRevoked
  else EmptyString.
Proof.
  unfold indexStr, uintToStatus. simpl.
  destruct (Z.eqb_spec z 0) as [-> | ?]; [reflexivity |].
  destruct (Z.eqb_spec z 1) as [-> | ?]; [reflexivity |].
  destruct (Z.eqb_spec z 2) as [-> | ?]; [reflexivity |].
  destruct (Z.eqb_spec z 3) as [-> | ?]; [reflexivity |].
  destruct (Z.eqb_spec z 4) as [-> | ?]; [reflexivity |].
  rewrite !lookup_insert_ne by lia. reflexivity.
Qed.

Lemma countStatus_cases (info : authzValidity) (c : authzCounts) :
  countStatus info c =
  if av_Status info =? 0 then
    Ok (mkAuthzCounts (S (pendingAuthzs c)) (validAuthzs c) (otherAuthzs c) (expiredAuthzs c))
  else if av_Status info =? 1 then
    Ok (mkAuthzCounts (pendingAuthzs c) (S (validAuthzs c)) (otherAuthzs c) (expiredAuthzs c))
  else if (av_Status info =? 2) || (av_Status info =? 3) || (av_Status info =? 4) then
    Ok (mkAuthzCounts (pendingAuthzs c) (validAuthzs c) (S (otherAuthzs c)) (expiredAuthzs c))
  else
    Err (InternalServerErrorf
           "Order is in an invalid state. Authz has invalid status %d"
           [ArgInt (av_Status info)]).
Proof.
  unfold countStatus. rewrite indexStr_uintToStatus.
  destruct (av_Status info =? 0); [reflexivity |].
  destruct (av_Status info =? 1); [reflexivity |].
  destruct (av_Status info =? 2); [reflexivity |].
  destruct (av_Status info =? 3); [reflexivity |].
  destruct (av_Status info =? 4); reflexivity.
Qed.

(** What the loop has counted when it ends, and that it ends with an error
    exactly when a status is not one of the five known ones. *)
Lemma countAuthzs_spec (infos : list authzValidity) (now : Z) (c : authzCounts) :
  if forallb knownStatus infos then
    exists c',
      countAuthzs infos now c = Ok c' /\
      pendingAuthzs c' = (pendingAuthzs c + length (List.filter authzPending infos))%nat /\
      validAuthzs c' = (validAuthzs c + length (List.filter authzValid infos))%nat /\
      (pendingAuthzs c' + validAuthzs c' + otherAuthzs c' =
       pendingAuthzs c + validAuthzs c + otherAuthzs c + length infos)%nat /\
      ((0 <? otherAuthzs c')%nat || (0 <? expiredAuthzs c')%nat =
       (0 <? otherAuthzs c)%nat || (0 <? expiredAuthzs c)%nat
       || existsb (authzInvalid now) infos)
  else
    exists detail,
      countAuthzs infos now c =
      Err (BoulderErr (berrors.mkBoulderError berrors.InternalServer detail [])).
Proof.
  revert c. induction infos as [| info infos IH]; intros c.
  - simpl. exists c. repeat split; try lia. rewrite orb_false_r. reflexivity.
  - simpl. rewrite countStatus_cases.
    unfold knownStatus at 1, authzPending at 1, authzValid at 1, authzInvalid at 1.
    destruct (Z.eqb_spec (av_Status info) 0) as [E0 | N0];
      [| destruct (Z.eqb_spec (av_Status info) 1) as [E1 | N1];
         [| destruct ((av_Status info =? 2) || (av_Status info =? 3)
                      || (av_Status info =? 4)) eqn:E234]].
    4: { assert (Hk : (0 <=? av_Status info) && (av_Status info <=? 4) = false).
         { apply orb_false_iff in E234 as [E23 E4].
           apply orb_false_iff in E23 as [E2 E3].
           apply Z.eqb_neq in E2, E3, E4.
           apply andb_false_iff. rewrite Z.leb_gt, Z.leb_gt. lia. }
         rewrite Hk. simpl. eexists. reflexivity. }
    all: assert (Hk : (0 <=? av_Status info) && (av_Status info <=? 4) = true)
      by (apply andb_true_iff; rewrite !Z.leb_le;
          repeat (apply orb_true_iff in E234 as [E234 | E234]);
          try apply Z.eqb_eq in E234; lia).
    all: rewrite Hk; simpl andb.
    all: match goal with
         | |- context [countAuthzs _ _ ?c0] => specialize (IH c0)
         end.
    all: destruct (forallb knownStatus _); [| exact IH].
    all: destruct IH as (c' & Hc & Hp & Hv & Ht & Ho); exists c'.
    all: split; [exact Hc |].
    all: rewrite Ho; clear Ho Hc.
    all: try rewrite E0; try rewrite E1; simpl Z.eqb.
    all: destruct (Before _ _); simpl in *.
    all: repeat split; try lia.
    all: repeat rewrite ?orb_true_r, ?orb_true_l, ?orb_false_r, ?orb_false_l; try reflexivity.
Qed.

Lemma filter_length_pos {A} (p : A -> bool) (l : list A) :
  (0 <? length (List.filter p l))%nat = existsb p l.
Proof.
  induction l as [| x l IH]; [reflexivity |].
  simpl. destruct (p x); simpl; [reflexivity | exact IH].
Qed.

Lemma filter_length_all {A} (p : A -> bool) (l : list A) :
  length (List.filter p l) = length l -> forallb p l = true.
Proof.
  induction l as [| x l IH]; [reflexivity |].
  simpl. destruct (p x); simpl; intros Hl.
  - apply IH. lia.
  - pose proof (List.filter_length_le p l). lia.
Qed.

(** The order status after the three early exits: a function of what the
    loop counted. *)
Lemma statusForOrder_after_exits (order : Order) (authz : list authzValidity) (now : Z) :
  Error_ order = None ->
  Before (AsTime (Expires order)) now = false ->
  length authz = length (V2Authorizations order) ->
  (forallb knownStatus authz = false ->
   isInternalError (statusForOrder order authz now)) /\
  (forallb knownStatus authz = true ->
   (existsb (authzInvalid now) authz = true ->
    statusForOrder order authz now = (core.StatusInvalid, None)) /\
   (existsb (authzInvalid now) authz = false ->
    existsb authzPending authz = true ->
    statusForOrder order authz now = (core.StatusPending, None)) /\
   (existsb (authzInvalid now) authz = false ->
    existsb authzPending authz = false ->
    length (List.filter authzValid authz) = length authz /\
    statusForOrder order authz now =
      (if negb (Nat.eqb (length (Identifiers order)) (length authz)) then
        (EmptyString,
         Some (InternalServerError
                 "Order has the incorrect number of valid authorizations & no pending, deactivated or invalid authorizations"))
      else if negb (String.eqb (CertificateSerial order) EmptyString) then
        (core.StatusValid, None)
      else if BeganProcessing order then (core.StatusProcessing, None)
      else (core.StatusReady, None)))).
Proof.
  intros He Hx Hl. unfold statusForOrder.
  rewrite He, Hx, <- Hl, Nat.eqb_refl. simpl.
  pose proof (countAuthzs_spec authz now (mkAuthzCounts 0 0 0 0)) as Hc.
  destruct (forallb knownStatus authz).
  - split; [discriminate | intros _].
    destruct Hc as (c & -> & Hp & Hv & Ht & Ho). simpl in *.
    rewrite Ho. rewrite Hp, filter_length_pos.
    assert (Hnone : existsb (authzInvalid now) authz = false ->
                    existsb authzPending authz = false ->
                    validAuthzs c = length authz).
    { intros Hi Hq. rewrite Hi in Ho.
      apply orb_false_iff in Ho as [Ho _]. apply Nat.ltb_ge in Ho.
      pose proof (filter_length_pos authzPending authz) as Hf.
      rewrite Hq in Hf. apply Nat.ltb_ge in Hf. lia. }
    split; [| split; [| intros Hi Hq; split]].
    + intros ->. reflexivity.
    + intros -> ->. reflexivity.
    + rewrite <- Hv. apply Hnone; assumption.
    + rewrite (Hnone Hi Hq). rewrite Hi, Hq.
      destruct (Nat.eqb (length (Identifiers order)) (length authz)); simpl;
        [| reflexivity].
      destruct (String.eqb (CertificateSerial order) EmptyString); simpl;
        [| reflexivity].
      destruct (BeganProcessing order); reflexivity.
  - split; [intros _ | discriminate].
    destruct Hc as (detail & ->). split; [reflexivity | eauto].
Qed.
(** C4: for an order, a list of authorization validities as long as the
    order's list of authorization IDs and as its list of identifiers, and a
    time [now], [statusForOrder] follows this ordered case analysis: an
    order error yields invalid; otherwise an expired order yields invalid;
    otherwise, for authorizations whose status codes are among the five
    that [statusToUint] stores, any invalid, deactivated, revoked or expired
    authorization yields invalid; otherwise any pending authorization yields
    pending; otherwise all authorizations are valid, and the order is valid
    with a certificate serial, else processing with [BeganProcessing], else
    ready. The remaining case, a status code that is none of the five,
    yields an internal error. *)
Theorem statusForOrder_cases (order : Order) (authz : list authzValidity) (now : Z) :
  length authz = length (V2Authorizations order) ->
  length authz = length (Identifiers order) ->
  (is_Some (Error_ order) ->
   statusForOrder order authz now = (core.StatusInvalid, None)) /\
  (Error_ order = None -> Before (AsTime (Expires order)) now = true ->
   statusForOrder order authz now = (core.StatusInvalid, None)) /\
  (Error_ order = None -> Before (AsTime (Expires order)) now = false ->
   (forallb knownStatus authz = false ->
    isInternalError (statusForOrder order authz now)) /\
   (forallb knownStatus authz = true ->
    (existsb (authzInvalid now) authz = true ->
     statusForOrder order authz now = (core.StatusInvalid, None)) /\
    (existsb (authzInvalid now) authz = false ->
     existsb authzPending authz = true ->
     statusForOrder order authz now = (core.StatusPending, None)) /\
    (existsb (authzInvalid now) authz = false ->
     existsb authzPending authz = false ->
     forallb authzValid authz = true /\
     (CertificateSerial order <> EmptyString ->
      statusForOrder order authz now = (core.StatusValid, None)) /\
     (CertificateSerial order = EmptyString -> BeganProcessing order = true ->
      statusForOrder order authz now = (core.StatusProcessing, None)) /\
     (CertificateSerial order = EmptyString -> BeganProcessing order = false ->
      statusForOrder order authz now = (core.StatusReady, None))))).
Proof.
  intros Hl Hi. split; [| split].
  - intros [p Hp]. unfold statusForOrder. rewrite Hp. reflexivity.
  - intros He Hx. unfold statusForOrder. rewrite He, Hx. reflexivity.
  - intros He Hx.
    destruct (statusForOrder_after_exits order authz now He Hx Hl) as [Hu Hk].
    split; [exact Hu |]. intros Hknown.
    destruct (Hk Hknown) as (Hinv & Hpen & Hval).
    split; [exact Hinv | split; [exact Hpen |]].
    intros Hni Hnp. destruct (Hval Hni Hnp) as [Hall Hr].
    rewrite <- Hi, Nat.eqb_refl in Hr. simpl in Hr.
    split; [apply filter_length_all; exact Hall |].
    rewrite Hr. split; [| split].
    + intros Hs. apply String.eqb_neq in Hs. rewrite Hs. reflexivity.
    + intros -> ->. reflexivity.
    + intros -> ->. reflexivity.
Qed.

(** C2 (amended): an order with an error is invalid, and so is an expired
    order without an error, whatever the numbers of authorizations and of
    identifiers. For an order without an error that has not expired: a
    number of authorization validities that differs from the number of the
    order's authorization IDs yields an internal error, whatever the
    statuses; when those two numbers agree and differ from the number of
    identifiers, a status code that is none of the five stored ones yields
    an internal error; otherwise an invalid, deactivated, revoked or expired
    authorization yields invalid; otherwise a pending authorization yields
    pending; otherwise the result is an internal error. With either
    mismatch the order is never ready, processing or valid. *)
Theorem statusForOrder_count_mismatch (order : Order) (authz : list authzValidity)
    (now : Z) :
  (is_Some (Error_ order) ->
   statusForOrder order authz now = (core.StatusInvalid, None)) /\
  (Error_ order = None -> Before (AsTime (Expires order)) now = true ->
   statusForOrder order authz now = (core.StatusInvalid, None)) /\
  (Error_ order = None -> Before (AsTime (Expires order)) now = false ->
   (length authz <> length (V2Authorizations order) ->
    isInternalError (statusForOrder order authz now)) /\
   (length authz = length (V2Authorizations order) ->
    length authz <> length (Identifiers order) ->
    (forallb knownStatus authz = false ->
     isInternalError (statusForOrder order authz now)) /\
    (forallb knownStatus authz = true ->
     (existsb (authzInvalid now) authz = true ->
      statusForOrder order authz now = (core.StatusInvalid, None)) /\
     (existsb (authzInvalid now) authz = false ->
      existsb authzPending authz = true ->
      statusForOrder order authz now = (core.StatusPending, None)) /\
     (existsb (authzInvalid now) authz = false ->
      existsb authzPending authz = false ->
      isInternalError (statusForOrder order authz now)))) /\
   (length authz <> length (V2Authorizations order) \/
    length authz <> length (Identifiers order) ->
    ~ In (fst (statusForOrder order authz now))
         [core.StatusReady; core.StatusProcessing; core.StatusValid])).
Proof.
  split; [| split].
  - intros [p Hp]. unfold statusForOrder. rewrite Hp. reflexivity.
  - intros He Hx. unfold statusForOrder. rewrite He, Hx. reflexivity.
  - intros He Hx.
    assert (Hfirst : length authz <> length (V2Authorizations order) ->
                     isInternalError (statusForOrder order authz now)).
    { intros Hne. unfold statusForOrder. rewrite He, Hx.
      apply Nat.eqb_neq in Hne. rewrite Hne. simpl.
      split; [reflexivity | eauto]. }
    assert (Hsecond :
              length authz = length (V2Authorizations order) ->
              length authz <> length (Identifiers order) ->
              (forallb knownStatus authz = false ->
               isInternalError (statusForOrder order authz now)) /\
              (forallb knownStatus authz = true ->
               (existsb (authzInvalid now) authz = true ->
                statusForOrder order authz now = (core.StatusInvalid, None)) /\
               (existsb (authzInvalid now) authz = false ->
                existsb authzPending authz = true ->
                statusForOrder order authz now = (core.StatusPending, None)) /\
               (existsb (authzInvalid now) authz = false ->
                existsb authzPending authz = false ->
                isInternalError (statusForOrder order authz now)))).
    { intros Hl Hne.
      destruct (statusForOrder_after_exits order authz now He Hx Hl) as [Hu Hk].
      split; [exact Hu |]. intros Hknown.
      destruct (Hk Hknown) as (Hinv & Hpen & Hval).
      split; [exact Hinv |]. split; [exact Hpen |].
      intros Hni Hnp. destruct (Hval Hni Hnp) as [_ ->].
      assert (Hneq : Nat.eqb (length (Identifiers order)) (length authz) = false)
        by (apply Nat.eqb_neq; congruence).
      rewrite Hneq. simpl. split; [reflexivity | eauto]. }
    split; [exact Hfirst |]. split; [exact Hsecond |].
    assert (Hnot : forall r : string * option error,
              isInternalError r \/ r = (core.StatusInvalid, None)
              \/ r = (core.StatusPending, None) ->
              ~ In (fst r) [core.StatusReady; core.StatusProcessing; core.StatusValid]).
    { intros r [[Hf _] | [-> | ->]]; [rewrite Hf |..]; simpl;
        intros [H | [H | [H | []]]]; discriminate H. }
    intros Hmis. apply Hnot.
    destruct (Nat.eq_dec (length authz) (length (V2Authorizations order)))
      as [Hl | Hl]; [| left; exact (Hfirst Hl)].
    destruct Hmis as [Hm | Hm]; [contradiction |].
    destruct (Hsecond Hl Hm) as [Hu Hk].
    destruct (forallb knownStatus authz); [| left; exact (Hu eq_refl)].
    destruct (Hk eq_refl) as (Hinv & Hpen & Herr).
    destruct (existsb (authzInvalid now) authz); [right; left; exact (Hinv eq_refl) |].
    destruct (existsb authzPending authz);
      [right; right; exact (Hpen eq_refl eq_refl) | left; exact (Herr eq_refl eq_refl)].
Qed.

End OrderStatusFacts.

(** C2, counterexample: an order with an error, one identifier and no
    authorization is invalid, and an order with two identifiers and one
    authorization, which is pending, is pending; neither call returns an
    error. *)
Lemma statusForOrder_count_mismatch_counterexample :
  sa.statusForOrder (fmt := Ref.RefFmt)
    (sa.mkOrder 1 1 None
       (Some (sa.mkProblemDetails "urn:ietf:params:acme:error:unauthorized"
                                  "no authorization" 403))
       [] [sa.mkIdentifierPB "dns" "example.com"] EmptyString false)
    [] 0
  = ("invalid", None)
  /\
  sa.statusForOrder (fmt := Ref.RefFmt)
    (sa.mkOrder 2 1 (Some (sa.mkTimestamp 100 0)) None [7%Z]
       [sa.mkIdentifierPB "dns" "a.example.com";
        sa.mkIdentifierPB "dns" "b.example.com"] EmptyString false)
    [sa.mkAuthzValidity 0 "a.example.com" 0 200000000000] 50
  = ("pending", None).
Proof. split; reflexivity. Qed.

(** C2, witness: an order without error and not expired, with one
    authorization ID, one identifier and no validity record; and an order
    with two identifiers and one authorization, which is valid. *)
Lemma statusForOrder_count_mismatch_witness :
  isInternalError
    (sa.statusForOrder (fmt := Ref.RefFmt)
       (sa.mkOrder 3 1 (Some (sa.mkTimestamp 100 0)) None [7%Z]
          [sa.mkIdentifierPB "dns" "example.com"] EmptyString false)
       [] 50) /\
  isInternalError
    (sa.statusForOrder (fmt := Ref.RefFmt)
       (sa.mkOrder 2 1 (Some (sa.mkTimestamp 100 0)) None [7%Z]
          [sa.mkIdentifierPB "dns" "a.example.com";
           sa.mkIdentifierPB "dns" "b.example.com"] EmptyString false)
       [sa.mkAuthzValidity 0 "a.example.com" 1 200000000000] 50).
Proof.
  split.
  - destruct (statusForOrder_count_mismatch (fmt := Ref.RefFmt)
                (sa.mkOrder 3 1 (Some (sa.mkTimestamp 100 0)) None [7%Z]
                   [sa.mkIdentifierPB "dns" "example.com"] EmptyString false)
                [] 50) as (_ & _ & H3).
    destruct (H3 eq_refl eq_refl) as (Hids & _).
    apply Hids. simpl. lia.
  - destruct (statusForOrder_count_mismatch (fmt := Ref.RefFmt)
                (sa.mkOrder 2 1 (Some (sa.mkTimestamp 100 0)) None [7%Z]
                   [sa.mkIdentifierPB "dns" "a.example.com";
                    sa.mkIdentifierPB "dns" "b.example.com"] EmptyString false)
                [sa.mkAuthzValidity 0 "a.example.com" 1 200000000000] 50)
      as (_ & _ & H3).
    destruct (H3 eq_refl eq_refl) as (_ & Hidents & _).
    destruct (Hidents eq_refl ltac:(simpl; lia)) as (_ & Hknown).
    destruct (Hknown eq_refl) as (_ & _ & Herr).
    exact (Herr eq_refl eq_refl).
Defined.

(** C4, witness: one valid authorization, no serial, not processing: ready;
    and an order whose expiry holds the largest number of seconds has
    expired, as the seconds wrap around when they are counted from the
    year 1. *)
Lemma statusForOrder_cases_witness :
  sa.statusForOrder (fmt := Ref.RefFmt)
    (sa.mkOrder 5 1 (Some (sa.mkTimestamp 100 0)) None [7%Z]
       [sa.mkIdentifierPB "dns" "example.com"] EmptyString false)
    [sa.mkAuthzValidity 0 "example.com" 1 200000000000] 50
  = ("ready", None) /\
  sa.statusForOrder (fmt := Ref.RefFmt)
    (sa.mkOrder 6 1 (Some (sa.mkTimestamp 9223372036854775807 0)) None [7%Z]
       [sa.mkIdentifierPB "dns" "example.com"] EmptyString false)
    [sa.mkAuthzValidity 0 "example.com" 1 200000000000] 50
  = ("invalid", None).
Proof.
  split.
  - destruct (statusForOrder_cases (fmt := Ref.RefFmt)
                (sa.mkOrder 5 1 (Some (sa.mkTimestamp 100 0)) None [7%Z]
                   [sa.mkIdentifierPB "dns" "example.com"] EmptyString false)
                [sa.mkAuthzValidity 0 "example.com" 1 200000000000] 50
                eq_refl eq_refl) as (_ & _ & H3).
    destruct (H3 eq_refl eq_refl) as (_ & Hk).
    destruct (Hk eq_refl) as (_ & _ & Hv).
    destruct (Hv eq_refl eq_refl) as (_ & _ & _ & Hr).
    exact (Hr eq_refl eq_refl).
  - destruct (statusForOrder_cases (fmt := Ref.RefFmt)
                (sa.mkOrder 6 1 (Some (sa.mkTimestamp 9223372036854775807 0)) None
                   [7%Z] [sa.mkIdentifierPB "dns" "example.com"] EmptyString false)
                [sa.mkAuthzValidity 0 "example.com" 1 200000000000] 50
                eq_refl eq_refl) as (_ & H2 & _).
    exact (H2 eq_refl eq_refl).
Defined.

(** ** The surface form of a stored authorization *)

Section AuthzFacts.
Import GoStrings sa.
Context {fmt : Fmt} {codec : Codec}.

Local Open Scope Z_scope.

Lemma populateAttemptedFields_ok (am : authzModel) (c c' : Challenge VRPB PDPB) :
  populateAttemptedFields am c = Ok c' ->
  ch_Type c' = ch_Type c /\ ch_Token c' = ch_Token c /\
  ch_Validated c' = ch_Validated c /\ ch_Status c' = attemptedStatus am /\
  (am_ValidationError am = EmptyString -> ch_Error c' = ch_Error c) /\
  (am_ValidationError am <> EmptyString -> is_Some (ch_Error c')).
Proof.
  unfold populateAttemptedFields, attemptedStatus.
  destruct (Nat.eqb (len (am_ValidationError am)) 0) eqn:El; simpl.
  - destruct (UnmarshalRecords _); [| discriminate].
    destruct (recordsLoop _ _); [| discriminate].
    intros [= <-]. simpl. repeat split; auto.
    intros Hne. destruct (am_ValidationError am); [contradiction | discriminate].
  - destruct (UnmarshalProblem _); [| discriminate].
    destruct (ProblemDetailsToPB _); [| discriminate]. simpl.
    destruct (UnmarshalRecords _); [| discriminate].
    destruct (recordsLoop _ _); [| discriminate].
    intros [= <-]. simpl. repeat split; eauto.
    intros He. rewrite He in El. discriminate.
Qed.

(** The loop when nothing was attempted: a pending challenge for every set
    bit. *)
Lemma challengesLoop_unattempted (am : authzModel) (ps : list Z)
    (acc : list (Challenge VRPB PDPB)) :
  am_Attempted am = None ->
  challengesLoop am ps acc =
  Ok (acc ++ map (pendingChallenge am) (List.filter (bitSet (am_Challenges am)) ps)).
Proof.
  intros Ha. revert acc. induction ps as [| pos ps IH]; intros acc; simpl.
  - rewrite app_nil_r. reflexivity.
  - destruct (bitSet (am_Challenges am) pos); [| apply IH].
    rewrite Ha, IH. simpl. rewrite <- app_assoc. reflexivity.
Qed.

(** The loop when index [a] was attempted: nothing for a bit that is not set
    or has another type name; for the others, the attempted fields filled in
    the same way each time. *)
Lemma challengesLoop_attempted (am : authzModel) (a : Z) (ps : list Z)
    (acc : list (Challenge VRPB PDPB)) :
  am_Attempted am = Some a ->
  challengesLoop am ps acc =
  match List.filter (attemptedBit am a) ps with
  | [] => Ok acc
  | hits =>
      match populateAttemptedFields am (pendingChallenge am a) with
      | Err e => Err e
      | Ok c => Ok (acc ++ map (fun _ => withValidated am c) hits)
      end
  end.
Proof.
  intros Ha. revert acc. induction ps as [| pos ps IH]; intros acc; [reflexivity |].
  cbn [challengesLoop List.filter]. unfold attemptedBit at 1.
  destruct (bitSet (am_Challenges am) pos); [| rewrite andb_false_r; apply IH].
  rewrite Ha, andb_true_r. fold (challTypeAt a) (challTypeAt pos).
  destruct (String.eqb_spec (challTypeAt a) (challTypeAt pos)) as [E | _]; [| apply IH].
  change (mkChallenge (challTypeAt pos) core.StatusPending
            (RawURLEncoding_EncodeToString (am_Token am)) None None [])
    with (pendingChallenge am pos).
  assert (Hc : pendingChallenge am pos = pendingChallenge am a)
    by (unfold pendingChallenge; rewrite E; reflexivity).
  rewrite Hc.
  destruct (populateAttemptedFields am (pendingChallenge am a)) as [c | e];
    [| reflexivity].
  fold (withValidated am c). rewrite IH.
  destruct (List.filter (attemptedBit am a) ps); [reflexivity |].
  rewrite <- app_assoc. reflexivity.
Qed.

(** For one of the four defined challenge types, the only bit with its type
    name is its own. *)
Lemma attempted_hits (am : authzModel) (a : Z) :
  0 <= a <= 3 ->
  List.filter (attemptedBit am a) positions =
  if bitSet (am_Challenges am) a then [a] else [].
Proof.
  intros Ha. unfold positions, attemptedBit.
  assert (Hcases : a = 0 \/ a = 1 \/ a = 2 \/ a = 3) by lia.
  destruct Hcases as [-> | [-> | [-> | ->]]]; simpl;
    destruct (bitSet (am_Challenges am) _); reflexivity.
Qed.

Lemma attemptedStatus_spec (am : authzModel) :
  (attemptedStatus am = core.StatusInvalid <-> am_ValidationError am <> EmptyString) /\
  (attemptedStatus am = core.StatusValid <-> am_ValidationError am = EmptyString).
Proof.
  unfold attemptedStatus. destruct (am_ValidationError am); simpl.
  - split; split; intros; try reflexivity; try discriminate; contradiction.
  - split; split; intros; try reflexivity; discriminate.
Qed.

Lemma populated_surfaced (am : authzModel) (a : Z) (c : Challenge VRPB PDPB) :
  populateAttemptedFields am (pendingChallenge am a) = Ok c ->
  surfacedAttempted am a (withValidated am c).
Proof.
  intros Hp. apply populateAttemptedFields_ok in Hp as (Ht & Hk & _ & Hs & _).
  unfold surfacedAttempted, withValidated. simpl. rewrite Ht, Hk, Hs.
  destruct (attemptedStatus_spec am) as [Hi Hv]. repeat split; tauto.
Qed.

(** The surface form of any row: [modelToAuthzPB] returns an error for an
    identifier-type code that is not a known one; for a known code, the
    challenges of a row without an attempt and of a row with one, and when
    an authorization is returned. *)
Lemma modelToAuthzPB_surface (am : authzModel) :
  (uintToIdentifierType !! am_IdentifierType am = None ->
   exists e, modelToAuthzPB am = Err e) /\
  (is_Some (uintToIdentifierType !! am_IdentifierType am) ->
   (am_Attempted am = None ->
    exists pb,
      modelToAuthzPB am = Ok pb /\
      pb_Challenges pb =
        map (pendingChallenge am)
            (List.filter (bitSet (am_Challenges am)) positions)) /\
   (forall a, am_Attempted am = Some a ->
      (forall pb, modelToAuthzPB am = Ok pb ->
         Forall (surfacedAttempted am a) (pb_Challenges pb) /\
         length (pb_Challenges pb)
           = length (List.filter (attemptedBit am a) positions) /\
         (0 <= a <= 3 -> bitSet (am_Challenges am) a = true ->
          exists c, pb_Challenges pb = [c]) /\
         (0 <= a <= 3 -> bitSet (am_Challenges am) a = false ->
          pb_Challenges pb = [])) /\
      ((exists pb, modelToAuthzPB am = Ok pb) <->
       (List.filter (attemptedBit am a) positions = [] \/
        exists c, populateAttemptedFields am (pendingChallenge am a) = Ok c)))).
Proof.
  unfold modelToAuthzPB. split.
  - intros ->. eauto.
  - intros [identType ->]. split.
    + intros Ha. rewrite (challengesLoop_unattempted am positions [] Ha).
      eexists. split; reflexivity.
    + intros a Ha. rewrite (challengesLoop_attempted am a positions [] Ha).
      pose proof (attempted_hits am a) as Hhits.
      destruct (List.filter (attemptedBit am a) positions) as [| h hits] eqn:Ef.
      * split.
        -- intros pb [= <-]. cbn [pb_Challenges length].
           split; [constructor | split; [reflexivity | split]].
           ++ intros Hr Hb. rewrite Hb in Hhits. specialize (Hhits Hr). discriminate.
           ++ reflexivity.
        -- split; [auto | eauto].
      * destruct (populateAttemptedFields am (pendingChallenge am a)) as [c | e] eqn:Ep.
        -- split.
           ++ intros pb [= <-]. cbn [pb_Challenges app].
              pose proof (populated_surfaced am a c Ep) as Hs.
              split; [| split; [| split]].
              ** apply List.Forall_forall. intros x Hx.
                 apply (List.in_map_iff (fun _ : Z => withValidated am c) (h :: hits))
                   in Hx.
                 destruct Hx as (? & <- & _). exact Hs.
              ** cbn [length]. rewrite length_map. reflexivity.
              ** intros Hr Hb. rewrite Hb in Hhits. specialize (Hhits Hr).
                 injection Hhits as -> ->. eexists. reflexivity.
              ** intros Hr Hb. rewrite Hb in Hhits. specialize (Hhits Hr). discriminate.
           ++ split; [eauto | eauto].
        -- split; [discriminate |].
           split; [intros [pb Hpb]; discriminate |].
           intros [Hn | [c Hc]]; discriminate.
Qed.

(** C8: for a stored authorization row, [modelToAuthzPB] surfaces one
    pending challenge per set bit of the challenge bitmap when no challenge
    has been attempted; once the attempted field is set, a returned
    authorization holds the attempted challenge alone, with a status that
    is invalid exactly when a validation error is stored and valid
    otherwise and with the attempt time, and no challenge when the bit of
    the attempted type is not set: the other challenges are gone. An
    authorization is returned exactly when that bit is not set or the stored
    validation error and record decode. *)
Theorem modelToAuthzPB_challenges (am : authzModel) :
  storedRow am ->
  (am_Attempted am = None ->
   exists pb,
     modelToAuthzPB am = Ok pb /\
     pb_Challenges pb =
       map (pendingChallenge am)
           (List.filter (bitSet (am_Challenges am)) positions)) /\
  (forall a, am_Attempted am = Some a ->
     (forall pb, modelToAuthzPB am = Ok pb ->
        (bitSet (am_Challenges am) a = true ->
         exists c, pb_Challenges pb = [c] /\ surfacedAttempted am a c) /\
        (bitSet (am_Challenges am) a = false -> pb_Challenges pb = [])) /\
     ((exists pb, modelToAuthzPB am = Ok pb) <->
      (bitSet (am_Challenges am) a = false \/
       exists c, populateAttemptedFields am (pendingChallenge am a) = Ok c))).
Proof.
  intros [Htype Hatt].
  assert (Hknown : is_Some (uintToIdentifierType !! am_IdentifierType am)).
  { destruct Htype as [-> | ->]; eexists; reflexivity. }
  destruct (proj2 (modelToAuthzPB_surface am) Hknown) as [Hnone Hsome].
  split; [exact Hnone |].
  intros a Ha. specialize (Hatt a Ha).
  destruct (Hsome a Ha) as [Hpb Hiff]. split.
  - intros pb Hok. destruct (Hpb pb Hok) as (Hall & _ & Hone & Hzero). split.
    + intros Hb. destruct (Hone Hatt Hb) as [c Hc]. exists c.
      split; [exact Hc |]. rewrite Hc in Hall.
      inversion Hall as [| ? ? Hs _]; subst. exact Hs.
    + intros Hb. exact (Hzero Hatt Hb).
  - rewrite Hiff, (attempted_hits am a Hatt).
    destruct (bitSet (am_Challenges am) a); split.
    + intros [H | H]; [discriminate | right; exact H].
    + intros [H | H]; [discriminate | right; exact H].
    + intros _. left. reflexivity.
    + intros _. left. reflexivity.
Qed.

End AuthzFacts.

(** C8, witness: a DNS row with the first three challenge types offered;
    nothing attempted, [dns-01] attempted without error, and [dns-01]
    attempted with a stored validation error. *)
Lemma modelToAuthzPB_challenges_witness :
  let row attempted attemptedAt validationError record :=
    sa.mkAuthzModel 17 0 "example.com" 1 None 0 1000 7 attempted attemptedAt "tok"
      validationError record in
  let convert := sa.modelToAuthzPB (fmt := Ref.RefFmt) (codec := Ref.RefCodec) in
  (exists pb,
     convert (row None None EmptyString EmptyString) = Ok pb /\
     map sa.ch_Type (sa.pb_Challenges pb) = ["http-01"; "dns-01"; "tls-alpn-01"] /\
     map sa.ch_Status (sa.pb_Challenges pb) = ["pending"; "pending"; "pending"]) /\
  (exists pb c,
     convert (row (Some 1%Z) (Some 500%Z) EmptyString "[]") = Ok pb /\
     sa.pb_Challenges pb = [c] /\ sa.ch_Type c = "dns-01" /\
     sa.ch_Status c = "valid") /\
  (exists pb c,
     convert (row (Some 1%Z) (Some 500%Z) (Ref.detailJSON "no TXT record") "[]")
     = Ok pb /\
     sa.pb_Challenges pb = [c] /\ sa.ch_Type c = "dns-01" /\
     sa.ch_Status c = "invalid").
Proof.
  intros row convert.
  assert (Hstored : forall attempted attemptedAt validationError record,
            (attempted = None \/ attempted = Some 1%Z) ->
            storedRow (row attempted attemptedAt validationError record)).
  { intros attempted attemptedAt validationError record Hatt. split.
    - left. reflexivity.
    - intros a Ha. cbn in Ha. destruct Hatt as [-> | ->]; [discriminate |].
      injection Ha as <-. lia. }
  split; [| split].
  - destruct (modelToAuthzPB_challenges (fmt := Ref.RefFmt) (codec := Ref.RefCodec)
                (row None None EmptyString EmptyString)
                (Hstored _ _ _ _ (or_introl eq_refl))) as [Hn _].
    destruct (Hn eq_refl) as (pb & Hpb & Hc). exists pb.
    split; [exact Hpb |]. rewrite Hc. split; reflexivity.
  - destruct (modelToAuthzPB_challenges (fmt := Ref.RefFmt) (codec := Ref.RefCodec)
                (row (Some 1%Z) (Some 500%Z) EmptyString "[]")
                (Hstored _ _ _ _ (or_intror eq_refl))) as [_ Ha].
    destruct (Ha 1%Z eq_refl) as [Hall Hiff].
    destruct (proj2 Hiff) as [pb Hpb]; [right; eexists; reflexivity |].
    destruct (Hall pb Hpb) as [Hone _].
    destruct (Hone eq_refl) as (c & Hc & Ht & _ & Hv & _). exists pb, c.
    split; [exact Hpb |]. split; [exact Hc |].
    split; [exact Ht | apply Hv; reflexivity].
  - destruct (modelToAuthzPB_challenges (fmt := Ref.RefFmt) (codec := Ref.RefCodec)
                (row (Some 1%Z) (Some 500%Z) (Ref.detailJSON "no TXT record") "[]")
                (Hstored _ _ _ _ (or_intror eq_refl))) as [_ Ha].
    destruct (Ha 1%Z eq_refl) as [Hall _].
    assert (Hconv : exists pb,
              convert (row (Some 1%Z) (Some 500%Z) (Ref.detailJSON "no TXT record") "[]")
              = Ok pb) by (vm_compute; eexists; reflexivity).
    destruct Hconv as [pb Hpb].
    destruct (Hall pb Hpb) as [Hone _].
    destruct (Hone eq_refl) as (c & Hc & Ht & Hi & _ & _). exists pb, c.
    split; [exact Hpb |]. split; [exact Hc |].
    split; [exact Ht | apply Hi; vm_compute; discriminate].
Defined.

(** ** The export of rate-limit overrides *)

Section Comparisons.

Lemma cmp_eq_r {A} (cmp : A -> A -> comparison) (O : OrderCmp cmp) (x y z : A) :
  cmp y z = Eq -> cmp x y = cmp x z.
Proof.
  intros E. rewrite (cmp_antisym cmp O x y), (cmp_antisym cmp O x z).
  f_equal. apply (cmp_eq_l cmp O). exact E.
Qed.

(** The comparison on a key of the elements. *)
Lemma OrderCmp_on {A K} (key : A -> K) (cmp : K -> K -> comparison) :
  OrderCmp cmp -> OrderCmp (fun a b => cmp (key a) (key b)).
Proof. intros [R S T E]. split; eauto. Qed.

(** The reversed comparison, for a descending key. *)
Lemma OrderCmp_flip {A} (cmp : A -> A -> comparison) :
  OrderCmp cmp -> OrderCmp (fun a b => cmp b a).
Proof.
  intros O. split.
  - intros x. apply (cmp_refl cmp O).
  - intros x y. apply (cmp_antisym cmp O).
  - intros x y z Hxy Hyz. apply (cmp_lt_trans cmp O z y x); assumption.
  - intros x y z Hxy. apply (cmp_eq_r cmp O).
    rewrite (cmp_antisym cmp O), Hxy. reflexivity.
Qed.

Lemma OrderCmp_lex {A} (c1 c2 : A -> A -> comparison) :
  OrderCmp c1 -> OrderCmp c2 -> OrderCmp (lex c1 c2).
Proof.
  intros O1 O2. unfold lex. split.
  - intros x. rewrite (cmp_refl c1 O1). apply (cmp_refl c2 O2).
  - intros x y. rewrite (cmp_antisym c1 O1 x y).
    destruct (c1 y x); simpl; [apply (cmp_antisym c2 O2) | reflexivity..].
  - intros x y z.
    destruct (c1 x y) eqn:Exy; [| | discriminate];
      destruct (c1 y z) eqn:Eyz; try discriminate; intros Hxy Hyz.
    + rewrite (cmp_eq_l c1 O1 x y z Exy), Eyz.
      apply (cmp_lt_trans c2 O2 x y z); assumption.
    + rewrite (cmp_eq_l c1 O1 x y z Exy), Eyz. reflexivity.
    + rewrite <- (cmp_eq_r c1 O1 x y z Eyz), Exy. reflexivity.
    + rewrite (cmp_lt_trans c1 O1 x y z Exy Eyz). reflexivity.
  - intros x y z. destruct (c1 x y) eqn:Exy; try discriminate. intros Hxy.
    rewrite (cmp_eq_l c1 O1 x y z Exy), (cmp_eq_l c2 O2 x y z Hxy). reflexivity.
Qed.

Lemma string_compare_refl (s : string) : String.compare s s = Eq.
Proof.
  induction s as [| a s IH]; [reflexivity |].
  simpl. unfold Ascii.compare. rewrite N.compare_refl. exact IH.
Qed.

Lemma string_compare_lt_trans (x y z : string) :
  String.compare x y = Lt -> String.compare y z = Lt -> String.compare x z = Lt.
Proof.
  revert y z. induction x as [| a x IH]; intros [| b y] [| c z]; simpl;
    try discriminate; try reflexivity.
  destruct (Ascii.compare a b) eqn:Eab; [| | discriminate];
    destruct (Ascii.compare b c) eqn:Ebc; try discriminate.
  - apply Ascii.compare_eq_iff in Eab, Ebc. subst.
    unfold Ascii.compare. rewrite N.compare_refl. apply IH.
  - apply Ascii.compare_eq_iff in Eab. subst. rewrite Ebc. reflexivity.
  - apply Ascii.compare_eq_iff in Ebc. subst. rewrite Eab. reflexivity.
  - unfold Ascii.compare in Eab, Ebc |- *.
    pose proof (proj1 (N.compare_lt_iff _ _) Eab) as Hab.
    pose proof (proj1 (N.compare_lt_iff _ _) Ebc) as Hbc.
    assert (Hac : (N_of_ascii a ?= N_of_ascii c)%N = Lt)
      by (apply N.compare_lt_iff; lia).
    rewrite Hac. reflexivity.
Qed.

Lemma OrderCmp_string : OrderCmp String.compare.
Proof.
  split.
  - apply string_compare_refl.
  - apply String.compare_antisym.
  - apply string_compare_lt_trans.
  - intros x y z E. apply String.compare_eq_iff in E. subst. reflexivity.
Qed.

Lemma OrderCmp_Z : OrderCmp Z.compare.
Proof.
  split.
  - apply Z.compare_refl.
  - intros x y. apply Z.compare_antisym.
  - intros x y z Hxy Hyz.
    pose proof (proj1 (Z.compare_lt_iff _ _) Hxy).
    pose proof (proj1 (Z.compare_lt_iff _ _) Hyz).
    apply Z.compare_lt_iff. lia.
  - intros x y z E. apply Z.compare_eq in E. subst. reflexivity.
Qed.

Lemma StrictWeakOrder_of_cmp {A} (cmp : A -> A -> comparison) (less : A -> A -> bool) :
  OrderCmp cmp ->
  (forall x y, less x y = match cmp x y with Lt => true | _ => false end) ->
  StrictWeakOrder less.
Proof.
  intros O Hl. split; [| split].
  - intros x. rewrite Hl, (cmp_refl cmp O). reflexivity.
  - intros x y z. rewrite !Hl.
    destruct (cmp x y) eqn:Exy; try discriminate.
    destruct (cmp y z) eqn:Eyz; try discriminate.
    rewrite (cmp_lt_trans cmp O x y z Exy Eyz). reflexivity.
  - intros x y z. rewrite !Hl.
    rewrite (cmp_antisym cmp O y x), (cmp_antisym cmp O z y), (cmp_antisym cmp O z x).
    destruct (cmp x y) eqn:Exy; simpl; try discriminate.
    destruct (cmp y z) eqn:Eyz; simpl; try discriminate.
    rewrite (cmp_eq_l cmp O x y z Exy), Eyz. simpl. auto.
Qed.

End Comparisons.

Section OverrideFacts.
Import GoStrings ratelimits.

Local Open Scope Z_scope.

Lemma OrderCmp_rowCompare : OrderCmp rowCompare.
Proof.
  unfold rowCompare.
  repeat apply OrderCmp_lex;
    first [ apply (OrderCmp_on _ String.compare OrderCmp_string)
          | apply (OrderCmp_flip (fun a b : row => Z.compare (count a) (count b))),
            (OrderCmp_on count Z.compare OrderCmp_Z)
          | apply (OrderCmp_flip (fun a b : row => Z.compare (burst a) (burst b))),
            (OrderCmp_on burst Z.compare OrderCmp_Z) ].
Qed.

(** One key of the comparison: either the rows differ on it and it decides,
    or they agree and the next key is looked at. *)
Ltac string_key a b :=
  destruct (String.eqb_spec a b) as [-> | ?]; simpl;
  [ rewrite string_compare_refl
  | let E := fresh "E" in
    destruct (String.compare a b) eqn:E; try reflexivity;
    apply String.compare_eq_iff in E; contradiction ].

Ltac Z_key a b :=
  destruct (Z.eqb_spec a b) as [-> | ?]; simpl;
  [ rewrite Z.compare_refl
  | let E := fresh "E" in
    destruct (Z.compare b a) eqn:E; try reflexivity;
    apply Z.compare_eq in E; congruence ].

(** The [less] of [DumpOverrides] is [rowCompare] read as a strict order. *)
Lemma rowLess_compare (ri rj : row) :
  rowLess ri rj = match rowCompare ri rj with Lt => true | _ => false end.
Proof.
  destruct ri as [n1 i1 c1 b1 p1 m1], rj as [n2 i2 c2 b2 p2 m2].
  unfold rowLess, rowCompare, lex, stringLess, String.ltb, Z.ltb. simpl.
  string_key n1 n2. Z_key c1 c2. Z_key b1 b2. string_key p1 p2. string_key m1 m2.
  reflexivity.
Qed.

Lemma rowLess_strict_weak : StrictWeakOrder rowLess.
Proof.
  apply (StrictWeakOrder_of_cmp rowCompare); [apply OrderCmp_rowCompare |].
  apply rowLess_compare.
Qed.

Context {fmt : Fmt} {names : Names} {runtime : Runtime} {sorter : Sort}.

Lemma twoOverrides_entries :
  map_to_list twoOverrides =
  [("1:10.0.0.1"%string, weekOverride); ("1:10.0.0.2"%string, dayOverride)].
Proof. vm_compute. reflexivity. Qed.

(** The loop that writes the rows: it writes the first of them, up to the
    first write that fails, whose error it returns; when no write fails it
    writes them all and returns the error of the writer. *)
Lemma writeLoop_spec (path : string) (rows : list row) (written : list (list string)) :
  exists rest,
    (fst (writeLoop path rows written) ++ rest = written ++ map csvRecord rows) /\
    match rest with
    | [] =>
        snd (writeLoop path rows written)
        = Writer_Error path (fst (writeLoop path rows written))
    | record :: _ =>
        snd (writeLoop path rows written)
        = Writer_Write path (fst (writeLoop path rows written)) record /\
        is_Some (snd (writeLoop path rows written))
    end.
Proof.
  revert written. induction rows as [| r rows IH]; intros written; simpl.
  - exists []. split; reflexivity.
  - destruct (Writer_Write path written (csvRecord r)) as [err |] eqn:Hw.
    + exists (csvRecord r :: map csvRecord rows). simpl.
      split; [reflexivity |]. split; [symmetry; exact Hw | eauto].
    + destruct (IH (written ++ [csvRecord r])) as (rest & Heq & Hrest).
      exists rest. split; [| exact Hrest].
      rewrite Heq, <- app_assoc. reflexivity.
Qed.

(** A dump that has created the file: all keys were parsed, and the records
    written are the first of the header and the sorted rows, up to the first
    write that fails. *)
Lemma DumpOverridesIn_created (path : string) (entries : list (string * Limit))
    (records : list (list string)) (err : option error) :
  DumpOverridesIn path entries = (Some records, err) ->
  exists parsed rest,
    rowsLoop entries [] = Ok parsed /\
    os_Create path = None /\
    records ++ rest = csvHeader :: map csvRecord (sort_Slice rowLess parsed) /\
    match rest with
    | [] => err = Writer_Error path records
    | record :: _ => err = Writer_Write path records record /\ is_Some err
    end.
Proof.
  unfold DumpOverridesIn.
  destruct (rowsLoop entries []) as [parsed | e]; [| discriminate].
  destruct (os_Create path); [discriminate |].
  destruct (Writer_Write path [] csvHeader) as [e |] eqn:Hh.
  - intros [= <- <-]. eexists parsed, _. split; [reflexivity |].
    split; [reflexivity |]. split; [reflexivity |]. split; [symmetry; exact Hh | eauto].
  - destruct (writeLoop_spec path (sort_Slice rowLess parsed) [csvHeader])
      as (rest & Heq & Hrest).
    destruct (writeLoop path (sort_Slice rowLess parsed) [csvHeader])
      as [written werr].
    intros [= <- <-]. exists parsed, rest.
    split; [reflexivity |]. split; [reflexivity |]. split; [exact Heq | exact Hrest].
Qed.

(** X1: the rows [DumpOverrides] writes are the parsed rows, reordered so
    that none is less than an earlier one in the order of [rowLess]: name
    ascending, count descending, burst descending, then the texts of
    period, comment and id ascending byte-wise. The records written are the
    first of the header and these rows, and all of them when no error is
    returned. *)
Lemma DumpOverridesIn_sorted {laws : SortLaws} (path : string)
    (entries : list (string * Limit)) (records : list (list string))
    (err : option error) :
  DumpOverridesIn path entries = (Some records, err) ->
  exists parsed rows,
    rowsLoop entries [] = Ok parsed /\
    Permutation rows parsed /\
    StronglySorted (fun x y => rowLess y x = false) rows /\
    records `prefix_of` csvHeader :: map csvRecord rows /\
    (err = None -> records = csvHeader :: map csvRecord rows).
Proof.
  intros H. apply DumpOverridesIn_created in H as (parsed & rest & Hp & _ & Heq & Hrest).
  exists parsed, (sort_Slice rowLess parsed).
  split; [exact Hp |].
  split; [apply sort_Slice_perm |].
  split; [apply sort_Slice_sorted, rowLess_strict_weak |].
  split; [exists rest; symmetry; exact Heq |].
  intros ->. destruct rest as [| record rest].
  - rewrite app_nil_r in Heq. exact Heq.
  - destruct Hrest as [_ [x Hx]]. discriminate Hx.
Qed.

(** C3, the code at the failing input: with the same name, count and burst,
    the override with the period of a week is written before the one with
    the period of a day, whatever the order in which the map is ranged
    over: [168h0m0s] is before [24h0m0s] as text. A dump that returns no
    error has written the header, the row of the week and the row of the
    day, in this order; a dump that a failed write cuts short has written
    the first of these three records. *)
Theorem DumpOverrides_period_order {laws : SortLaws} (path : string)
    (out : option (list (list string)) * option error) :
  Atoi "1" = Some 1 ->
  isValid 1 = true ->
  Duration_String 604800000000000 = "168h0m0s"%string ->
  Duration_String 86400000000000 = "24h0m0s"%string ->
  os_Create path = None ->
  DumpOverrides path twoOverrides out ->
  let records :=
    [csvHeader;
     [Name_String 1; "10.0.0.1"; FormatInt 10; FormatInt 10; "168h0m0s";
      EmptyString]%string;
     [Name_String 1; "10.0.0.2"; FormatInt 10; FormatInt 10; "24h0m0s";
      EmptyString]%string] in
  (exists written, fst out = Some written /\ written `prefix_of` records) /\
  (snd out = None -> fst out = Some records).
Proof.
  intros Hatoi Hvalid Hweek Hday Hcreate (entries & Hperm & ->) records.
  rewrite twoOverrides_entries in Hperm.
  set (week := mkRow (Name_String 1) "10.0.0.1" 10 10 "168h0m0s" EmptyString).
  set (day := mkRow (Name_String 1) "10.0.0.2" 10 10 "24h0m0s" EmptyString).
  assert (Hrows : exists parsed, rowsLoop entries [] = Ok parsed /\
                                 Permutation parsed [week; day]).
  { apply Permutation_sym, Permutation_length_2_inv in Hperm.
    destruct Hperm as [-> | ->]; simpl; unfold parseOverrideNameEnumId; simpl;
      rewrite !Hatoi; simpl; rewrite !Hvalid; simpl;
      rewrite Hweek, Hday; eexists; (split; [reflexivity |]).
    - reflexivity.
    - apply perm_swap. }
  destruct Hrows as (parsed & Hparsed & Hpp).
  assert (Hsorted : sort_Slice rowLess parsed = [week; day]).
  { pose proof (sort_Slice_perm row rowLess parsed) as Hp.
    pose proof (sort_Slice_sorted row rowLess parsed rowLess_strict_weak) as Hs.
    pose proof (Permutation_trans Hp Hpp) as Hq. clear Hp.
    apply Permutation_sym, Permutation_length_2_inv in Hq. rename Hq into Hp.
    destruct Hp as [Hp | Hp]; [exact Hp |].
    rewrite Hp in Hs. apply StronglySorted_inv in Hs as [_ Hs].
    apply Forall_inv in Hs. exfalso. revert Hs.
    unfold rowLess, week, day. simpl.
    rewrite String.eqb_refl. simpl. discriminate. }
  destruct (DumpOverridesIn path entries) as [[written |] err] eqn:Hd.
  2: { exfalso. revert Hd. unfold DumpOverridesIn. rewrite Hparsed, Hcreate.
       destruct (Writer_Write path [] csvHeader); [discriminate |].
       destruct (writeLoop path _ _). discriminate. }
  apply DumpOverridesIn_created in Hd as (parsed' & rest & Hp' & _ & Heq & Hrest).
  rewrite Hparsed in Hp'. injection Hp' as <-. rewrite Hsorted in Heq.
  change (csvHeader :: map csvRecord [week; day]) with records in Heq.
  cbn [fst snd]. split.
  - exists written. split; [reflexivity |]. exists rest. symmetry. exact Heq.
  - intros ->. destruct rest as [| record rest].
    + rewrite app_nil_r in Heq. rewrite Heq. reflexivity.
    + destruct Hrest as [_ [x Hx]]. discriminate Hx.
Qed.

End OverrideFacts.

Lemma insertBy_perm {A} (less : A -> A -> bool) (x : A) (l : list A) :
  Permutation (Ref.insertBy less x l) (x :: l).
Proof.
  induction l as [| y l IH]; simpl; [reflexivity |].
  destruct (less x y); [reflexivity |].
  rewrite IH. apply perm_swap.
Qed.

Lemma insertBy_sorted {A} (less : A -> A -> bool) (x : A) (l : list A) :
  StrictWeakOrder less ->
  StronglySorted (fun a b => less b a = false) l ->
  StronglySorted (fun a b => less b a = false) (Ref.insertBy less x l).
Proof.
  intros (Hirr & Htr & _) Hs. induction Hs as [| y l Hs IH Hy]; simpl.
  - repeat constructor.
  - destruct (less x y) eqn:Exy.
    + constructor; [constructor; assumption |].
      constructor.
      * destruct (less y x) eqn:Eyx; [| reflexivity].
        pose proof (Htr x y x Exy Eyx) as Hxx. rewrite (Hirr x) in Hxx.
        discriminate.
      * apply List.Forall_forall. intros z Hz.
        rewrite List.Forall_forall in Hy. specialize (Hy z Hz).
        destruct (less z x) eqn:Ezx; [| reflexivity].
        rewrite (Htr z x y Ezx Exy) in Hy. discriminate.
    + constructor; [exact IH |].
      apply List.Forall_forall. intros z Hz.
      apply (Permutation_in _ (insertBy_perm less x l)) in Hz.
      destruct Hz as [<- | Hz]; [exact Exy |].
      rewrite List.Forall_forall in Hy. apply Hy, Hz.
Qed.

(** The reference sort keeps what [sort.Slice] promises. *)
Lemma RefSort_laws : SortLaws (sorter := Ref.RefSort).
Proof.
  split.
  - intros A less l. simpl. unfold Ref.insertionSort.
    induction l as [| x l IH]; simpl; [reflexivity |].
    rewrite insertBy_perm, IH. reflexivity.
  - intros A less l Hswo. simpl. unfold Ref.insertionSort.
    induction l as [| x l IH]; simpl; [constructor |].
    apply insertBy_sorted; assumption.
Qed.

(** C3, witness: the export of the two overrides, ranged over in either
    order. *)
Lemma DumpOverrides_period_order_witness :
  let dump entries :=
    fst (ratelimits.DumpOverridesIn (fmt := Ref.RefFmt) (names := Ref.RefNames)
           (runtime := Ref.RefRuntime) (sorter := Ref.RefSort)
           "overrides.csv" entries) in
  let written :=
    Some [["name"; "id"; "count"; "burst"; "period"; "comment"];
          ["NewRegistrationsPerIPAddress"; "10.0.0.1"; "10"; "10"; "168h0m0s";
           EmptyString];
          ["NewRegistrationsPerIPAddress"; "10.0.0.2"; "10"; "10"; "24h0m0s";
           EmptyString]]%string in
  dump [("1:10.0.0.1"%string, weekOverride); ("1:10.0.0.2"%string, dayOverride)]
    = written /\
  dump [("1:10.0.0.2"%string, dayOverride); ("1:10.0.0.1"%string, weekOverride)]
    = written.
Proof.
  intros dump written. split.
  - refine (proj2 (DumpOverrides_period_order (fmt := Ref.RefFmt)
                     (names := Ref.RefNames) (runtime := Ref.RefRuntime)
                     (laws := RefSort_laws) "overrides.csv"
                     (ratelimits.DumpOverridesIn "overrides.csv"
                        [("1:10.0.0.1"%string, weekOverride);
                         ("1:10.0.0.2"%string, dayOverride)])
                     eq_refl eq_refl eq_refl eq_refl eq_refl _) _).
    + eexists. split; [| reflexivity].
      rewrite twoOverrides_entries. reflexivity.
    + reflexivity.
  - refine (proj2 (DumpOverrides_period_order (fmt := Ref.RefFmt)
                     (names := Ref.RefNames) (runtime := Ref.RefRuntime)
                     (laws := RefSort_laws) "overrides.csv"
                     (ratelimits.DumpOverridesIn "overrides.csv"
                        [("1:10.0.0.2"%string, dayOverride);
                         ("1:10.0.0.1"%string, weekOverride)])
                     eq_refl eq_refl eq_refl eq_refl eq_refl _) _).
    + eexists. split; [| reflexivity].
      rewrite twoOverrides_entries. apply perm_swap.
    + reflexivity.
Defined.

(** X1, witness: the export of the two overrides. *)
Lemma DumpOverridesIn_sorted_witness :
  exists parsed rows,
    ratelimits.rowsLoop (fmt := Ref.RefFmt) (names := Ref.RefNames)
      (runtime := Ref.RefRuntime)
      [("1:10.0.0.2"%string, dayOverride); ("1:10.0.0.1"%string, weekOverride)] []
    = Ok parsed /\
    Permutation rows parsed /\
    StronglySorted (fun x y => ratelimits.rowLess y x = false) rows /\
    [["name"; "id"; "count"; "burst"; "period"; "comment"];
     ["NewRegistrationsPerIPAddress"; "10.0.0.1"; "10"; "10"; "168h0m0s";
      EmptyString];
     ["NewRegistrationsPerIPAddress"; "10.0.0.2"; "10"; "10"; "24h0m0s";
      EmptyString]]%string
    = ratelimits.csvHeader
      :: map (ratelimits.csvRecord (runtime := Ref.RefRuntime)) rows.
Proof.
  destruct (DumpOverridesIn_sorted (fmt := Ref.RefFmt) (names := Ref.RefNames)
              (runtime := Ref.RefRuntime) (laws := RefSort_laws) "overrides.csv"
              [("1:10.0.0.2"%string, dayOverride); ("1:10.0.0.1"%string, weekOverride)]
              _ None eq_refl) as (parsed & rows & Hparsed & Hperm & Hsorted & _ & Hall).
  exists parsed, rows. split; [exact Hparsed |]. split; [exact Hperm |].
  split; [exact Hsorted | exact (Hall eq_refl)].
Defined.

(** ** Lists of identifiers *)

Section IssuanceFacts.
Import GoStrings identifier policy.
Context {netip : NetIP} {iana : IANA} {unicode : Unicode} {fmt : Fmt}.

Lemma wellFormedLoop_omap (idents : list ACMEIdentifier)
    (acc : list berrors.SubBoulderError) :
  wellFormedLoop idents acc = acc ++ omap (subErrorOf identError) idents.
Proof.
  revert acc. induction idents as [| ident rest IH]; intros acc; simpl.
  - rewrite app_nil_r. reflexivity.
  - unfold subErrorOf at 1, identError at 1.
    destruct (String.eqb (Type_ ident) TypeDNS).
    + destruct (ValidDomain (Value ident)); simpl; rewrite IH;
        [rewrite <- app_assoc |]; reflexivity.
    + destruct (String.eqb (Type_ ident) TypeIP).
      * destruct (ValidIP (Value ident)); simpl; rewrite IH;
          [rewrite <- app_assoc |]; reflexivity.
      * simpl. rewrite IH, <- app_assoc. reflexivity.
Qed.

Lemma willingLoop_omap (pa : AuthorityImpl) (idents : list ACMEIdentifier)
    (acc : list berrors.SubBoulderError) :
  willingLoop pa idents acc = acc ++ omap (subErrorOf (blockError pa)) idents.
Proof.
  revert acc. induction idents as [| ident rest IH]; intros acc; simpl.
  - rewrite app_nil_r. reflexivity.
  - unfold subErrorOf at 1, blockError at 1.
    destruct (negb (IdentifierTypeEnabled pa (Type_ ident))).
    + simpl. rewrite IH, <- app_assoc. reflexivity.
    + destruct (if String.eqb (Type_ ident) TypeDNS && (0 <? Count (Value ident) "*")%nat
                then checkWildcardBlocklist pa (TrimPrefix (Value ident) "*.")
                else None).
      * simpl. rewrite IH, <- app_assoc. reflexivity.
      * destruct (checkBlocklists pa ident); simpl; rewrite IH;
          [rewrite <- app_assoc |]; reflexivity.
Qed.

Lemma combineSubErrors_None (subErrors : list berrors.SubBoulderError) :
  combineSubErrors subErrors = None <-> subErrors = [].
Proof.
  destruct subErrors as [| e [| e' rest]]; simpl; split; congruence.
Qed.

Lemma omap_nil_Forall {A B} (f : A -> option B) (l : list A) :
  omap f l = [] <-> Forall (fun a => f a = None) l.
Proof.
  induction l as [| a l IH]; simpl.
  - split; [constructor | reflexivity].
  - destruct (f a) eqn:E.
    + split; [discriminate | intros H; inversion H; congruence].
    + rewrite IH. split; [intros H; constructor; assumption | intros H; inversion H; assumption].
Qed.

Lemma omap_length_le {A B} (f : A -> option B) (l : list A) :
  (length (omap f l) <= length l)%nat.
Proof.
  induction l as [| a l IH]; simpl; [lia |].
  destruct (f a); simpl; [apply le_n_S | apply Nat.le_le_succ_r]; exact IH.
Qed.

Lemma subErrorOf_None (check : ACMEIdentifier -> option error) (ident : ACMEIdentifier) :
  subErrorOf check ident = None <-> check ident = None.
Proof. unfold subErrorOf. destruct (check ident); simpl; split; congruence. Qed.

Lemma WellFormedIdentifiers_None (idents : list ACMEIdentifier) :
  WellFormedIdentifiers idents = None <-> Forall (fun i => identError i = None) idents.
Proof.
  unfold WellFormedIdentifiers.
  rewrite combineSubErrors_None, wellFormedLoop_omap, app_nil_l, omap_nil_Forall.
  apply Forall_iff. intros i. apply subErrorOf_None.
Qed.

Lemma WillingToIssue_None (pa : AuthorityImpl) (idents : list ACMEIdentifier) :
  WillingToIssue pa idents = None <->
  Forall (fun i => identError i = None /\ blockError pa i = None) idents.
Proof.
  unfold WillingToIssue.
  destruct (WellFormedIdentifiers idents) eqn:W.
  - split; [discriminate |].
    intros H. assert (WellFormedIdentifiers idents = None) as W'; [| congruence].
    apply WellFormedIdentifiers_None.
    eapply Forall_impl; [exact H |]. intros i [Hi _]. exact Hi.
  - apply WellFormedIdentifiers_None in W.
    rewrite combineSubErrors_None, willingLoop_omap, app_nil_l, omap_nil_Forall.
    split; intros H.
    + rewrite Forall_forall in *. intros i Hi. split; [apply W; exact Hi |].
      apply subErrorOf_None. apply H. exact Hi.
    + eapply Forall_impl; [exact H |]. intros i [_ Hi]. apply subErrorOf_None. exact Hi.
Qed.

(** X3: [WillingToIssue] accepts a list of identifiers exactly when it
    accepts each of them on its own. *)
Theorem WillingToIssue_each (pa : AuthorityImpl) (idents : list ACMEIdentifier) :
  WillingToIssue pa idents = None <->
  Forall (fun ident => WillingToIssue pa [ident] = None) idents.
Proof.
  rewrite WillingToIssue_None. apply Forall_iff. intros i.
  rewrite WillingToIssue_None. split.
  - intros H. constructor; [exact H | constructor].
  - intros H. inversion H. assumption.
Qed.


Lemma subError_Identifier (ident : ACMEIdentifier) (e : error) :
  berrors.sub_Identifier (subError ident e) = ident.
Proof. destruct e; reflexivity. Qed.

Lemma subError_Detail (ident : ACMEIdentifier) (e : error) :
  berrors.Detail (berrors.sub_BoulderError (subError ident e)) = Error e.
Proof. destruct e; reflexivity. Qed.

Lemma omap_subErrorOf_idents (check : ACMEIdentifier -> option error)
    (idents : list ACMEIdentifier) :
  map berrors.sub_Identifier (omap (subErrorOf check) idents) =
  List.filter (fun i => bool_decide (is_Some (check i))) idents.
Proof.
  induction idents as [| i rest IH]; simpl; [reflexivity |].
  unfold subErrorOf at 1. destruct (check i) as [e |] eqn:E; simpl.
  - f_equal; [apply subError_Identifier | exact IH].
  - exact IH.
Qed.

Lemma omap_subErrorOf_Forall (check : ACMEIdentifier -> option error)
    (idents : list ACMEIdentifier) :
  Forall (fun s => exists e, check (berrors.sub_Identifier s) = Some e /\
                             s = subError (berrors.sub_Identifier s) e)
         (omap (subErrorOf check) idents).
Proof.
  induction idents as [| i rest IH]; simpl; [constructor |].
  unfold subErrorOf at 1. destruct (check i) as [e |] eqn:E; simpl; [| exact IH].
  constructor; [| exact IH].
  exists e. rewrite subError_Identifier. split; [exact E | reflexivity].
Qed.

(** What [combineSubErrors] makes of the sub-errors collected. *)
Lemma combineSubErrors_cases (subErrors : list berrors.SubBoulderError) :
  match subErrors with
  | [] => combineSubErrors subErrors = None
  | [s] =>
      combineSubErrors subErrors =
      Some (cannotIssue (berrors.sub_Identifier s)
              (berrors.Detail (berrors.sub_BoulderError s)))
  | _ =>
      exists be,
        combineSubErrors subErrors = Some (BoulderErr be) /\
        berrors.Type_ be = berrors.RejectedIdentifier /\
        berrors.SubErrors be = subErrors
  end.
Proof.
  destruct subErrors as [| s [| s' rest]]; simpl; [reflexivity | reflexivity |].
  eexists. split; [reflexivity |]. split; reflexivity.
Qed.

(** X4: [WellFormedIdentifiers] returns no error when every identifier is
    well formed; for one malformed identifier an error that names it and
    carries the message of its error, without sub-errors; for two or more an
    error with one sub-error per malformed identifier, in the order of the
    input, each holding the identifier and its error. *)
Theorem WellFormedIdentifiers_suberrors (idents : list ACMEIdentifier) :
  match malformed idents with
  | [] => WellFormedIdentifiers idents = None
  | [ident] =>
      exists e,
        identError ident = Some e /\
        WellFormedIdentifiers idents = Some (cannotIssue ident (Error e))
  | bad =>
      exists be,
        WellFormedIdentifiers idents = Some (BoulderErr be) /\
        berrors.Type_ be = berrors.RejectedIdentifier /\
        map berrors.sub_Identifier (berrors.SubErrors be) = bad /\
        Forall (fun s => exists e, identError (berrors.sub_Identifier s) = Some e /\
                                   s = subError (berrors.sub_Identifier s) e)
               (berrors.SubErrors be)
  end.
Proof.
  unfold WellFormedIdentifiers, malformed.
  rewrite wellFormedLoop_omap, app_nil_l.
  pose proof (omap_subErrorOf_idents identError idents) as Hm.
  pose proof (omap_subErrorOf_Forall identError idents) as Hf.
  pose proof (combineSubErrors_cases (omap (subErrorOf identError) idents)) as Hc.
  destruct (omap (subErrorOf identError) idents) as [| s [| s' rest]];
    simpl in Hm; rewrite <- Hm.
  - exact Hc.
  - inversion Hf as [| ? ? (e & He & Hs) _]; subst.
    exists e. split; [exact He |].
    rewrite Hc, Hs, subError_Detail, subError_Identifier. reflexivity.
  - destruct Hc as (be & Hbe & Ht & Hs). exists be.
    split; [exact Hbe |]. split; [exact Ht |]. rewrite Hs.
    split; [reflexivity | exact Hf].
Qed.

(** X5: an error of [WellFormedIdentifiers] or of [WillingToIssue] is a
    Boulder error of type [RejectedIdentifier], also when the identifier is
    malformed; it has no sub-error or at least two, and never more than
    there are identifiers. *)
Theorem WillingToIssue_error_type (pa : AuthorityImpl) (idents : list ACMEIdentifier)
    (e : error) :
  WellFormedIdentifiers idents = Some e \/ WillingToIssue pa idents = Some e ->
  exists be,
    e = BoulderErr be /\ berrors.Type_ be = berrors.RejectedIdentifier /\
    length (berrors.SubErrors be) <> 1%nat /\
    (length (berrors.SubErrors be) <= length idents)%nat.
Proof.
  assert (forall check,
            combineSubErrors (omap (subErrorOf check) idents) = Some e ->
            exists be,
              e = BoulderErr be /\ berrors.Type_ be = berrors.RejectedIdentifier /\
              length (berrors.SubErrors be) <> 1%nat /\
              (length (berrors.SubErrors be) <= length idents)%nat) as Hgen.
  { intros check Hc.
    pose proof (combineSubErrors_cases (omap (subErrorOf check) idents)) as Hcases.
    pose proof (omap_length_le (subErrorOf check) idents) as Hlen.
    destruct (omap (subErrorOf check) idents) as [| s [| s' rest]] eqn:Hl.
    - rewrite Hcases in Hc. discriminate.
    - rewrite Hcases in Hc. injection Hc as <-. eexists. split; [reflexivity |].
      simpl. split; [reflexivity |]. split; [discriminate | lia].
    - destruct Hcases as (be & Hbe & Ht & Hs). rewrite Hbe in Hc. injection Hc as <-.
      exists be. split; [reflexivity |]. split; [exact Ht |]. rewrite Hs.
      split; [simpl; lia | exact Hlen]. }
  intros [Hw | Hw].
  - unfold WellFormedIdentifiers in Hw. rewrite wellFormedLoop_omap, app_nil_l in Hw.
    exact (Hgen _ Hw).
  - unfold WillingToIssue in Hw.
    destruct (WellFormedIdentifiers idents) as [e' |] eqn:W.
    + injection Hw as <-. unfold WellFormedIdentifiers in W.
      rewrite wellFormedLoop_omap, app_nil_l in W. exact (Hgen _ W).
    + rewrite willingLoop_omap, app_nil_l in Hw. exact (Hgen _ Hw).
Qed.

Lemma blockError_unloaded (pa : AuthorityImpl) (ident : ACMEIdentifier) :
  domainBlocklist pa = None -> wildcardFqdnBlocklist pa = None ->
  blockError pa ident =
  Some (if negb (IdentifierTypeEnabled pa (Type_ ident)) then
          RejectedIdentifierError "The ACME server has disabled this identifier type"
        else errorString "identifier policy not yet loaded").
Proof.
  intros Hd Hw. unfold blockError, checkWildcardBlocklist, checkBlocklists.
  rewrite Hd, Hw.
  destruct (negb (IdentifierTypeEnabled pa (Type_ ident))); [reflexivity |].
  destruct (String.eqb (Type_ ident) TypeDNS && (0 <? Count (Value ident) "*")%nat);
    reflexivity.
Qed.

(** X2: an authority made by [New] that has loaded no identifier policy
    refuses every list of identifiers that is not empty; a single well-formed
    identifier of an enabled type is refused with the message that the
    identifier policy is not yet loaded. *)
Theorem WillingToIssue_before_load
    (identifierTypes challengeTypes : option (gmap string bool))
    (logger : list string) (ident : ACMEIdentifier) (rest : list ACMEIdentifier) :
  let pa := fst (New identifierTypes challengeTypes logger) in
  is_Some (WillingToIssue pa (ident :: rest)) /\
  (identError ident = None -> IdentifierTypeEnabled pa (Type_ ident) = true ->
   WillingToIssue pa [ident] =
   Some (cannotIssue ident "identifier policy not yet loaded")).
Proof.
  intros pa. split.
  - destruct (WillingToIssue pa (ident :: rest)) eqn:W; [eauto |].
    apply WillingToIssue_None in W. inversion W as [| ? ? [_ Hb] _]; subst.
    rewrite blockError_unloaded in Hb by reflexivity. discriminate.
  - intros Hi He. unfold WillingToIssue.
    assert (WellFormedIdentifiers [ident] = None) as ->.
    { apply WellFormedIdentifiers_None. constructor; [exact Hi | constructor]. }
    rewrite willingLoop_omap, app_nil_l. simpl. unfold subErrorOf.
    rewrite blockError_unloaded by reflexivity. rewrite He. simpl. reflexivity.
Qed.

End IssuanceFacts.

(** X5, witness: [A.com] is malformed for its upper-case letter; the error
    returned for it has the type [RejectedIdentifier]. *)
Lemma WillingToIssue_error_type_witness :
  exists be,
    cannotIssue (fmt := Ref.RefFmt) (identifier.NewDNS "A.com")
      "Domain name contains an invalid character" = BoulderErr be /\
    berrors.Type_ be = berrors.RejectedIdentifier /\
    length (berrors.SubErrors be) <> 1%nat /\
    (length (berrors.SubErrors be) <= 1)%nat.
Proof.
  apply (WillingToIssue_error_type (iana := Ref.RefIANA) (unicode := Ref.RefUnicode)
           (fmt := Ref.RefFmt) Ref.refAuthority [identifier.NewDNS "A.com"]).
  left. reflexivity.
Defined.

(** X4, witness: of [a.com], [A.com], an identifier of the type [email] and
    [8.8.8.8], the second and the third are malformed, and the error has a
    sub-error for each of the two. *)
Lemma WellFormedIdentifiers_suberrors_witness :
  let idents :=
    [identifier.NewDNS "a.com"; identifier.NewDNS "A.com";
     identifier.mkACMEIdentifier "email" "a@b.com"; identifier.NewIP "8.8.8.8"] in
  exists be,
    policy.WellFormedIdentifiers (iana := Ref.RefIANA) (unicode := Ref.RefUnicode)
      (fmt := Ref.RefFmt) idents = Some (BoulderErr be) /\
    berrors.Type_ be = berrors.RejectedIdentifier /\
    map berrors.sub_Identifier (berrors.SubErrors be) =
      [identifier.NewDNS "A.com"; identifier.mkACMEIdentifier "email" "a@b.com"].
Proof.
  intros idents.
  destruct (WellFormedIdentifiers_suberrors (iana := Ref.RefIANA)
              (unicode := Ref.RefUnicode) (fmt := Ref.RefFmt) idents)
    as (be & Hbe & Ht & Hs & _).
  exists be. split; [exact Hbe |]. split; [exact Ht | exact Hs].
Defined.

(** X2, witness: a new authority with DNS identifiers enabled refuses
    [a.com], as the identifier policy is not yet loaded. *)
Lemma WillingToIssue_before_load_witness :
  policy.WillingToIssue (iana := Ref.RefIANA) (unicode := Ref.RefUnicode)
    (fmt := Ref.RefFmt) Ref.refAuthority [identifier.NewDNS "a.com"]
  = Some (cannotIssue (fmt := Ref.RefFmt) (identifier.NewDNS "a.com")
            "identifier policy not yet loaded").
Proof.
  apply (WillingToIssue_before_load (iana := Ref.RefIANA) (unicode := Ref.RefUnicode)
           (fmt := Ref.RefFmt) (Some (<["dns" := true]> (<["ip" := true]> ∅))) None []
           (identifier.NewDNS "a.com") []); reflexivity.
Defined.

(** X3, witness: the authority loaded with the reference policy accepts
    [lo.example.com] together with [8.8.8.8], and not together with
    [hi.example.com]. *)
Lemma WillingToIssue_each_witness :
  let pa := fst (policy.processIdentPolicy (fmt := Ref.RefFmt)
                   Ref.refAuthority Ref.refPolicy) in
  let willing :=
    policy.WillingToIssue (iana := Ref.RefIANA) (unicode := Ref.RefUnicode)
      (fmt := Ref.RefFmt) pa in
  willing [identifier.NewDNS "lo.example.com"; identifier.NewIP "8.8.8.8"] = None /\
  is_Some (willing [identifier.NewDNS "lo.example.com";
                    identifier.NewDNS "hi.example.com"]).
Proof.
  intros pa willing. split.
  - apply WillingToIssue_each. repeat constructor.
  - destruct (willing [identifier.NewDNS "lo.example.com";
                       identifier.NewDNS "hi.example.com"]) eqn:W; [eauto |].
    apply WillingToIssue_each in W. inversion W as [| ? ? _ W2]; subst.
    inversion W2 as [| ? ? W3 _]; subst. vm_compute in W3. discriminate W3.
Defined.

(** ** Decisions of a loaded authority *)

Section DecisionFacts.
Import GoStrings identifier policy.
Context {netip : NetIP} {iana : IANA} {unicode : Unicode} {fmt : Fmt}.

(** [WillingToIssue] on one identifier: the error of its form, else the
    error of the blocklists, under the message for one identifier. *)
Lemma WillingToIssue_single (pa : AuthorityImpl) (ident : ACMEIdentifier) :
  WillingToIssue pa [ident] =
  match identError ident with
  | Some e => Some (cannotIssue ident (Error e))
  | None =>
      match blockError pa ident with
      | Some e => Some (cannotIssue ident (Error e))
      | None => None
      end
  end.
Proof.
  unfold WillingToIssue, WellFormedIdentifiers.
  rewrite wellFormedLoop_omap, willingLoop_omap, !app_nil_l. simpl.
  unfold subErrorOf.
  destruct (identError ident) as [e |]; simpl.
  - unfold cannotIssue. rewrite subError_Detail, subError_Identifier. reflexivity.
  - destruct (blockError pa ident) as [e |]; simpl; [| reflexivity].
    unfold cannotIssue. rewrite subError_Detail, subError_Identifier. reflexivity.
Qed.

Lemma prefixesLoop_ok (ps : list string) (acc r : list Prefix) :
  prefixesLoop ps acc = Ok r ->
  exists parsed,
    r = acc ++ parsed /\ Forall2 (fun p q => ParsePrefix p = Some q) ps parsed.
Proof.
  revert acc. induction ps as [| p ps IH]; intros acc H; simpl in H.
  - injection H as <-. exists []. rewrite app_nil_r. split; [reflexivity | constructor].
  - destruct (ParsePrefix p) as [q |] eqn:E; [| discriminate].
    apply IH in H as (parsed & -> & HF). exists (q :: parsed).
    rewrite <- app_assoc. split; [reflexivity |]. constructor; assumption.
Qed.

Lemma Forall2_In_left {A B} (R : A -> B -> Prop) (l : list A) (k : list B) (a : A) :
  Forall2 R l k -> In a l -> exists b, In b k /\ R a b.
Proof.
  induction 1 as [| x y l k Hxy _ IH]; simpl; [contradiction |].
  intros [<- | Hin]; [eauto |]. destruct (IH Hin) as (b & Hb & Hab). eauto.
Qed.

Lemma Forall2_In_right {A B} (R : A -> B -> Prop) (l : list A) (k : list B) (b : B) :
  Forall2 R l k -> In b k -> exists a, In a l /\ R a b.
Proof.
  induction 1 as [| x y l k Hxy _ IH]; simpl; [contradiction |].
  intros [<- | Hin]; [eauto |]. destruct (IH Hin) as (a & Ha & Hab). eauto.
Qed.

(** The prefix table of an authority after a successful load. *)
Lemma processIdentPolicy_prefixes (pa pa' : AuthorityImpl) (pol : blockedIdentsPolicy)
    (a : Addr) :
  processIdentPolicy pa pol = (pa', None) ->
  existsb (fun prefix => Prefix_Contains prefix (Addr_WithZone a EmptyString))
          (ipPrefixBlocklist pa') = true <-> prefixBlocked pol a.
Proof.
  intros Hp. apply processIdentPolicy_ok in Hp
    as (exact & wild & prefixes & _ & Hl & _ & _ & _ & Hi & _).
  rewrite Hi. apply prefixesLoop_ok in Hl as (parsed & -> & HF). simpl.
  unfold prefixBlocked. rewrite existsb_exists. split.
  - intros (q & Hq & Hc).
    destruct (Forall2_In_right _ _ _ _ HF Hq) as (p & Hp & Hpq). eauto.
  - intros (p & q & Hp & Hpq & Hc).
    destruct (Forall2_In_left _ _ _ _ HF Hp) as (q' & Hq' & Hpq').
    exists q'. split; [exact Hq' | congruence].
Qed.

(** X7: after a successful load, [WillingToIssue] refuses an IP identifier
    whose address lies in a prefix of [AdminBlockedPrefixes], as forbidden by
    policy when the address is well formed and IP identifiers are enabled; a
    well-formed address outside every prefix is accepted when IP identifiers
    are enabled, whatever names the policy blocks. *)
Theorem AdminBlockedPrefixes_blocks (pa pa' : AuthorityImpl) (pol : blockedIdentsPolicy)
    (x : string) (a : Addr) :
  processIdentPolicy pa pol = (pa', None) ->
  ParseAddr x = Some a ->
  (prefixBlocked pol a ->
   is_Some (WillingToIssue pa' [NewIP x]) /\
   (ValidIP x = None -> IdentifierTypeEnabled pa' TypeIP = true ->
    WillingToIssue pa' [NewIP x] = Some (policyForbiddenFor x))) /\
  (~ prefixBlocked pol a ->
   ValidIP x = None -> IdentifierTypeEnabled pa' TypeIP = true ->
   WillingToIssue pa' [NewIP x] = None).
Proof.
  intros Hp Ha.
  pose proof (processIdentPolicy_prefixes pa pa' pol a Hp) as Hpre.
  pose proof (processIdentPolicy_tables pa pa' pol Hp)
    as (_ & _ & _ & Hdn & _ & _ & _).
  assert (Hb : IdentifierTypeEnabled pa' TypeIP = true ->
               blockError pa' (NewIP x) =
               if existsb (fun prefix => Prefix_Contains prefix (Addr_WithZone a EmptyString))
                          (ipPrefixBlocklist pa')
               then Some errPolicyForbidden else None).
  { intros He. unfold blockError, checkBlocklists. cbn [Type_ Value NewIP].
    rewrite He. cbn [negb].
    change (String.eqb TypeIP TypeDNS) with false. cbn [andb].
    change (String.eqb TypeIP TypeIP) with true.
    destruct (domainBlocklist pa'); [| contradiction].
    rewrite Ha. reflexivity. }
  rewrite WillingToIssue_single.
  change (identError (NewIP x)) with (ValidIP x).
  split.
  - intros Hblocked. apply Hpre in Hblocked. split.
    + destruct (ValidIP x); [eauto |].
      destruct (IdentifierTypeEnabled pa' TypeIP) eqn:En.
      * rewrite (Hb eq_refl), Hblocked. eauto.
      * unfold blockError. cbn [Type_ NewIP]. rewrite En. cbn [negb]. eauto.
    + intros Hv He. rewrite Hv, (Hb He), Hblocked. reflexivity.
  - intros Hn Hv He. rewrite Hv, (Hb He).
    destruct (existsb _ _) eqn:Ex; [| reflexivity].
    exfalso. apply Hn, Hpre. reflexivity.
Qed.

(** The three lookups for a DNS name, after a successful load, in terms of
    the lists of the policy. *)
Lemma dnsBlocked_policy (pa pa' : AuthorityImpl) (pol : blockedIdentsPolicy) (x : string) :
  processIdentPolicy pa pol = (pa', None) ->
  ValidDomain x = None ->
  dnsBlocked pa' x = true <->
  wildcardBlocked pol x \/ nameBlocked pol x \/ In x (ExactBlockedNames pol).
Proof.
  intros Hp Hv.
  pose proof (processIdentPolicy_tables pa pa' pol Hp)
    as (Hd & Hf & Hw & _).
  unfold dnsBlocked. rewrite !orb_true_iff, andb_true_iff, Hf, Hw.
  rewrite existsb_seq.
  assert (Hwild : ((0 <? Count x "*")%nat = true /\
                   exists v, In v (ExactBlockedNames pol) /\ parent v = TrimPrefix x "*.")
                  <-> wildcardBlocked pol x).
  { unfold wildcardBlocked. split.
    - intros (Hc & v & Hin & Hpar). exists v. split; [exact Hin |].
      apply ValidDomain_None in Hv as [[Hz _] | (base & -> & _)].
      + rewrite Hz in Hc. discriminate.
      + rewrite TrimPrefix_app in Hpar. rewrite Hpar. reflexivity.
    - intros (v & Hin & ->). split; [reflexivity |].
      exists v. split; [exact Hin |]. rewrite TrimPrefix_app. reflexivity. }
  assert (Hname : (exists i, (i < length (Split x "."))%nat /\
                             index (domainBlocklist pa') (Join (drop i (Split x ".")) ".") = true)
                  <-> nameBlocked pol x).
  { unfold nameBlocked. split.
    - intros (i & Hi & Hb). apply Hd in Hb.
      exists (Join (drop i (Split x ".")) "."). split; [exact Hb |].
      apply label_suffix_joined. exists i. split; [exact Hi | reflexivity].
    - intros (v & Hin & Hs). apply label_suffix_joined in Hs as (i & Hi & Hj).
      exists i. split; [exact Hi |].
      change "."%string with (sepString "."). rewrite Hj. apply Hd. exact Hin. }
  rewrite Hwild, Hname. tauto.
Qed.

(** X6: after a successful load, [WillingToIssue] accepts a DNS identifier
    exactly when the name is well formed, DNS identifiers are enabled, the
    name neither is nor ends label-wise in a name of [HighRiskBlockedNames]
    or [AdminBlockedNames], it is not in [ExactBlockedNames], and it is not
    the wildcard over the parent of a name in [ExactBlockedNames]. *)
Theorem WillingToIssue_dns_accepts (pa pa' : AuthorityImpl) (pol : blockedIdentsPolicy)
    (x : string) :
  processIdentPolicy pa pol = (pa', None) ->
  WillingToIssue pa' [NewDNS x] = None <->
  ValidDomain x = None /\ IdentifierTypeEnabled pa' TypeDNS = true /\
  ~ nameBlocked pol x /\ ~ In x (ExactBlockedNames pol) /\ ~ wildcardBlocked pol x.
Proof.
  intros Hp.
  pose proof (processIdentPolicy_tables pa pa' pol Hp)
    as (_ & _ & _ & Hdn & Hwn & _).
  rewrite (WillingToIssue_dns pa' x Hdn Hwn).
  destruct (ValidDomain x) as [err |] eqn:Hv.
  - split; [| intros [H _]; discriminate].
    intros H. pose proof (combineSubErrors_single (subError (NewDNS x) err)) as [e He].
    congruence.
  - pose proof (dnsBlocked_policy pa pa' pol x Hp Hv) as Hb.
    destruct (IdentifierTypeEnabled pa' TypeDNS); cbn [negb].
    + destruct (dnsBlocked pa' x).
      * split; [discriminate |]. intros (_ & _ & H1 & H2 & H3).
        exfalso. destruct (proj1 Hb eq_refl) as [? | [? | ?]]; tauto.
      * split; [| reflexivity]. intros _. split; [reflexivity |]. split; [reflexivity |].
        assert (~ (wildcardBlocked pol x \/ nameBlocked pol x \/ In x (ExactBlockedNames pol)))
          as Hn by (intros H; apply Hb in H; discriminate).
        tauto.
    + split; [| intros (_ & H & _); discriminate].
      intros H.
      pose proof (combineSubErrors_single
                    (subError (NewDNS x)
                       (RejectedIdentifierError
                          "The ACME server has disabled this identifier type"))) as [e He].
      congruence.
Qed.

(** X30: a load replaces the tables: after a successful load of a policy
    the four tables are those of the policy alone, whatever was loaded
    before; a name that only an earlier policy blocked is decided as by an
    authority that never loaded it. *)
Theorem processIdentPolicy_replaces (pa1 pa2 pa1' pa2' : AuthorityImpl)
    (pol : blockedIdentsPolicy) :
  processIdentPolicy pa1 pol = (pa1', None) ->
  processIdentPolicy pa2 pol = (pa2', None) ->
  tables pa1' = tables pa2' /\
  (enabledIdentifiers pa1 = enabledIdentifiers pa2 ->
   forall ident, WillingToIssue pa1' [ident] = WillingToIssue pa2' [ident]).
Proof.
  intros H1 H2.
  apply processIdentPolicy_ok in H1
    as (e1 & w1 & p1 & He1 & Hp1 & Hd1 & Hf1 & Hw1 & Hi1 & _ & _ & Hen1).
  apply processIdentPolicy_ok in H2
    as (e2 & w2 & p2 & He2 & Hp2 & Hd2 & Hf2 & Hw2 & Hi2 & _ & _ & Hen2).
  assert (e1 = e2 /\ w1 = w2) as [-> ->] by (split; congruence).
  assert (p1 = p2) as -> by congruence.
  assert (Ht : tables pa1' = tables pa2').
  { unfold tables. rewrite Hd1, Hd2, Hf1, Hf2, Hw1, Hw2, Hi1, Hi2. reflexivity. }
  split; [exact Ht |].
  intros Hen ident. rewrite !WillingToIssue_single.
  destruct (identError ident); [reflexivity |].
  assert (blockError pa1' ident = blockError pa2' ident) as ->; [| reflexivity].
  unfold blockError, IdentifierTypeEnabled, checkWildcardBlocklist, checkBlocklists.
  rewrite Hen1, Hen2, Hen, Hd1, Hd2, Hf1, Hf2, Hw1, Hw2, Hi1, Hi2. reflexivity.
Qed.

End DecisionFacts.

(** X7, witness: with [8.8.4.0/24] in [AdminBlockedPrefixes], [8.8.4.4] is
    forbidden and [8.8.8.8] is accepted. *)
Lemma AdminBlockedPrefixes_blocks_witness :
  let pa' := fst (policy.processIdentPolicy (fmt := Ref.RefFmt)
                    Ref.refAuthority Ref.refPolicy) in
  let willing x :=
    policy.WillingToIssue (iana := Ref.RefIANA) (unicode := Ref.RefUnicode)
      (fmt := Ref.RefFmt) pa' [identifier.NewIP x] in
  willing "8.8.4.4" = Some (policyForbiddenFor (fmt := Ref.RefFmt) "8.8.4.4") /\
  willing "8.8.8.8" = None.
Proof.
  intros pa' willing. split.
  - destruct (AdminBlockedPrefixes_blocks (iana := Ref.RefIANA)
                (unicode := Ref.RefUnicode) (fmt := Ref.RefFmt)
                Ref.refAuthority pa' Ref.refPolicy "8.8.4.4" _ eq_refl eq_refl)
      as (Hb & _).
    apply Hb; [| reflexivity | reflexivity].
    exists "8.8.4.0/24", (("008"%char, "008"%char, "004"%char, "000"%char), 24%N).
    split; [left; reflexivity |]. split; reflexivity.
  - destruct (AdminBlockedPrefixes_blocks (iana := Ref.RefIANA)
                (unicode := Ref.RefUnicode) (fmt := Ref.RefFmt)
                Ref.refAuthority pa' Ref.refPolicy "8.8.8.8" _ eq_refl eq_refl)
      as (_ & Hn).
    apply Hn; [| reflexivity | reflexivity].
    intros (p & prefix & [<- | []] & Hparse & Hc).
    injection Hparse as <-. discriminate Hc.
Defined.

(** X6, witness: with the reference policy loaded, [lo.example.com] is
    accepted: it is well formed, none of the listed names ends it, and it is
    not the wildcard over [example.com]. *)
Lemma WillingToIssue_dns_accepts_witness :
  let pa' := fst (policy.processIdentPolicy (fmt := Ref.RefFmt)
                    Ref.refAuthority Ref.refPolicy) in
  policy.WillingToIssue (iana := Ref.RefIANA) (unicode := Ref.RefUnicode)
    (fmt := Ref.RefFmt) pa' [identifier.NewDNS "lo.example.com"] = None.
Proof.
  intros pa'.
  apply (WillingToIssue_dns_accepts (iana := Ref.RefIANA) (unicode := Ref.RefUnicode)
           (fmt := Ref.RefFmt) Ref.refAuthority pa' Ref.refPolicy "lo.example.com"
           eq_refl).
  split; [reflexivity |]. split; [reflexivity |]. split; [| split].
  - intros (v & [[<- | []] | []] & Hs).
    apply label_suffix_joined in Hs as (i & Hi & Hj). simpl in Hi.
    destruct i as [| [| [| i]]]; [discriminate Hj | discriminate Hj | discriminate Hj | lia].
  - intros [H | []]. discriminate H.
  - intros (v & [<- | []] & H). discriminate H.
Defined.

(** X30, witness: an authority that has loaded a policy blocking
    [example.co] and then loads the reference policy has the tables of one
    that loaded the reference policy only. *)
Lemma processIdentPolicy_replaces_witness :
  let earlier := {| policy.ExactBlockedNames := ["hi.example.com"];
                    policy.HighRiskBlockedNames := ["example.co"];
                    policy.AdminBlockedNames := [];
                    policy.AdminBlockedPrefixes := [] |} in
  let load pa pol := fst (policy.processIdentPolicy (fmt := Ref.RefFmt) pa pol) in
  tables (load (load Ref.refAuthority earlier) Ref.refPolicy)
  = tables (load Ref.refAuthority Ref.refPolicy).
Proof.
  intros earlier load.
  exact (proj1 (processIdentPolicy_replaces (iana := Ref.RefIANA)
                  (unicode := Ref.RefUnicode) (fmt := Ref.RefFmt)
                  (load Ref.refAuthority earlier) Ref.refAuthority
                  _ _ Ref.refPolicy eq_refl eq_refl)).
Defined.

(** ** The form of an accepted name *)

Section NameFacts.
Import GoStrings identifier policy.
Context {netip : NetIP} {iana : IANA} {unicode : Unicode}.

Lemma HasPrefix_byteAt (s : string) (c : ascii) :
  HasPrefix s (String c EmptyString) = negb (String.eqb s EmptyString) && Ascii.eqb (byteAt s 0) c.
Proof.
  destruct s as [| x s]; simpl; [reflexivity |].
  unfold byteAt. simpl. destruct (Ascii.eqb x c); [destruct s |]; reflexivity.
Qed.

Lemma sliceFrom_last_cons (s : string) (x : ascii) :
  sliceFrom (len s) (String x s) = String (byteAt (String x s) (len s)) EmptyString.
Proof.
  revert x. induction s as [| y s IH]; intros x; [reflexivity |].
  change (sliceFrom (len (String y s)) (String x (String y s)))
    with (sliceFrom (len s) (String y s)).
  rewrite IH. reflexivity.
Qed.

Lemma sliceFrom_last (s : string) :
  s <> EmptyString ->
  sliceFrom (len s - 1) s = String (byteAt s (len s - 1)) EmptyString.
Proof.
  destruct s as [| x s]; [congruence |]. intros _.
  change (len (String x s) - 1)%nat with (len s - 0)%nat.
  rewrite Nat.sub_0_r. apply sliceFrom_last_cons.
Qed.

Lemma HasSuffix_byteAt (s : string) (c : ascii) :
  s <> EmptyString ->
  HasSuffix s (String c EmptyString) = Ascii.eqb (byteAt s (len s - 1)) c.
Proof.
  intros Hs. unfold HasSuffix.
  change (len (String c EmptyString)) with 1%nat.
  assert ((1 <=? len s)%nat = true) as ->.
  { destruct s; [congruence | reflexivity]. }
  rewrite sliceFrom_last by exact Hs. simpl.
  destruct (Ascii.eqb (byteAt s (len s - 1)) c); reflexivity.
Qed.

Lemma substring_xn (label : string) :
  substring 0 2 label = "xn" -> substring 2 2 label = "--" ->
  HasPrefix label "xn--" = true.
Proof.
  destruct label as [| a [| b [| c [| d r]]]]; simpl; try discriminate.
  destruct r; simpl; intros H1 H2; injection H1 as -> ->; injection H2 as -> ->;
    reflexivity.
Qed.

Lemma checkLabel_wellFormed (label : string) :
  checkLabel label = None -> wellFormedLabel label.
Proof.
  unfold checkLabel, wellFormedLabel. intros H.
  destruct (len label <? 1)%nat eqn:E1; [discriminate |].
  destruct (maxLabelLength <? len label)%nat eqn:E2; [discriminate |].
  destruct (dnsLabelCharacterRegexp_MatchString label) eqn:E3; [| discriminate].
  cbn [negb] in H.
  destruct (Ascii.eqb (byteAt label 0) "-" || Ascii.eqb (byteAt label (len label - 1)) "-")
    eqn:E4; [discriminate |].
  apply Nat.ltb_ge in E1, E2. apply orb_false_iff in E4 as [E4 E5].
  unfold dnsLabelCharacterRegexp_MatchString in E3. apply andb_true_iff in E3 as [E3 E6].
  assert (Hne : label <> EmptyString).
  { intros ->. discriminate E3. }
  split; [lia |]. split; [exact E6 |].
  split; [rewrite HasPrefix_byteAt, E4; apply andb_false_r |].
  split; [rewrite HasSuffix_byteAt by exact Hne; exact E5 |].
  intros Hdash.
  assert ((4 <=? len label)%nat = true) as E7.
  { destruct label as [| a [| b [| c [| d r]]]]; try discriminate Hdash; reflexivity. }
  rewrite E7, Hdash in H. cbn [andb] in H.
  change (String.eqb "--" "--") with true in H. cbv iota in H.
  destruct (String.eqb (substring 0 2 label) "xn") eqn:E8; [| discriminate].
  cbn [negb] in H. apply String.eqb_eq in E8.
  split; [apply substring_xn; assumption |].
  destruct (ToUnicode label) as [ulabel |]; [| discriminate].
  destruct (IsNormalString ulabel) eqn:E9; [| discriminate].
  eauto.
Qed.

Lemma checkLabels_wellFormed (labels : list string) :
  checkLabels labels = None -> Forall wellFormedLabel labels.
Proof.
  induction labels as [| l ls IH]; simpl; [constructor |].
  destruct (checkLabel l) eqn:E; [discriminate |].
  intros H. constructor; [apply checkLabel_wellFormed; exact E | exact (IH H)].
Qed.

(** What [validNonWildcardDomain] has checked of a name it accepts. *)
Lemma validNonWildcardDomain_None (domain : string) :
  validNonWildcardDomain domain = None ->
  (len domain <= maxDNSIdentifierLength)%nat /\
  (2 <= length (Split domain ".") <= maxLabels)%nat /\
  Forall wellFormedLabel (Split domain ".") /\
  ParseAddr domain = None /\
  exists icannTLD, ExtractSuffix domain = Some icannTLD /\ icannTLD <> domain.
Proof.
  unfold validNonWildcardDomain. intros H.
  destruct (String.eqb domain EmptyString); [discriminate |].
  destruct (HasPrefix domain "*."); [discriminate |].
  destruct (negb (allBytes isDNSCharacter domain)); [discriminate |].
  destruct (maxDNSIdentifierLength <? len domain)%nat eqn:E1; [discriminate |].
  destruct (ParseAddr domain); [discriminate |].
  destruct (HasSuffix domain "."); [discriminate |].
  cbv zeta in H.
  destruct (maxLabels <? length (Split domain "."))%nat eqn:E2; [discriminate |].
  destruct (length (Split domain ".") <? 2)%nat eqn:E3; [discriminate |].
  destruct (checkLabels (Split domain ".")) eqn:E4; [discriminate |].
  destruct (ExtractSuffix domain) as [icannTLD |]; [| discriminate].
  destruct (String.eqb icannTLD domain) eqn:E5; [discriminate |].
  apply Nat.ltb_ge in E1, E2, E3. apply String.eqb_neq in E5.
  split; [exact E1 |]. split; [lia |].
  split; [apply checkLabels_wellFormed; exact E4 |].
  split; [reflexivity |]. eauto.
Qed.

(** X8: a name that [validNonWildcardDomain] accepts has at most 253 bytes
    and 2 to 10 labels, each a well-formed label; it does not parse as an IP
    address; and it ends in a public suffix that is not the whole name. *)
Theorem validNonWildcardDomain_shape (domain : string) :
  validNonWildcardDomain domain = None ->
  (len domain <= maxDNSIdentifierLength)%nat /\
  (2 <= length (Split domain ".") <= maxLabels)%nat /\
  Forall wellFormedLabel (Split domain ".") /\
  ParseAddr domain = None /\
  exists icannTLD, ExtractSuffix domain = Some icannTLD /\ icannTLD <> domain.
Proof. exact (validNonWildcardDomain_None domain). Qed.

(** X9: a public suffix is not an accepted name, and the wildcard over a
    public suffix is refused as a wildcard for an ICANN TLD. *)
Theorem ValidDomain_public_suffix (icannTLD : string) :
  ExtractSuffix icannTLD = Some icannTLD ->
  Count icannTLD "*" = 0%nat ->
  is_Some (ValidDomain icannTLD) /\
  ValidDomain ("*." ++ icannTLD) = Some errICANNTLDWildcard.
Proof.
  intros Hs Hc. split.
  - destruct (ValidDomain icannTLD) eqn:V; [eauto |].
    apply ValidDomain_None in V as [[_ V] | (base & -> & _)].
    + apply validNonWildcardDomain_None in V as (_ & _ & _ & _ & t & Ht & Hne).
      congruence.
    + discriminate Hc.
  - unfold ValidDomain.
    change (Count ("*." ++ icannTLD) "*") with (S (Count icannTLD "*")).
    rewrite Hc. cbn [Nat.leb Nat.ltb].
    rewrite HasPrefix_app. cbn [negb]. rewrite TrimPrefix_app, Hs.
    rewrite String.eqb_refl. reflexivity.
Qed.

End NameFacts.

(** X8, witness: [www.example.com]. *)
Lemma validNonWildcardDomain_shape_witness :
  Forall (wellFormedLabel (unicode := Ref.RefUnicode))
         (GoStrings.Split "www.example.com" ".") /\
  exists icannTLD,
    ExtractSuffix (IANA := Ref.RefIANA) "www.example.com" = Some icannTLD /\
    icannTLD <> "www.example.com".
Proof.
  destruct (validNonWildcardDomain_shape (iana := Ref.RefIANA)
              (unicode := Ref.RefUnicode) "www.example.com" eq_refl)
    as (_ & _ & Hl & _ & Hs).
  split; [exact Hl | exact Hs].
Defined.

(** X9, witness: [com] is a public suffix; [com] and [*.com] are refused. *)
Lemma ValidDomain_public_suffix_witness :
  is_Some (policy.ValidDomain (iana := Ref.RefIANA) (unicode := Ref.RefUnicode) "com") /\
  policy.ValidDomain (iana := Ref.RefIANA) (unicode := Ref.RefUnicode) "*.com"
  = Some policy.errICANNTLDWildcard.
Proof.
  exact (ValidDomain_public_suffix (iana := Ref.RefIANA) (unicode := Ref.RefUnicode)
           "com" eq_refl eq_refl).
Defined.

(** ** Contacts and solved authorizations *)

Section ContactFacts.
Import GoStrings identifier policy.
Context {netip : NetIP} {iana : IANA} {unicode : Unicode} {fmt : Fmt}
        {mail : Mail} {coreAuthz : CoreAuthz}.

Lemma Split_no_sep (s : string) (sep : ascii) :
  Contains s sep = false -> Split s sep = [s].
Proof.
  unfold Contains. induction s as [| c s IH]; simpl; [reflexivity |].
  destruct (Ascii.eqb c sep); simpl; [discriminate |].
  intros H. rewrite (IH H). reflexivity.
Qed.

(** The text after the last separator is the last piece. *)
Lemma Split_last (y d : string) (sep : ascii) :
  Contains d sep = false ->
  let pieces := Split (y ++ String sep d) sep in
  pieces !! (length pieces - 1)%nat = Some d.
Proof.
  intros Hd pieces. unfold pieces.
  rewrite Split_app_sep, (Split_no_sep d sep Hd).
  rewrite length_app. simpl.
  replace (length (Split y sep) + 1 - 1)%nat with (length (Split y sep) + 0)%nat by lia.
  rewrite lookup_app_r by lia.
  replace (length (Split y sep) + 0 - length (Split y sep))%nat with 0%nat by lia.
  reflexivity.
Qed.

Lemma index_forbiddenMailDomains (k : string) :
  index forbiddenMailDomains k = true <-> In k exampleDomains.
Proof.
  unfold index, forbiddenMailDomains, exampleDomains. simpl.
  destruct (String.eqb_spec k "example.com") as [-> | N1]; [split; [auto | reflexivity] |].
  destruct (String.eqb_spec k "example.net") as [-> | N2]; [split; [auto | reflexivity] |].
  destruct (String.eqb_spec k "example.org") as [-> | N3]; [split; [auto | reflexivity] |].
  rewrite !lookup_insert_ne by congruence. rewrite lookup_empty. simpl.
  split; [discriminate |]. intros [H | [H | [H | []]]]; congruence.
Qed.

(** X10: every error of [ValidEmail] has the type [InvalidEmail]; and for an
    address that parses to [local@domain], where [domain] has no [@], the
    address is accepted exactly when the lowercased domain is a name
    [validNonWildcardDomain] accepts and is none of [example.com],
    [example.net] and [example.org]: the domain is compared in lower case,
    whatever the case it is written in. *)
Theorem ValidEmail_domain (address : string) :
  (forall e, ValidEmail address = Some e ->
     exists detail,
       e = BoulderErr (berrors.mkBoulderError berrors.InvalidEmail detail [])) /\
  (ParseAddress address = None -> is_Some (ValidEmail address)) /\
  (forall localPart domain,
     ParseAddress address = Some (localPart ++ String "@" domain)%string ->
     Contains domain "@" = false ->
     ValidEmail address = None <->
     validNonWildcardDomain (ToLower domain) = None /\
     ~ In (ToLower domain) exampleDomains).
Proof.
  split; [| split].
  - intros e. unfold ValidEmail.
    destruct (ParseAddress address) as [email_Address |].
    + cbv zeta. destruct (validNonWildcardDomain _).
      * intros [= <-]. eexists. reflexivity.
      * destruct (index forbiddenMailDomains _); [| discriminate].
        intros [= <-]. eexists. reflexivity.
    + intros [= <-]. eexists. reflexivity.
  - intros H. unfold ValidEmail. rewrite H. eauto.
  - intros localPart domain Hp Hd. unfold ValidEmail. rewrite Hp. cbv zeta.
    rewrite (Split_last localPart domain "@" Hd).
    change (default EmptyString (Some domain)) with domain.
    destruct (validNonWildcardDomain (ToLower domain)).
    + split; [discriminate | intros [H _]; discriminate].
    + pose proof (index_forbiddenMailDomains (ToLower domain)) as Hi.
      destruct (index forbiddenMailDomains (ToLower domain)).
      * split; [discriminate |]. intros [_ H]. exfalso. apply H, Hi. reflexivity.
      * split; [| reflexivity]. intros _. split; [reflexivity |].
        intros H. apply Hi in H. discriminate.
Qed.

Lemma slices_Contains_In (s : list string) (v : string) :
  slices_Contains s v = true <-> In v s.
Proof.
  unfold slices_Contains. rewrite existsb_exists. split.
  - intros (x & Hx & E). apply String.eqb_eq in E. subst. exact Hx.
  - intros H. exists v. split; [exact H | apply String.eqb_refl].
Qed.

(** X11: [CheckAuthzChallenges] accepts an authorization exactly when it
    was solved by a challenge type that is enabled and that
    [ChallengeTypesFor] lists for its identifier: [dns-01] alone for a
    wildcard name, [http-01], [dns-01] or [tls-alpn-01] for another name,
    [http-01] or [tls-alpn-01] for an address. An authorization solved by
    [dns-account-01] is never accepted, enabled or not. *)
Theorem CheckAuthzChallenges_accepts (pa : AuthorityImpl) (authz : coreAuthorization) :
  (CheckAuthzChallenges pa authz = None <->
   exists chall,
     SolvedBy authz = Ok chall /\ ChallengeTypeEnabled pa chall = true /\
     applicable (authz_Identifier authz) chall) /\
  (SolvedBy authz = Ok "dns-account-01" -> is_Some (CheckAuthzChallenges pa authz)).
Proof.
  assert (Hmain : CheckAuthzChallenges pa authz = None <->
                  exists chall,
                    SolvedBy authz = Ok chall /\ ChallengeTypeEnabled pa chall = true /\
                    applicable (authz_Identifier authz) chall).
  { unfold CheckAuthzChallenges, applicable.
    destruct (SolvedBy authz) as [chall | err].
    2: { split; [discriminate | intros (c & H & _); discriminate]. }
    destruct (ChallengeTypeEnabled pa chall) eqn:En; cbn [negb].
    2: { split; [discriminate |]. intros (c & H & H' & _). injection H as <-. congruence. }
    unfold ChallengeTypesFor.
    destruct (String.eqb_spec (Type_ (authz_Identifier authz)) TypeDNS) as [Ed | Nd].
    - destruct (HasPrefix (Value (authz_Identifier authz)) "*.") eqn:Hw.
      + destruct (slices_Contains [core.ChallengeTypeDNS01] chall) eqn:Sc; cbn [negb].
        * apply slices_Contains_In in Sc. split; [| reflexivity]. intros _.
          exists chall. split; [reflexivity |]. split; [exact En |].
          left. destruct Sc as [<- | []]. auto.
        * split; [discriminate |]. intros (c & H & _ & Ha). injection H as <-.
          assert (slices_Contains [core.ChallengeTypeDNS01] chall = true); [| congruence].
          apply slices_Contains_In.
          destruct Ha as [(_ & _ & ->) | [(_ & Hf & _) | (Hip & _)]];
            [left; reflexivity | congruence | rewrite Ed in Hip; discriminate].
      + destruct (slices_Contains _ chall) eqn:Sc; cbn [negb].
        * apply slices_Contains_In in Sc. split; [| reflexivity]. intros _.
          exists chall. split; [reflexivity |]. split; [exact En |].
          right. left. auto.
        * split; [discriminate |]. intros (c & H & _ & Ha). injection H as <-.
          match type of Sc with slices_Contains ?l _ = _ =>
            assert (slices_Contains l chall = true); [| congruence] end.
          apply slices_Contains_In.
          destruct Ha as [(_ & Hf & _) | [(_ & _ & Hin) | (Hip & _)]];
            [congruence | exact Hin | rewrite Ed in Hip; discriminate].
    - destruct (String.eqb_spec (Type_ (authz_Identifier authz)) TypeIP) as [Ei | Ni].
      + destruct (slices_Contains _ chall) eqn:Sc; cbn [negb].
        * apply slices_Contains_In in Sc. split; [| reflexivity]. intros _.
          exists chall. split; [reflexivity |]. split; [exact En |].
          right. right. auto.
        * split; [discriminate |]. intros (c & H & _ & Ha). injection H as <-.
          match type of Sc with slices_Contains ?l _ = _ =>
            assert (slices_Contains l chall = true); [| congruence] end.
          apply slices_Contains_In.
          destruct Ha as [(Hd & _) | [(Hd & _) | (_ & Hin)]];
            [contradiction | contradiction | exact Hin].
      + split; [discriminate |]. intros (c & _ & _ & Ha).
        destruct Ha as [(Hd & _) | [(Hd & _) | (Hi & _)]]; contradiction. }
  split; [exact Hmain |].
  intros Hs. destruct (CheckAuthzChallenges pa authz) eqn:C; [eauto |].
  destruct (proj1 Hmain eq_refl) as (chall & Hc & _ & Ha). rewrite Hs in Hc. injection Hc as <-.
  exfalso. unfold applicable in Ha.
  destruct Ha as [(_ & _ & H) | [(_ & _ & H) | (_ & H)]]; simpl in H;
    intuition discriminate.
Qed.

End ContactFacts.

(** X10, witness: [user@Example.COM] is refused for its domain and
    [user@Letsencrypt.org] is accepted, upper-case letters and all. *)
Lemma ValidEmail_domain_witness :
  is_Some (policy.ValidEmail (iana := Ref.RefIANA) (unicode := Ref.RefUnicode)
             (fmt := Ref.RefFmt) (mail := Ref.RefMail) "user@Example.COM") /\
  policy.ValidEmail (iana := Ref.RefIANA) (unicode := Ref.RefUnicode)
    (fmt := Ref.RefFmt) (mail := Ref.RefMail) "user@Letsencrypt.org" = None.
Proof.
  split.
  - destruct (policy.ValidEmail (iana := Ref.RefIANA) (unicode := Ref.RefUnicode)
                (fmt := Ref.RefFmt) (mail := Ref.RefMail) "user@Example.COM") eqn:V;
      [eauto |].
    destruct (ValidEmail_domain (iana := Ref.RefIANA) (unicode := Ref.RefUnicode)
                (fmt := Ref.RefFmt) (mail := Ref.RefMail) "user@Example.COM")
      as (_ & _ & H).
    apply (H "user" "Example.COM" eq_refl eq_refl) in V as [_ V].
    exfalso. apply V. left. reflexivity.
  - destruct (ValidEmail_domain (iana := Ref.RefIANA) (unicode := Ref.RefUnicode)
                (fmt := Ref.RefFmt) (mail := Ref.RefMail) "user@Letsencrypt.org")
      as (_ & _ & H).
    apply (H "user" "Letsencrypt.org" eq_refl eq_refl).
    split; [reflexivity |].
    intros [E | [E | [E | []]]]; discriminate E.
Defined.

(** X11, witness: with [http-01] and [dns-01] enabled, a wildcard name solved
    by [dns-01] is accepted, and one solved by [http-01] is not. *)
Lemma CheckAuthzChallenges_accepts_witness :
  let pa := policy.mkAuthorityImpl (netip := Ref.RefNetIP) [] None None None []
              (Some (<["http-01" := true]> (<["dns-01" := true]> ∅))) None in
  let check authz :=
    policy.CheckAuthzChallenges (fmt := Ref.RefFmt) (coreAuthz := Ref.RefCoreAuthz)
      pa authz in
  check (identifier.NewDNS "*.example.com", Some "dns-01") = None /\
  is_Some (check (identifier.NewDNS "*.example.com", Some "http-01")).
Proof.
  intros pa check. split.
  - apply (CheckAuthzChallenges_accepts (fmt := Ref.RefFmt)
             (coreAuthz := Ref.RefCoreAuthz) pa).
    exists "dns-01". split; [reflexivity |]. split; [reflexivity |].
    left. repeat split; reflexivity.
  - destruct (check (identifier.NewDNS "*.example.com", Some "http-01")) eqn:C;
      [eauto |].
    apply (CheckAuthzChallenges_accepts (fmt := Ref.RefFmt)
             (coreAuthz := Ref.RefCoreAuthz) pa) in C as (chall & Hs & _ & Ha).
    injection Hs as <-. exfalso.
    destruct Ha as [(_ & _ & H) | [(_ & H & _) | (H & _)]]; discriminate H.
Defined.

(** ** Issued names *)

Section IssuedNameFacts.
Import GoStrings sa.
Context {netip : NetIP} {iana : IANA} {unicode : Unicode}.

(** The loop reverses the part of the slice between its two indices. *)
Lemma swapLoop_rev (rounds : nat) (a m b : list string) :
  (length m <= 2 * rounds + 1)%nat ->
  swapLoop rounds (length a) (length a + length m - 1) (a ++ m ++ b)
  = a ++ rev m ++ b.
Proof.
  revert a m b. induction rounds as [| rounds IH]; intros a m b Hlen.
  - destruct m as [| x [| y m]]; simpl in Hlen; [reflexivity | reflexivity | lia].
  - destruct m as [| x m].
    { simpl. rewrite Nat.add_0_r.
      assert ((length a <? length a - 1)%nat = false) as -> by (apply Nat.ltb_ge; lia).
      reflexivity. }
    destruct m as [| y' m'] eqn:Em.
    { simpl. replace (length a + 1 - 1)%nat with (length a) by lia.
      rewrite Nat.ltb_irrefl. reflexivity. }
    rewrite <- Em in *.
    assert (Hne : m <> []) by (rewrite Em; discriminate).
    destruct (exists_last Hne) as (mid & y & ->). clear Em Hne.
    assert (Hnorm : a ++ (x :: mid ++ [y]) ++ b = a ++ x :: mid ++ y :: b)
      by (simpl; rewrite <- app_assoc; reflexivity).
    assert (Hmid : forall z, a ++ z :: mid ++ y :: b = (a ++ z :: mid) ++ y :: b)
      by (intros z; rewrite <- app_assoc; reflexivity).
    rewrite Hnorm. cbn [swapLoop].
    rewrite length_cons, length_app in *. cbn [length] in *.
    replace (length a + S (length mid + 1) - 1)%nat
      with (length a + S (length mid))%nat by lia.
    assert ((length a <? length a + S (length mid))%nat = true) as ->
      by (apply Nat.ltb_lt; lia).
    assert (Hi : (a ++ x :: mid ++ y :: b) !! length a = Some x)
      by (apply list_lookup_middle; reflexivity).
    assert (Hj : (a ++ x :: mid ++ y :: b) !! (length a + S (length mid))%nat = Some y).
    { rewrite Hmid. apply list_lookup_middle. rewrite length_app. reflexivity. }
    rewrite Hi, Hj. cbn [default from_option id].
    assert (Hs : <[(length a + S (length mid))%nat := x]>
                   (<[length a := y]> (a ++ x :: mid ++ y :: b))
                 = (a ++ [y]) ++ mid ++ ([x] ++ b)).
    { rewrite (insert_app_r_alt a) by lia. rewrite Nat.sub_diag.
      change (<[0%nat := y]> (x :: mid ++ y :: b)) with (y :: mid ++ y :: b).
      rewrite Hmid.
      rewrite (insert_app_r_alt (a ++ y :: mid)) by (rewrite length_app; simpl; lia).
      replace (length a + S (length mid) - length (a ++ y :: mid))%nat with 0%nat
        by (rewrite length_app; simpl; lia).
      change (<[0%nat := x]> (y :: b)) with (x :: b).
      rewrite <- !app_assoc. reflexivity. }
    rewrite Hs.
    replace (length a + 1)%nat with (length (a ++ [y])) by (rewrite length_app; reflexivity).
    replace (length a + S (length mid) - 1)%nat
      with (length (a ++ [y]) + length mid - 1)%nat
      by (rewrite !length_app; simpl; lia).
    rewrite IH by lia.
    simpl. rewrite rev_app_distr. simpl. rewrite <- !app_assoc. reflexivity.
Qed.

(** [reverseFQDN] joins the labels of the name in reverse order. *)
Lemma reverseFQDN_rev (fqdn : string) :
  reverseFQDN fqdn = Join (rev (Split fqdn ".")) ".".
Proof.
  unfold reverseFQDN. cbv zeta.
  pose proof (swapLoop_rev (length (Split fqdn ".")) [] (Split fqdn ".") []) as H.
  rewrite app_nil_l, !app_nil_r in H. cbn [length] in H. rewrite Nat.add_0_l in H.
  rewrite H by lia. reflexivity.
Qed.

Lemma Split_no_separator (s : string) (sep : ascii) :
  Forall (fun l => Contains l sep = false) (Split s sep).
Proof.
  induction s as [| c s IH]; [repeat constructor |].
  rewrite Split_cons. destruct (Ascii.eqb c sep) eqn:E.
  - constructor; [reflexivity | exact IH].
  - destruct (Split s sep) as [| l ls]; [repeat constructor; unfold Contains; simpl; rewrite E; reflexivity |].
    inversion IH as [| ? ? Hl Hls]; subst. constructor; [| exact Hls].
    unfold Contains in *. simpl. rewrite E. exact Hl.
Qed.

(** Splitting the joined labels gives the labels back. *)
Lemma Split_Join (labels : list string) (sep : ascii) :
  labels <> [] -> Forall (fun l => Contains l sep = false) labels ->
  Split (Join labels (sepString sep)) sep = labels.
Proof.
  induction labels as [| x ls IH]; [congruence |]. intros _ HF.
  inversion HF as [| ? ? Hx Hls]; subst.
  destruct ls as [| y ls]; [apply Split_no_sep; exact Hx |].
  change (Join (x :: y :: ls) (sepString sep))
    with (x ++ String sep (Join (y :: ls) (sepString sep)))%string.
  rewrite Split_app_sep, (Split_no_sep x sep Hx), IH by (congruence || assumption).
  reflexivity.
Qed.

(** Reversing the labels twice. *)
Lemma reverseFQDN_twice (fqdn : string) :
  reverseFQDN (reverseFQDN fqdn) = fqdn.
Proof.
  rewrite !reverseFQDN_rev.
  change "."%string with (sepString ".").
  rewrite Split_Join.
  - rewrite rev_involutive. apply Join_Split.
  - intros E. apply (f_equal (@rev string)) in E. rewrite rev_involutive in E.
    exact (Split_nonempty fqdn "." E).
  - apply Forall_rev. apply Split_no_separator.
Qed.

(** X12: [reverseFQDN] undoes itself: reversing the labels of a reversed
    name gives the name back. *)
Theorem reverseFQDN_involutive (fqdn : string) :
  reverseFQDN (reverseFQDN fqdn) = fqdn.
Proof. exact (reverseFQDN_twice fqdn). Qed.

(** X13: [EncodeIssuedName] gives the text of the address for a name that
    parses as an IP address and the reversed name otherwise, so for every
    name [validNonWildcardDomain] accepts; applied to its result it gives the
    name back when neither the name nor its reversed form parses as an
    address. *)
Theorem EncodeIssuedName_round_trip (name : string) :
  (policy.validNonWildcardDomain name = None ->
   EncodeIssuedName name = reverseFQDN name) /\
  (ParseAddr name = None -> ParseAddr (reverseFQDN name) = None ->
   EncodeIssuedName (EncodeIssuedName name) = name) /\
  (forall a, ParseAddr name = Some a -> ParseAddr (Addr_String a) = Some a ->
     EncodeIssuedName (EncodeIssuedName name) = EncodeIssuedName name).
Proof.
  unfold EncodeIssuedName. split; [| split].
  - intros H. apply validNonWildcardDomain_None in H as (_ & _ & _ & -> & _).
    reflexivity.
  - intros -> ->. apply reverseFQDN_twice.
  - intros a -> ->. reflexivity.
Qed.

End IssuedNameFacts.

(** X12, witness: [www.example.com] and [com.example.www]. *)
Lemma reverseFQDN_involutive_witness :
  sa.reverseFQDN "www.example.com" = "com.example.www" /\
  sa.reverseFQDN (sa.reverseFQDN "www.example.com") = "www.example.com".
Proof.
  split; [reflexivity |]. apply reverseFQDN_involutive.
Defined.

(** X13, witness: a name is stored reversed, an address as it is. *)
Lemma EncodeIssuedName_round_trip_witness :
  sa.EncodeIssuedName (netip := Ref.RefNetIP) "www.example.com" = "com.example.www" /\
  sa.EncodeIssuedName (netip := Ref.RefNetIP)
    (sa.EncodeIssuedName (netip := Ref.RefNetIP) "www.example.com")
  = "www.example.com" /\
  sa.EncodeIssuedName (netip := Ref.RefNetIP)
    (sa.EncodeIssuedName (netip := Ref.RefNetIP) "192.0.2.7")
  = sa.EncodeIssuedName (netip := Ref.RefNetIP) "192.0.2.7".
Proof.
  destruct (EncodeIssuedName_round_trip (netip := Ref.RefNetIP) (iana := Ref.RefIANA)
              (unicode := Ref.RefUnicode) "www.example.com") as (H1 & H2 & _).
  destruct (EncodeIssuedName_round_trip (netip := Ref.RefNetIP) (iana := Ref.RefIANA)
              (unicode := Ref.RefUnicode) "192.0.2.7") as (_ & _ & H3).
  split; [exact (H1 eq_refl) |]. split; [exact (H2 eq_refl eq_refl) |].
  exact (H3 _ eq_refl eq_refl).
Defined.

(** ** Encodings of the storage layer *)

Section EncodingFacts.
Import GoStrings sa.
Context {fmt : Fmt} {codec : Codec} {storage : Storage}.

Local Open Scope Z_scope.

Lemma nonPendingLoop_count (challenges : list (Challenge VRPB PDPB)) (flag : bool) :
  nonPendingLoop challenges flag =
  ((if flag then 1 else 2) <=? length (List.filter nonPending challenges))%nat.
Proof.
  revert flag. induction challenges as [| c rest IH]; intros flag; simpl.
  - destruct flag; reflexivity.
  - fold (nonPending c). destruct (nonPending c); simpl.
    + destruct flag; simpl; [reflexivity |]. rewrite IH. reflexivity.
    + apply IH.
Qed.

(** X14: [hasMultipleNonPendingChallenges] holds exactly when at least two
    of the challenges are valid or invalid. *)
Theorem hasMultipleNonPendingChallenges_count (challenges : list (Challenge VRPB PDPB)) :
  hasMultipleNonPendingChallenges challenges = true <->
  (2 <= length (List.filter nonPending challenges))%nat.
Proof.
  unfold hasMultipleNonPendingChallenges. rewrite nonPendingLoop_count.
  apply Nat.leb_le.
Qed.

Lemma lookup_statusToUint (s : string) (n : Z) :
  statusToUint !! s = Some n <-> uintToStatus !! n = Some s.
Proof.
  unfold statusToUint, uintToStatus. cbn [list_to_map foldr uncurry fst snd].
  rewrite !lookup_insert_Some, !lookup_empty.
  unfold core.StatusPending, core.StatusValid, core.StatusInvalid,
    core.StatusDeactivated, core.StatusRevoked.
  split; intros H;
    repeat match goal with
           | H : _ \/ _ |- _ => destruct H
           | H : _ /\ _ |- _ => destruct H
           end; subst; try discriminate;
    repeat (first [left; split; [reflexivity | reflexivity]
                  | right; split; [first [discriminate | lia] |]]).
Qed.

Lemma lookup_challTypeToUint (s : string) (n : Z) :
  challTypeToUint !! s = Some n <-> uintToChallType !! n = Some s.
Proof.
  unfold challTypeToUint, uintToChallType. cbn [list_to_map foldr uncurry fst snd].
  rewrite !lookup_insert_Some, !lookup_empty.
  split; intros H;
    repeat match goal with
           | H : _ \/ _ |- _ => destruct H
           | H : _ /\ _ |- _ => destruct H
           end; subst; try discriminate;
    repeat (first [left; split; [reflexivity | reflexivity]
                  | right; split; [first [discriminate | lia] |]]).
Qed.

Lemma lookup_identifierTypeToUint (s : string) (n : Z) :
  identifierTypeToUint !! s = Some n <-> uintToIdentifierType !! n = Some s.
Proof.
  unfold identifierTypeToUint, uintToIdentifierType.
  cbn [list_to_map foldr uncurry fst snd].
  rewrite !lookup_insert_Some, !lookup_empty.
  split; intros H;
    repeat match goal with
           | H : _ \/ _ |- _ => destruct H
           | H : _ /\ _ |- _ => destruct H
           end; subst; try discriminate;
    repeat (first [left; split; [reflexivity | reflexivity]
                  | right; split; [first [discriminate | lia] |]]).
Qed.

(** X15: the tables that encode statuses, challenge types and identifier
    types as numbers are the inverses of the tables that decode them; and
    [statusUint] encodes a status that is none of the five as 0, the code of
    [pending]. *)
Theorem encoding_tables_inverse (s : string) (n : Z) :
  (statusToUint !! s = Some n <-> uintToStatus !! n = Some s) /\
  (challTypeToUint !! s = Some n <-> uintToChallType !! n = Some s) /\
  (identifierTypeToUint !! s = Some n <-> uintToIdentifierType !! n = Some s) /\
  (In s storedStatuses -> indexStr uintToStatus (statusUint s) = s) /\
  (~ In s storedStatuses ->
   statusUint s = 0 /\ indexStr uintToStatus (statusUint s) = core.StatusPending).
Proof.
  split; [apply lookup_statusToUint |].
  split; [apply lookup_challTypeToUint |].
  split; [apply lookup_identifierTypeToUint |].
  split.
  - intros Hin. unfold storedStatuses in Hin. simpl in Hin.
    destruct Hin as [<- | [<- | [<- | [<- | [<- | []]]]]]; reflexivity.
  - intros Hn. unfold statusUint, indexUint.
    match goal with |- context [default 0 ?t] => destruct t as [k |] eqn:E end;
      [| split; reflexivity].
    exfalso. apply Hn. apply lookup_statusToUint in E.
    unfold uintToStatus in E. cbn [list_to_map foldr uncurry fst snd] in E.
    rewrite !lookup_insert_Some, lookup_empty in E. unfold storedStatuses. simpl.
    repeat match goal with
           | H : _ \/ _ |- _ => destruct H
           | H : _ /\ _ |- _ => destruct H
           end; subst; try discriminate; auto 10.
Qed.


Lemma newIdentifierModel_round_trip (pb : IdentifierPB) (id : identifierModel) :
  newIdentifierModelFromPB pb = Ok id <-> newPBFromIdentifierModel id = Ok pb.
Proof.
  unfold newIdentifierModelFromPB, newPBFromIdentifierModel.
  destruct pb as [t v], id as [n w]. cbn [PBType PBValue im_Type im_Value].
  pose proof (lookup_identifierTypeToUint t n) as Hinv.
  split.
  - destruct (identifierTypeToUint !! t) as [k |] eqn:E; [| discriminate].
    intros [= -> ->]. rewrite (proj1 Hinv eq_refl). reflexivity.
  - destruct (uintToIdentifierType !! n) as [k |] eqn:E; [| discriminate].
    intros [= -> ->]. rewrite (proj2 Hinv eq_refl). reflexivity.
Qed.

Lemma identifierModelsLoop_spec (pbs : list IdentifierPB) (acc ids : list identifierModel) :
  identifierModelsLoop pbs acc = Ok ids <->
  exists converted,
    ids = acc ++ converted /\
    Forall2 (fun pb id => newIdentifierModelFromPB pb = Ok id) pbs converted.
Proof.
  revert acc. induction pbs as [| pb rest IH]; intros acc; simpl.
  - split.
    + intros [= <-]. exists []. rewrite app_nil_r. split; [reflexivity | constructor].
    + intros (c & -> & HF). inversion HF. rewrite app_nil_r. reflexivity.
  - destruct (newIdentifierModelFromPB pb) as [id |] eqn:E.
    + rewrite IH. split.
      * intros (c & -> & HF). exists (id :: c). rewrite <- app_assoc.
        split; [reflexivity | constructor; assumption].
      * intros (c & -> & HF). inversion HF as [| ? id' ? c' Hid HF']; subst.
        assert (id' = id) as -> by congruence.
        exists c'. rewrite <- app_assoc. split; [reflexivity | exact HF'].
    + split; [discriminate |].
      intros (c & _ & HF). inversion HF; subst. congruence.
Qed.

Lemma identifierPBsLoop_spec (ids : list identifierModel) (acc pbs : list IdentifierPB) :
  identifierPBsLoop ids acc = Ok pbs <->
  exists converted,
    pbs = acc ++ converted /\
    Forall2 (fun id pb => newPBFromIdentifierModel id = Ok pb) ids converted.
Proof.
  revert acc. induction ids as [| id rest IH]; intros acc; simpl.
  - split.
    + intros [= <-]. exists []. rewrite app_nil_r. split; [reflexivity | constructor].
    + intros (c & -> & HF). inversion HF. rewrite app_nil_r. reflexivity.
  - destruct (newPBFromIdentifierModel id) as [pb |] eqn:E.
    + rewrite IH. split.
      * intros (c & -> & HF). exists (pb :: c). rewrite <- app_assoc.
        split; [reflexivity | constructor; assumption].
      * intros (c & -> & HF). inversion HF as [| ? pb' ? c' Hpb HF']; subst.
        assert (pb' = pb) as -> by congruence.
        exists c'. rewrite <- app_assoc. split; [reflexivity | exact HF'].
    + split; [discriminate |].
      intros (c & _ & HF). inversion HF; subst. congruence.
Qed.

(** X16: converting a list of identifiers to storage models succeeds with
    [ids] exactly when converting [ids] back succeeds with the list: the two
    conversions are inverse to each other, element by element; and the
    first fails exactly when the type of an identifier is neither [dns] nor
    [ip]. *)
Theorem identifierModels_round_trip (pbs : list IdentifierPB)
    (ids : list identifierModel) :
  (newIdentifierModelsFromPB pbs = Ok ids <->
   newPBFromIdentifierModels ids = Ok (mkIdentifiersPB pbs)) /\
  (newIdentifierModelsFromPB pbs = Ok ids -> length ids = length pbs) /\
  ((exists err, newIdentifierModelsFromPB pbs = Err err) <->
   Exists (fun pb => PBType pb <> "dns"%string /\ PBType pb <> "ip"%string) pbs).
Proof.
  assert (Hflip : Forall2 (fun pb id => newIdentifierModelFromPB pb = Ok id) pbs ids <->
                  Forall2 (fun id pb => newPBFromIdentifierModel id = Ok pb) ids pbs).
  { split; intros H.
    - apply Forall2_flip. eapply Forall2_impl; [exact H |].
      intros pb id. apply newIdentifierModel_round_trip.
    - apply Forall2_flip in H. eapply Forall2_impl; [exact H |].
      intros pb id. apply newIdentifierModel_round_trip. }
  split; [| split].
  - unfold newIdentifierModelsFromPB, newPBFromIdentifierModels.
    rewrite identifierModelsLoop_spec. split.
    + intros (c & -> & HF). rewrite app_nil_l.
      assert (identifierPBsLoop c [] = Ok pbs) as ->; [| reflexivity].
      apply identifierPBsLoop_spec. exists pbs. split; [reflexivity |].
      apply Hflip. exact HF.
    + destruct (identifierPBsLoop ids []) as [pbs' |] eqn:E; [| discriminate].
      intros [= ->]. apply identifierPBsLoop_spec in E as (c & -> & HF).
      exists ids. split; [reflexivity |]. apply Hflip. exact HF.
  - unfold newIdentifierModelsFromPB. rewrite identifierModelsLoop_spec.
    intros (c & -> & HF). simpl. symmetry. eapply Forall2_length. exact HF.
  - unfold newIdentifierModelsFromPB. generalize (@nil identifierModel) as acc.
    clear Hflip. induction pbs as [| pb rest IH]; intros acc; simpl.
    + split; [intros [err H]; discriminate | intros H; inversion H].
    + unfold newIdentifierModelFromPB at 1.
      destruct (identifierTypeToUint !! PBType pb) as [k |] eqn:E.
      * rewrite IH. rewrite Exists_cons.
        assert (~ (PBType pb <> "dns"%string /\ PBType pb <> "ip"%string)) as Hk.
        { apply lookup_identifierTypeToUint in E.
          unfold uintToIdentifierType in E. cbn [list_to_map foldr uncurry fst snd] in E.
          rewrite !lookup_insert_Some, lookup_empty in E.
          intros [H1 H2]. destruct E as [[_ E] | [_ [[_ E] | [_ E]]]]; congruence. }
        tauto.
      * split; [| eauto]. intros _. constructor.
        split; intros Heq; rewrite Heq in E; discriminate E.
Qed.

Lemma bitSet_testbit (c pos : Z) : bitSet c pos = Z.testbit c pos.
Proof.
  unfold bitSet.
  change 1 with (Z.ones 1) at 1. rewrite Z.land_ones by lia.
  change (2 ^ 1) with 2. rewrite <- Z.bit0_mod, Z.shiftr_spec by lia.
  rewrite Z.add_0_l. destruct (Z.testbit c pos); reflexivity.
Qed.

Lemma indexUint_challType (t : string) :
  0 <= indexUint challTypeToUint t <= 3 /\
  indexStr uintToChallType (indexUint challTypeToUint t) = storedChallengeType t.
Proof.
  unfold indexUint, storedChallengeType.
  destruct (challTypeToUint !! t) as [n |] eqn:E.
  - pose proof (proj1 (lookup_challTypeToUint t n) E) as E'.
    unfold indexStr. cbn [default from_option id]. rewrite E'. cbn [from_option id].
    unfold uintToChallType in E'. cbn [list_to_map foldr uncurry fst snd] in E'.
    rewrite !lookup_insert_Some, lookup_empty in E'.
    destruct E' as [[<- <-] | [_ [[<- <-] | [_ [[<- <-] | [_ [[<- <-] | [_ E']]]]]]]];
      try discriminate; split; (lia || reflexivity).
  - cbn [default from_option id]. split; [lia |].
    assert (existsb (String.eqb t)
              [core.ChallengeTypeHTTP01; core.ChallengeTypeDNS01;
               core.ChallengeTypeTLSALPN01; core.ChallengeTypeDNSAccount01] = false) as ->;
      [| reflexivity].
    apply not_true_is_false. intros Hex. apply existsb_exists in Hex as (x & Hx & Ex).
    apply String.eqb_eq in Ex. subst x. simpl in Hx.
    destruct Hx as [<- | [<- | [<- | [<- | []]]]]; discriminate E.
Qed.

(** The bitmap [newAuthzReqToModel] builds, bit by bit. *)
Lemma challengeBits_testbit (types : list string) (bits pos : Z) :
  0 <= pos ->
  Z.testbit
    (foldl (fun bits challType =>
              Z.lor bits (uint8 (Z.shiftl 1 (indexUint challTypeToUint challType))))
           bits types) pos
  = Z.testbit bits pos
    || existsb (fun t => indexUint challTypeToUint t =? pos) types.
Proof.
  intros Hpos. revert bits. induction types as [| t rest IH]; intros bits; simpl.
  - rewrite orb_false_r. reflexivity.
  - rewrite IH, Z.lor_spec, <- orb_assoc. f_equal. f_equal.
    destruct (indexUint_challType t) as [Hr _].
    assert (uint8 (Z.shiftl 1 (indexUint challTypeToUint t))
            = 2 ^ indexUint challTypeToUint t) as ->.
    { unfold uint8. rewrite Z.shiftl_1_l. apply Z.mod_small.
      assert (indexUint challTypeToUint t = 0 \/ indexUint challTypeToUint t = 1 \/
              indexUint challTypeToUint t = 2 \/ indexUint challTypeToUint t = 3)
        as [-> | [-> | [-> | ->]]] by lia; lia. }
    rewrite Z.pow2_bits_eqb by lia. reflexivity.
Qed.

(** X17: a new authorization request is stored as a pending row whose
    surface form has the status [pending] and one pending challenge, with
    the token, for each requested type, in the order of the bits and
    without repetition; a requested type that is none of the four known ones
    is stored as [http-01], and an identifier type that is not [ip] is
    stored as [dns]. *)
Theorem newAuthzReqToModel_surfaced (authz : NewAuthzRequest) (profile : string)
    (am : authzModel) :
  newAuthzReqToModel authz profile = Ok am ->
  exists pb token,
    RawURLEncoding_DecodeString (req_Token authz) = Ok token /\
    modelToAuthzPB am = Ok pb /\
    pb_Status pb = core.StatusPending /\
    pb_RegistrationID pb = req_RegistrationID authz /\
    pb_Identifier pb =
      mkIdentifierPB (storedIdentifierType (PBType (req_Identifier authz)))
                     (PBValue (req_Identifier authz)) /\
    pb_Challenges pb =
      map (pendingWith token)
          (List.filter
             (fun name =>
                existsb (fun t => String.eqb (storedChallengeType t) name)
                        (req_ChallengeTypes authz))
             [core.ChallengeTypeHTTP01; core.ChallengeTypeDNS01;
              core.ChallengeTypeTLSALPN01; core.ChallengeTypeDNSAccount01]).
Proof.
  unfold newAuthzReqToModel. cbv zeta.
  destruct (RawURLEncoding_DecodeString (req_Token authz)) as [token | err] eqn:Hd;
    [| discriminate].
  intros [= <-].
  assert (Hid : uintToIdentifierType !! indexUint identifierTypeToUint (PBType (req_Identifier authz))
                = Some (storedIdentifierType (PBType (req_Identifier authz)))).
  { unfold indexUint, storedIdentifierType.
    destruct (identifierTypeToUint !! PBType (req_Identifier authz)) as [n |] eqn:E.
    - pose proof (proj1 (lookup_identifierTypeToUint _ _) E) as E'.
      cbn [default from_option id]. rewrite E'. f_equal.
      unfold uintToIdentifierType in E'. cbn [list_to_map foldr uncurry fst snd] in E'.
      rewrite !lookup_insert_Some, lookup_empty in E'.
      destruct E' as [[_ <-] | [_ [[_ <-] | [_ E']]]]; [reflexivity | reflexivity | discriminate].
    - cbn [default from_option id].
      destruct (String.eqb_spec (PBType (req_Identifier authz)) identifier.TypeIP) as [Heq | _];
        [rewrite Heq in E; discriminate E | reflexivity]. }
  match goal with
  | |- exists pb token0, _ /\ modelToAuthzPB ?m = _ /\ _ => set (am := m)
  end.
  assert (Hpb : modelToAuthzPB am =
                Ok {| pb_Id := Sprintf "%d" [ArgInt 0];
                      pb_RegistrationID := req_RegistrationID authz;
                      pb_Identifier :=
                        mkIdentifierPB (storedIdentifierType (PBType (req_Identifier authz)))
                                       (PBValue (req_Identifier authz));
                      pb_Status := core.StatusPending;
                      pb_Expires := timestamppb_New (AsTime (req_Expires authz));
                      pb_Challenges :=
                        map (pendingChallenge am)
                            (List.filter (bitSet (am_Challenges am)) positions);
                      pb_CertificateProfileName :=
                        default EmptyString (am_CertificateProfileName am) |}).
  { unfold modelToAuthzPB.
    change (am_IdentifierType am)
      with (indexUint identifierTypeToUint (PBType (req_Identifier authz))).
    destruct (uintToIdentifierType !! _) as [identType |] eqn:E.
    - injection Hid as ->.
      rewrite challengesLoop_unattempted by reflexivity. rewrite app_nil_l.
      reflexivity.
    - discriminate Hid. }
  eexists. exists token. split; [reflexivity |]. split; [exact Hpb |].
  cbn [pb_Status pb_RegistrationID pb_Identifier pb_Challenges].
  split; [reflexivity |]. split; [reflexivity |]. split; [reflexivity |].
  change (pendingChallenge am) with (fun pos => pendingWith token (indexStr uintToChallType pos)).
  unfold am.
  cbn [am_Challenges].
  set (bits := foldl _ 0 (req_ChallengeTypes authz)).
  assert (Hbit : forall pos, 0 <= pos ->
            bitSet bits pos =
            existsb (fun t => indexUint challTypeToUint t =? pos) (req_ChallengeTypes authz)).
  { intros pos Hpos. rewrite bitSet_testbit. unfold bits.
    rewrite challengeBits_testbit by exact Hpos. rewrite Z.bits_0. reflexivity. }
  assert (Hname : forall pos name, 0 <= pos <= 3 -> indexStr uintToChallType pos = name ->
            existsb (fun t => indexUint challTypeToUint t =? pos) (req_ChallengeTypes authz)
            = existsb (fun t => String.eqb (storedChallengeType t) name)
                      (req_ChallengeTypes authz)).
  { intros pos name Hpos Hn. apply existsb_ext_in. intros t _.
    destruct (indexUint_challType t) as [Hr Hs]. rewrite <- Hs, <- Hn.
    apply bool_eq_iff. rewrite Z.eqb_eq, String.eqb_eq. split; [intros ->; reflexivity |].
    assert (pos = 0 \/ pos = 1 \/ pos = 2 \/ pos = 3) as [-> | [-> | [-> | ->]]] by lia;
      (assert (indexUint challTypeToUint t = 0 \/ indexUint challTypeToUint t = 1 \/
               indexUint challTypeToUint t = 2 \/ indexUint challTypeToUint t = 3)
         as [-> | [-> | [-> | ->]]] by lia);
      intros H; first [reflexivity | discriminate H]. }
  assert (Hhigh : forall pos, 4 <= pos ->
            existsb (fun t => indexUint challTypeToUint t =? pos) (req_ChallengeTypes authz)
            = false).
  { intros pos Hpos. apply not_true_is_false. intros Hex.
    apply existsb_exists in Hex as (t & _ & Ht). apply Z.eqb_eq in Ht.
    destruct (indexUint_challType t) as [Hr _]. lia. }
  unfold positions. cbn [List.filter].
  rewrite !Hbit by lia.
  rewrite (Hname 0 core.ChallengeTypeHTTP01), (Hname 1 core.ChallengeTypeDNS01),
    (Hname 2 core.ChallengeTypeTLSALPN01), (Hname 3 core.ChallengeTypeDNSAccount01)
    by (lia || reflexivity).
  rewrite !Hhigh by lia.
  repeat match goal with
         | |- context [existsb ?f ?l] =>
             let b := fresh "b" in
             set (b := existsb f l); clearbody b
         end.
  repeat match goal with b : bool |- _ => destruct b end; reflexivity.
Qed.

End EncodingFacts.

(** ** Validation records, certificates and the range of the order status *)

Section RecordFacts.
Import GoStrings sa.
Context {fmt : Fmt} {codec : Codec} {storage : Storage}.

Local Open Scope Z_scope.

(** X18: when [rehydrateHostPort] succeeds, the record has a URL, a
    hostname and a port; a hostname or a port that was there is kept; a port
    that was missing is now 80 or 443; the other fields are untouched; and
    rehydrating the result again changes nothing. *)
Theorem rehydrateHostPort_ok (vr vr' : ValidationRecord) :
  rehydrateHostPort vr = Ok vr' ->
  vr_URL vr' = vr_URL vr /\ vr_URL vr <> EmptyString /\
  vr_Hostname vr' <> EmptyString /\ vr_Port vr' <> EmptyString /\
  (vr_Hostname vr <> EmptyString -> vr_Hostname vr' = vr_Hostname vr) /\
  (vr_Port vr <> EmptyString -> vr_Port vr' = vr_Port vr) /\
  (vr_Port vr = EmptyString -> vr_Port vr' = "80"%string \/ vr_Port vr' = "443"%string) /\
  vr_AddressesResolved vr' = vr_AddressesResolved vr /\
  vr_AddressUsed vr' = vr_AddressUsed vr /\
  vr_ResolverAddrs vr' = vr_ResolverAddrs vr /\
  rehydrateHostPort vr' = Ok vr'.
Proof.
  unfold rehydrateHostPort at 1.
  destruct (String.eqb_spec (vr_URL vr) EmptyString) as [| Hurl]; [discriminate |].
  destruct (url_Parse (vr_URL vr)) as [parsedUrl | e] eqn:Hparse; [| discriminate].
  cbv zeta.
  assert (Hagain : forall r, vr_URL r = vr_URL vr -> vr_Hostname r <> EmptyString ->
                             vr_Port r <> EmptyString -> rehydrateHostPort r = Ok r).
  { intros r Hu Hh Hp. unfold rehydrateHostPort. rewrite Hu.
    destruct (String.eqb_spec (vr_URL vr) EmptyString); [contradiction |].
    rewrite Hparse.
    destruct (String.eqb_spec (vr_Hostname r) EmptyString); [contradiction |].
    destruct (String.eqb_spec (vr_Port r) EmptyString); [contradiction |].
    reflexivity. }
  destruct vr as [host port resolved used url resolvers].
  cbn [vr_Hostname vr_Port vr_AddressesResolved vr_AddressUsed vr_URL vr_ResolverAddrs] in *.
  destruct (String.eqb_spec host EmptyString) as [-> | Hhost].
  - destruct (String.eqb_spec (url_Hostname parsedUrl) EmptyString) as [| Hh];
      [discriminate |].
    cbn [vr_Hostname vr_Port vr_AddressesResolved vr_AddressUsed vr_URL vr_ResolverAddrs].
    destruct (String.eqb_spec port EmptyString) as [-> | Hport].
    + destruct (String.eqb_spec (url_Port parsedUrl) EmptyString) as [Hp | Hp].
      * destruct (String.eqb (url_Scheme parsedUrl) "https").
        { intros [= <-]. cbn. repeat split; try congruence; auto; try (apply Hagain; cbn; congruence). }
        destruct (String.eqb (url_Scheme parsedUrl) "http"); [| discriminate].
        intros [= <-]. cbn. repeat split; try congruence; auto; try (apply Hagain; cbn; congruence).
      * destruct (String.eqb_spec (url_Port parsedUrl) "80") as [E80 | N80].
        { intros [= <-]. cbn. repeat split; try congruence; auto; try (apply Hagain; cbn; congruence). }
        destruct (String.eqb_spec (url_Port parsedUrl) "443") as [E443 | N443];
          [| discriminate].
        intros [= <-]. cbn. repeat split; try congruence; auto; try (apply Hagain; cbn; congruence).
    + intros [= <-]. cbn. repeat split; try congruence; try (apply Hagain; cbn; congruence).
  - cbn [vr_Hostname vr_Port vr_AddressesResolved vr_AddressUsed vr_URL vr_ResolverAddrs].
    destruct (String.eqb_spec port EmptyString) as [-> | Hport].
    + destruct (String.eqb_spec (url_Port parsedUrl) EmptyString) as [Hp | Hp].
      * destruct (String.eqb (url_Scheme parsedUrl) "https").
        { intros [= <-]. cbn. repeat split; try congruence; auto; try (apply Hagain; cbn; congruence). }
        destruct (String.eqb (url_Scheme parsedUrl) "http"); [| discriminate].
        intros [= <-]. cbn. repeat split; try congruence; auto; try (apply Hagain; cbn; congruence).
      * destruct (String.eqb_spec (url_Port parsedUrl) "80") as [E80 | N80].
        { intros [= <-]. cbn. repeat split; try congruence; auto; try (apply Hagain; cbn; congruence). }
        destruct (String.eqb_spec (url_Port parsedUrl) "443") as [E443 | N443];
          [| discriminate].
        intros [= <-]. cbn. repeat split; try congruence; auto; try (apply Hagain; cbn; congruence).
    + intros [= <-]. cbn. repeat split; try congruence; try (apply Hagain; cbn; congruence).
Qed.

Lemma certificatesLoop_spec (models : list certificateModel) (pbs : list Certificate)
    (highestID : Z) :
  exists highest,
    certificatesLoop models pbs highestID
    = (pbs ++ map certificateModel_toPb models, highest) /\
    highestID <= highest /\
    Forall (fun m => cm_ID m <= highest) models /\
    (highest = highestID \/ Exists (fun m => cm_ID m = highest) models).
Proof.
  revert pbs highestID. induction models as [| m rest IH]; intros pbs highestID; simpl.
  - exists highestID. rewrite app_nil_r. split; [reflexivity |].
    split; [lia |]. split; [constructor | left; reflexivity].
  - destruct (IH (pbs ++ [certificateModel_toPb m])
                (if highestID <? cm_ID m then cm_ID m else highestID))
      as (highest & -> & Hle & Hall & Hex).
    exists highest. rewrite <- app_assoc. split; [reflexivity |].
    destruct (Z.ltb_spec highestID (cm_ID m)).
    + split; [lia |]. split; [constructor; [lia | exact Hall] |].
      right. destruct Hex as [-> | Hex]; [left; reflexivity | right; exact Hex].
    + split; [lia |]. split; [constructor; [lia | exact Hall] |].
      destruct Hex as [-> | Hex]; [left; reflexivity | right; right; exact Hex].
Qed.

(** X19: [SelectCertificates] returns the selected rows in their protobuf
    form, in their order, together with the error of the query; the highest
    ID it returns is at least the ID of every row and is the ID of one of
    them, or zero when no row has a positive ID. *)
Theorem SelectCertificates_highestID (q : string) (args : QueryArgs) :
  let '(pbs, highestID, err) := SelectCertificates q args in
  exists models,
    Select_certificates ("SELECT " ++ certFields ++ " FROM certificates " ++ q)%string args
    = (models, err) /\
    pbs = map certificateModel_toPb models /\
    0 <= highestID /\
    Forall (fun m => cm_ID m <= highestID) models /\
    (highestID = 0 \/ Exists (fun m => cm_ID m = highestID) models).
Proof.
  unfold SelectCertificates.
  destruct (Select_certificates _ args) as [models err].
  destruct (certificatesLoop_spec models [] 0) as (highest & -> & Hle & Hall & Hex).
  exists models. rewrite app_nil_l. repeat split; assumption.
Qed.

(** X20: whatever the order, the authorizations and the time,
    [statusForOrder] returns one of the five statuses [invalid], [pending],
    [ready], [processing] and [valid] without an error, or no status and an
    internal server error; the fall-through at its end is never reached. *)
Theorem statusForOrder_range (order : Order) (authz : list authzValidity) (now : Z) :
  (exists status,
     In status [core.StatusInvalid; core.StatusPending; core.StatusReady;
                core.StatusProcessing; core.StatusValid] /\
     statusForOrder order authz now = (status, None)) \/
  isInternalError (statusForOrder order authz now).
Proof.
  destruct (Error_ order) as [problem |] eqn:He.
  { left. exists core.StatusInvalid. split; [simpl; auto |].
    unfold statusForOrder. rewrite He. reflexivity. }
  destruct (Before (AsTime (Expires order)) now) eqn:Hx.
  { left. exists core.StatusInvalid. split; [simpl; auto |].
    unfold statusForOrder. rewrite He, Hx. reflexivity. }
  destruct (Nat.eqb_spec (length authz) (length (V2Authorizations order))) as [Hl | Hl].
  2: { right. unfold statusForOrder. rewrite He, Hx.
       apply Nat.eqb_neq in Hl. rewrite Hl. simpl. split; [reflexivity | eauto]. }
  destruct (statusForOrder_after_exits order authz now He Hx Hl) as [Hu Hk].
  destruct (forallb knownStatus authz); [| right; auto].
  destruct (Hk eq_refl) as (Hinv & Hpen & Hval).
  destruct (existsb (authzInvalid now) authz).
  { left. exists core.StatusInvalid. split; [simpl; auto | auto]. }
  destruct (existsb authzPending authz).
  { left. exists core.StatusPending. split; [simpl; auto | auto]. }
  destruct (Hval eq_refl eq_refl) as [_ ->].
  destruct (negb (Nat.eqb (length (Identifiers order)) (length authz))).
  { right. split; [reflexivity | eauto]. }
  destruct (negb (String.eqb (CertificateSerial order) EmptyString)).
  { left. exists core.StatusValid. split; [simpl; auto 10 | reflexivity]. }
  destruct (BeganProcessing order).
  - left. exists core.StatusProcessing. split; [simpl; auto 10 | reflexivity].
  - left. exists core.StatusReady. split; [simpl; auto 10 | reflexivity].
Qed.

End RecordFacts.

(** X14, witness: a valid and an invalid challenge among three. *)
Lemma hasMultipleNonPendingChallenges_count_witness :
  sa.hasMultipleNonPendingChallenges (codec := Ref.RefCodec)
    [sa.mkChallenge "http-01" "valid" "tok" None None [];
     sa.mkChallenge "dns-01" "pending" "tok" None None [];
     sa.mkChallenge "tls-alpn-01" "invalid" "tok" None None []] = true.
Proof.
  apply (hasMultipleNonPendingChallenges_count (codec := Ref.RefCodec)).
  simpl. lia.
Defined.

(** X15, witness: the status [expired] is none of the five. *)
Lemma encoding_tables_inverse_witness :
  sa.statusUint "expired" = 0%Z /\
  sa.indexStr sa.uintToStatus (sa.statusUint "expired") = "pending".
Proof.
  apply (encoding_tables_inverse "expired" 0).
  unfold storedStatuses. simpl. intuition discriminate.
Defined.

(** X16, witness: a name and an address. *)
Lemma identifierModels_round_trip_witness :
  sa.newPBFromIdentifierModels (fmt := Ref.RefFmt)
    [sa.mkIdentifierModel 0 "example.com"; sa.mkIdentifierModel 1 "192.0.2.7"]
  = Ok (sa.mkIdentifiersPB
          [sa.mkIdentifierPB "dns" "example.com"; sa.mkIdentifierPB "ip" "192.0.2.7"]).
Proof.
  apply (identifierModels_round_trip (fmt := Ref.RefFmt)). reflexivity.
Defined.

(** X17, witness: a request for [dns-01], [http-01] and the unknown type
    [foo-01] on an identifier of the unknown type [email] surfaces [http-01]
    and [dns-01] on a [dns] identifier. *)
Lemma newAuthzReqToModel_surfaced_witness :
  let authz := sa.mkNewAuthzRequest (sa.mkIdentifierPB "email" "example.com") 1 None
                 ["dns-01"; "http-01"; "foo-01"] "tok" in
  exists am pb,
    sa.newAuthzReqToModel (storage := Ref.RefStorage) authz EmptyString = Ok am /\
    sa.modelToAuthzPB (fmt := Ref.RefFmt) (codec := Ref.RefCodec) am = Ok pb /\
    sa.pb_Identifier pb = sa.mkIdentifierPB "dns" "example.com" /\
    map sa.ch_Type (sa.pb_Challenges pb) = ["http-01"; "dns-01"].
Proof.
  intros authz. eexists.
  destruct (newAuthzReqToModel_surfaced (fmt := Ref.RefFmt) (codec := Ref.RefCodec)
              (storage := Ref.RefStorage) authz EmptyString _ eq_refl)
    as (pb & token & _ & Hpb & _ & _ & Hi & Hc).
  exists pb. split; [reflexivity |]. split; [exact Hpb |]. split; [exact Hi |].
  rewrite Hc. reflexivity.
Defined.

(** X18, witness: a record of [https://example.com/x] without hostname and
    port gets [example.com] and [443]. *)
Lemma rehydrateHostPort_ok_witness :
  let vr := sa.mkValidationRecord EmptyString EmptyString [] EmptyString
              "https://example.com/x" [] in
  exists vr',
    sa.rehydrateHostPort (fmt := Ref.RefFmt) (codec := Ref.RefCodecURL) vr = Ok vr' /\
    sa.vr_Hostname vr' = "example.com" /\ sa.vr_Port vr' = "443" /\
    sa.rehydrateHostPort (fmt := Ref.RefFmt) (codec := Ref.RefCodecURL) vr' = Ok vr'.
Proof.
  intros vr. eexists. split; [reflexivity |].
  split; [reflexivity |]. split; [reflexivity |].
  eapply (rehydrateHostPort_ok (fmt := Ref.RefFmt) (codec := Ref.RefCodecURL) vr).
  reflexivity.
Defined.

(** X19, witness: of the rows with the IDs 7 and 3, the highest ID is 7. *)
Lemma SelectCertificates_highestID_witness :
  snd (fst (sa.SelectCertificates (storage := Ref.RefStorage) "WHERE id > :id" tt)) = 7%Z /\
  exists models,
    map sa.cert_Serial
        (fst (fst (sa.SelectCertificates (storage := Ref.RefStorage) "WHERE id > :id" tt)))
    = map sa.cm_Serial models /\
    Forall (fun m => (sa.cm_ID m <= 7)%Z) models.
Proof.
  split; [reflexivity |].
  pose proof (SelectCertificates_highestID (storage := Ref.RefStorage)
                "WHERE id > :id" tt) as H.
  destruct (sa.SelectCertificates (storage := Ref.RefStorage) "WHERE id > :id" tt)
    as [[pbs highestID] err] eqn:E.
  destruct H as (models & _ & -> & _ & Hall & _).
  injection E as _ <- _.
  exists models. split; [| exact Hall].
  cbn [fst]. rewrite map_map. reflexivity.
Defined.

(** X20, witness: with one authorization of the unknown status code 9 the
    result is an internal server error. *)
Lemma statusForOrder_range_witness :
  isInternalError
    (sa.statusForOrder (fmt := Ref.RefFmt)
       (sa.mkOrder 6 1 (Some (sa.mkTimestamp 100 0)) None [7%Z]
          [sa.mkIdentifierPB "dns" "example.com"] EmptyString false)
       [sa.mkAuthzValidity 0 "example.com" 9 200000000000] 50).
Proof.
  destruct (statusForOrder_range (fmt := Ref.RefFmt)
              (sa.mkOrder 6 1 (Some (sa.mkTimestamp 100 0)) None [7%Z]
                 [sa.mkIdentifierPB "dns" "example.com"] EmptyString false)
              [sa.mkAuthzValidity 0 "example.com" 9 200000000000] 50)
    as [(status & _ & H) | H]; [discriminate H | exact H].
Defined.

(** ** Keys of overrides *)

Section KeyFacts.
Import GoStrings ratelimits.
Context {fmt : Fmt} {netip : NetIP} {names : Names} {runtime : Runtime}
        {table : NameTable}.

Local Open Scope Z_scope.

(** A text with a separator is cut at the first one. *)
Lemma Contains_cut (key : string) (sep : ascii) :
  Contains key sep = true ->
  exists a p, key = (a ++ String sep p)%string /\ Contains a sep = false.
Proof.
  unfold Contains. induction key as [| c key IH]; simpl; [discriminate |].
  destruct (Ascii.eqb_spec c sep) as [-> | Hne].
  - intros _. exists EmptyString, key. split; reflexivity.
  - simpl. intros H. destruct (IH H) as (a & p & -> & Ha).
    exists (String c a), p. split; [reflexivity |].
    simpl. destruct (Ascii.eqb_spec c sep); [contradiction | exact Ha].
Qed.

(** X21: [parseOverrideNameEnumId] and [parseOverrideNameId] cut the key at
    its first colon: a key is parsed to a name and an id exactly when it is
    the text of the name, a colon and the id, where the text of the name has
    no colon and is the number of a valid name (for the first) or a name of
    the table (for the second), and the id is not empty; the id may hold
    colons. *)
Theorem parseOverrideName_cut (key : string) (name : Z) (id : string) :
  (parseOverrideNameEnumId key = Ok (name, id) <->
   exists nameStr,
     key = (nameStr ++ String ":" id)%string /\ Contains nameStr ":" = false /\
     Atoi nameStr = Some name /\ isValid name = true /\ id <> EmptyString) /\
  (parseOverrideNameId key = Ok (name, id) <->
   exists nameStr,
     key = (nameStr ++ String ":" id)%string /\ Contains nameStr ":" = false /\
     nameStr <> EmptyString /\ StringToName nameStr = Some name /\
     id <> EmptyString).
Proof.
  split.
  - unfold parseOverrideNameEnumId. split.
    + destruct (Contains key ":") eqn:Hc; cbn [negb]; [| discriminate].
      destruct (Contains_cut key ":" Hc) as (a & p & -> & Ha).
      cbv zeta. rewrite (SplitN2_cut a p ":" Ha). cbn [length Nat.eqb negb].
      cbn [lookup list_lookup default from_option Datatypes.id].
      destruct (Atoi a) as [n |] eqn:Hn; [| discriminate].
      destruct (isValid n) eqn:Hv; cbn [negb]; [| discriminate].
      destruct (String.eqb_spec p EmptyString) as [| Hp]; [discriminate |].
      intros [= <- <-]. exists a. repeat split; assumption.
    + intros (a & -> & Ha & Hn & Hv & Hp).
      rewrite Contains_app, Ha. cbn [orb].
      assert (Contains (String ":" id) ":" = true) as -> by reflexivity.
      cbn [negb]. cbv zeta. rewrite (SplitN2_cut a id ":" Ha).
      cbn [length Nat.eqb negb lookup list_lookup default from_option Datatypes.id].
      rewrite Hn, Hv. cbn [negb].
      destruct (String.eqb_spec id EmptyString); [contradiction | reflexivity].
  - unfold parseOverrideNameId. split.
    + destruct (Contains key ":") eqn:Hc; cbn [negb]; [| discriminate].
      destruct (Contains_cut key ":" Hc) as (a & p & -> & Ha).
      cbv zeta. rewrite (SplitN2_cut a p ":" Ha).
      cbn [lookup list_lookup default from_option Datatypes.id].
      destruct (String.eqb_spec a EmptyString) as [| Hne]; [discriminate |].
      destruct (StringToName a) as [n |] eqn:Hn; [| discriminate].
      destruct (String.eqb_spec p EmptyString) as [| Hp]; [discriminate |].
      intros [= <- <-]. exists a. repeat split; assumption.
    + intros (a & -> & Ha & Hne & Hn & Hp).
      rewrite Contains_app, Ha. cbn [orb].
      assert (Contains (String ":" id) ":" = true) as -> by reflexivity.
      cbn [negb]. cbv zeta. rewrite (SplitN2_cut a id ":" Ha).
      cbn [lookup list_lookup default from_option Datatypes.id].
      destruct (String.eqb_spec a EmptyString); [contradiction |].
      rewrite Hn.
      destruct (String.eqb_spec id EmptyString); [contradiction | reflexivity].
Qed.

End KeyFacts.

(** X21, witness: the key of an override of limit 4 for an IPv6 prefix. *)
Lemma parseOverrideName_cut_witness :
  ratelimits.parseOverrideNameEnumId (fmt := Ref.RefFmt) (names := Ref.RefNames)
    (runtime := Ref.RefRuntime) "4:2001:db8::/64" = Ok (4%Z, "2001:db8::/64") /\
  ratelimits.parseOverrideNameId (fmt := Ref.RefFmt) (names := Ref.RefNames)
    (table := Ref.RefNameTable) "CertificatesPerDomain:2001:db8::/64"
  = Ok (4%Z, "2001:db8::/64").
Proof.
  split.
  - apply (proj2 (proj1 (parseOverrideName_cut (fmt := Ref.RefFmt)
                           (names := Ref.RefNames) (runtime := Ref.RefRuntime)
                           (table := Ref.RefNameTable)
                           "4:2001:db8::/64" 4 "2001:db8::/64"))).
    exists "4".
    split; [reflexivity |]. split; [reflexivity |].
    split; [vm_compute; reflexivity |].
    split; [vm_compute; reflexivity | discriminate].
  - apply (proj2 (proj2 (parseOverrideName_cut (fmt := Ref.RefFmt)
                           (names := Ref.RefNames) (runtime := Ref.RefRuntime)
                           (table := Ref.RefNameTable)
                           "CertificatesPerDomain:2001:db8::/64" 4 "2001:db8::/64"))).
    exists "CertificatesPerDomain".
    split; [reflexivity |]. split; [reflexivity |]. split; [discriminate |].
    split; [vm_compute; reflexivity | discriminate].
Defined.

(** ** The registry of limits *)

Section RegistryFacts.
Import GoStrings ratelimits.
Context {fmt : Fmt} {netip : NetIP} {names : Names} {runtime : Runtime}
        {table : NameTable} {limitFiles : LimitFiles}.

Local Open Scope Z_scope.

Lemma ValidateLimit_None (l : Limit) :
  ValidateLimit l = None <-> 0 < Burst l /\ 0 < Count l /\ 0 < Period l.
Proof.
  unfold ValidateLimit.
  destruct (Z.leb_spec (Burst l) 0); [split; [discriminate | lia] |].
  destruct (Z.leb_spec (Count l) 0); [split; [discriminate | lia] |].
  destruct (Z.leb_spec (Period l) 0); [split; [discriminate | lia] |].
  split; [lia | reflexivity].
Qed.

Lemma checkedLimit_default (name : Z) (v : LimitConfig) :
  positiveConfig v -> checkedLimit (defaultLimit name v).
Proof. intros (Hb & Hc & Hp). repeat split; assumption. Qed.

Lemma checkedLimit_override (name : Z) (v : overrideYAML) (entry : overrideIdYAML) :
  positiveConfig (oy_LimitConfig v) -> checkedLimit (overrideLimit name v entry).
Proof. intros (Hb & Hc & Hp). repeat split; assumption. Qed.

(** The loop over the default limits: it returns a map exactly when every
    entry has a known name and a positive configuration, and the map then
    holds what was there and the limits of the entries; it panics only at a
    nil value under a known name. *)
Lemma defaultsLoop_spec (entries : list (string * option LimitConfig))
    (parsed : gmap string Limit) :
  match defaultsLoop entries parsed with
  | Panics msg =>
      msg = nilPointerDereference /\
      exists k, In (k, None) entries /\ is_Some (StringToName k)
  | Returns (Err _) =>
      Exists (fun e => StringToName (fst e) = None \/
                       exists c, snd e = Some c /\ ~ positiveConfig c) entries
  | Returns (Ok parsed') =>
      Forall (fun e => goodDefault (fst e) (snd e)) entries /\
      forall key l, parsed' !! key = Some l ->
        parsed !! key = Some l \/
        exists k v, In (k, Some v) entries /\ defaultOf k v key l
  end.
Proof.
  revert parsed. induction entries as [| [k [v |]] rest IH]; intros parsed; simpl.
  - split; [constructor | auto].
  - destruct (StringToName k) as [name |] eqn:Hn; [| left; left; exact Hn].
    match goal with |- context [ValidateLimit ?l] => set (lim := l) end.
    pose proof (ValidateLimit_None lim) as Hv.
    destruct (ValidateLimit lim) as [err |].
    { left. right. cbn [snd]. exists v. split; [reflexivity |]. intros Hpos.
      destruct Hv as [_ Hv]. specialize (Hv Hpos). discriminate. }
    destruct (proj1 Hv eq_refl) as (Hb & Hc & Hp). unfold precompute.
    assert ((Count lim =? 0) = false) as -> by (apply Z.eqb_neq; lia).
    cbv zeta.
    match goal with |- context [defaultsLoop rest ?m] => specialize (IH m) end.
    change (Burst lim) with (lc_Burst v) in *.
    change (Count lim) with (lc_Count v) in *.
    change (Period lim) with (lc_Period v) in *.
    cbn [Name Comment isOverride lim] in *.
    fold (defaultLimit name v) in *.
    destruct (defaultsLoop rest _) as [[parsed' | err] | msg].
    + destruct IH as [HF Hin]. split.
      * constructor; [| exact HF]. cbn [fst snd].
        split; [eauto |]. exists v. split; [reflexivity | repeat split; assumption].
      * intros key l Hl. destruct (Hin key l Hl) as [Hold | (k' & v' & Hin' & Hof)].
        -- apply lookup_insert_Some in Hold as [[<- <-] | [Hne Hold]].
           ++ right. exists k, v. split; [left; reflexivity |].
              exists name. repeat split; assumption.
           ++ left. exact Hold.
        -- right. exists k', v'. split; [right; exact Hin' | exact Hof].
    + right. exact IH.
    + destruct IH as [Hmsg (k' & Hin' & Hk')]. split; [exact Hmsg |].
      exists k'. split; [right; exact Hin' | exact Hk'].
  - destruct (StringToName k) as [name |] eqn:Hn; [| left; left; exact Hn].
    split; [reflexivity |]. exists k. split; [left; reflexivity | eauto].
Qed.

Lemma In_map_to_list {A} (m : gmap string A) (entries : list (string * A))
    (k : string) (v : A) :
  entries ≡ₚ map_to_list m -> In (k, v) entries <-> m !! k = Some v.
Proof.
  intros Hp. rewrite <- elem_of_map_to_list, <- Hp. symmetry. apply list_elem_of_In.
Qed.

(** What [parseDefaultLimits] returns, for which configurations, and when it
    panics. *)
Lemma parseDefaultLimits_spec (newDefaultLimits : gmap string (option LimitConfig))
    (out : run (result (gmap string Limit))) :
  parseDefaultLimits newDefaultLimits out ->
  ((exists parsed, out = Returns (Ok parsed)) <->
   map_Forall goodDefault newDefaultLimits) /\
  (forall msg, out = Panics msg ->
     msg = nilPointerDereference /\
     exists k, newDefaultLimits !! k = Some None /\ is_Some (StringToName k)) /\
  (map_Forall nilOrGoodDefault newDefaultLimits ->
   (exists k, newDefaultLimits !! k = Some None) ->
   out = Panics nilPointerDereference) /\
  (forall parsed key l,
     out = Returns (Ok parsed) -> parsed !! key = Some l ->
     checkedLimit l /\ isOverride l = false /\
     exists k v, newDefaultLimits !! k = Some (Some v) /\ defaultOf k v key l).
Proof.
  intros (entries & Hperm & ->). unfold parseDefaultLimitsIn.
  pose proof (defaultsLoop_spec entries ∅) as Hspec.
  assert (Hall : forall P : string -> option LimitConfig -> Prop,
            Forall (fun e => P (fst e) (snd e)) entries <->
            map_Forall P newDefaultLimits).
  { intros P. rewrite map_Forall_to_list, <- Hperm. apply Forall_iff.
    intros [k v]. reflexivity. }
  destruct (defaultsLoop entries ∅) as [[parsed | err] | msg].
  - destruct Hspec as [HF Hin]. split; [| split; [| split]].
    + split; [intros _; apply Hall; exact HF | eauto].
    + intros msg H. discriminate.
    + intros _ (k & Hk). exfalso.
      apply (proj2 (In_map_to_list newDefaultLimits entries k None Hperm)) in Hk.
      rewrite Forall_forall in HF. apply list_elem_of_In in Hk.
      destruct (HF _ Hk) as (_ & c & Hc & _). discriminate Hc.
    + intros parsed' key l [= <-] Hl.
      destruct (Hin key l Hl) as [Hempty | (k & v & Hkv & Hof)].
      { rewrite lookup_empty in Hempty. discriminate. }
      pose proof Hof as (name & _ & Hpos & _ & ->).
      split; [apply checkedLimit_default; exact Hpos |]. split; [reflexivity |].
      exists k, v. split; [| exact Hof]. apply (In_map_to_list _ entries); assumption.
  - apply Exists_exists in Hspec as ([k v] & He & Hbad). cbn [fst snd] in Hbad.
    apply list_elem_of_In in He.
    apply (proj1 (In_map_to_list newDefaultLimits entries k v Hperm)) in He.
    split; [| split; [| split]].
    + split; [intros [parsed H]; discriminate |].
      intros Hm. exfalso. destruct (Hm k v He) as ([n Hn] & c & -> & Hpos).
      destruct Hbad as [Hnone | (c' & [= <-] & Hneg)]; [congruence | contradiction].
    + intros msg H. discriminate.
    + intros Hm _. exfalso. destruct (Hm k v He) as ([n Hn] & Hv).
      destruct Hbad as [Hnone | (c & -> & Hneg)]; [congruence |].
      destruct Hv as [H | (c' & [= <-] & Hpos)]; [discriminate | contradiction].
    + intros parsed key l H. discriminate.
  - destruct Hspec as [-> (k & Hin & Hk)].
    apply (proj1 (In_map_to_list newDefaultLimits entries k None Hperm)) in Hin.
    split; [| split; [| split]].
    + split; [intros [parsed H]; discriminate |].
      intros Hm. destruct (Hm k None Hin) as (_ & c & H & _). discriminate H.
    + intros msg [= <-]. split; [reflexivity |]. exists k. split; assumption.
    + intros _ _. reflexivity.
    + intros parsed key l H. discriminate.
Qed.

(** X22: [parseDefaultLimits] returns a map of limits exactly when every
    key of the configuration is a name of the table and every value is a
    configuration, not nil, whose burst, count and period are positive; each
    limit of the map is then stored under the enum string of its name and
    is a checked limit: the positive burst, count and period of an entry,
    with the emission interval and the burst offset computed from them. It
    panics only by reading through a nil value under a known name, and it
    does panic when some value is nil, every key is a name of the table and
    every value that is not nil has positive burst, count and period. *)
Theorem parseDefaultLimits_checked
    (newDefaultLimits : gmap string (option LimitConfig))
    (out : run (result (gmap string Limit))) :
  parseDefaultLimits newDefaultLimits out ->
  ((exists parsed, out = Returns (Ok parsed)) <->
   map_Forall goodDefault newDefaultLimits) /\
  (forall msg, out = Panics msg ->
     msg = nilPointerDereference /\
     exists k, newDefaultLimits !! k = Some None /\ is_Some (StringToName k)) /\
  (map_Forall nilOrGoodDefault newDefaultLimits ->
   (exists k, newDefaultLimits !! k = Some None) ->
   out = Panics nilPointerDereference) /\
  (forall parsed key l,
     out = Returns (Ok parsed) -> parsed !! key = Some l ->
     checkedLimit l /\ isOverride l = false /\
     exists k v, newDefaultLimits !! k = Some (Some v) /\ defaultOf k v key l).
Proof. exact (parseDefaultLimits_spec newDefaultLimits out). Qed.

(** The loop over the ids of an override: the limits it adds. *)
Lemma idsLoop_spec (k : string) (v : overrideYAML) (name : Z)
    (ids : list overrideIdYAML) (parsed : gmap string Limit) :
  StringToName k = Some name ->
  (forall entry, In entry ids -> In entry (oy_Ids v)) ->
  match idsLoop k v name ids parsed with
  | Returns (Ok parsed') =>
      forall key l, parsed' !! key = Some l ->
        parsed !! key = Some l \/ overrideOf k v key l
  | _ => True
  end.
Proof.
  intros Hn. revert parsed. induction ids as [| entry rest IH]; intros parsed Hsub; simpl.
  - auto.
  - destruct (validateIdForName name (oi_Id entry)) as [err |] eqn:Hval; [exact I |].
    destruct (overrideBucketId name (oi_Id entry)) as [id | err] eqn:Hid; [| exact I].
    unfold precompute at 1. cbn [Count Period Burst Name Comment isOverride].
    destruct (lc_Count (oy_LimitConfig v) =? 0) eqn:Hz; [exact I |].
    cbv zeta. fold (overrideLimit name v entry).
    pose proof (ValidateLimit_None (overrideLimit name v entry)) as Hv.
    destruct (ValidateLimit (overrideLimit name v entry)) as [err |]; [exact I |].
    destruct (proj1 Hv eq_refl) as (Hb & Hc & Hp).
    match goal with |- context [idsLoop k v name rest ?m] =>
      specialize (IH m (fun e He => Hsub e (or_intror He))) end.
    destruct (idsLoop k v name rest _) as [[parsed' | err] | msg]; [| exact I | exact I].
    intros key l Hl. destruct (IH key l Hl) as [Hold | Hof]; [| right; exact Hof].
    apply lookup_insert_Some in Hold as [[<- <-] | [Hne Hold]]; [| left; exact Hold].
    right. exists name, entry, id.
    split; [exact Hn |]. split; [apply Hsub; left; reflexivity |].
    split; [exact Hval |]. split; [exact Hid |].
    split; [repeat split; assumption |]. split; reflexivity.
Qed.

Lemma overrideEntriesLoop_spec (ov : list (string * overrideYAML))
    (parsed : gmap string Limit) :
  match overrideEntriesLoop ov parsed with
  | Returns (Ok parsed') =>
      forall key l, parsed' !! key = Some l ->
        parsed !! key = Some l \/ exists k v, In (k, v) ov /\ overrideOf k v key l
  | _ => True
  end.
Proof.
  revert parsed. induction ov as [| [k v] rest IH]; intros parsed; simpl.
  - auto.
  - destruct (StringToName k) as [name |] eqn:Hn; [| exact I].
    pose proof (idsLoop_spec k v name (oy_Ids v) parsed Hn (fun _ H => H)) as Hids.
    destruct (idsLoop k v name (oy_Ids v) parsed) as [[parsed1 | err] | msg];
      [| exact I | exact I].
    specialize (IH parsed1).
    destruct (overrideEntriesLoop rest parsed1) as [[parsed' | err] | msg];
      [| exact I | exact I].
    intros key l Hl. destruct (IH key l Hl) as [Hold | (k' & v' & Hin & Hof)].
    + destruct (Hids key l Hold) as [Hold' | Hof]; [left; exact Hold' |].
      right. exists k, v. split; [left; reflexivity | exact Hof].
    + right. exists k', v'. split; [right; exact Hin | exact Hof].
Qed.

Lemma overridesLoop_spec (orders : list (list (string * overrideYAML)))
    (parsed : gmap string Limit) :
  match overridesLoop orders parsed with
  | Returns (Ok parsed') =>
      forall key l, parsed' !! key = Some l ->
        parsed !! key = Some l \/
        exists ov k v, In ov orders /\ In (k, v) ov /\ overrideOf k v key l
  | _ => True
  end.
Proof.
  revert parsed. induction orders as [| ov rest IH]; intros parsed; simpl.
  - auto.
  - pose proof (overrideEntriesLoop_spec ov parsed) as Hov.
    destruct (overrideEntriesLoop ov parsed) as [[parsed1 | err] | msg];
      [| exact I | exact I].
    specialize (IH parsed1).
    destruct (overridesLoop rest parsed1) as [[parsed' | err] | msg];
      [| exact I | exact I].
    intros key l Hl. destruct (IH key l Hl) as [Hold | (ov' & k & v & Hin & Hkv & Hof)].
    + destruct (Hov key l Hold) as [Hold' | (k & v & Hkv & Hof)]; [left; exact Hold' |].
      right. exists ov, k, v. split; [left; reflexivity | split; assumption].
    + right. exists ov', k, v. split; [right; exact Hin | split; assumption].
Qed.

Lemma parseOverrideLimits_spec (ovs : list (gmap string overrideYAML))
    (orders : list (list (string * overrideYAML))) (parsed : gmap string Limit)
    (key : string) (l : Limit) :
  iterations orders ovs ->
  parseOverrideLimitsIn orders = Returns (Ok parsed) ->
  parsed !! key = Some l ->
  checkedLimit l /\ isOverride l = true /\
  exists m k v, In m ovs /\ m !! k = Some v /\ overrideOf k v key l.
Proof.
  intros Hit Hout Hl. unfold parseOverrideLimitsIn in Hout.
  pose proof (overridesLoop_spec orders ∅) as Hspec. rewrite Hout in Hspec.
  destruct (Hspec key l Hl) as [Hempty | (ov & k & v & Hin & Hkv & Hof)].
  { rewrite lookup_empty in Hempty. discriminate. }
  pose proof Hof as (name & entry & id & _ & _ & _ & _ & Hpos & _ & ->).
  split; [apply checkedLimit_override; exact Hpos |]. split; [reflexivity |].
  destruct (Forall2_In_left _ _ _ _ Hit Hin) as (m & Hm & Hperm).
  exists m, k, v. split; [exact Hm |]. split; [| exact Hof].
  apply (In_map_to_list _ ov); assumption.
Qed.

(** X23: each limit of a map that [parseOverrideLimits] returns is a
    checked limit marked as an override: it has the positive burst, count
    and period of an override of the input, the comment of one of its ids,
    and the emission interval and burst offset computed from them; and it
    is stored under the enum string of its name, joined by
    [joinWithColon] with the id as the [switch] on the name rewrote it. *)
Theorem parseOverrideLimits_checked (newOverridesYAML : list (gmap string overrideYAML))
    (out : run (result (gmap string Limit))) (parsed : gmap string Limit)
    (key : string) (l : Limit) :
  parseOverrideLimits newOverridesYAML out ->
  out = Returns (Ok parsed) ->
  parsed !! key = Some l ->
  checkedLimit l /\ isOverride l = true /\
  exists m k v, In m newOverridesYAML /\ m !! k = Some v /\ overrideOf k v key l.
Proof.
  intros (orders & Hit & ->) Hout Hl.
  exact (parseOverrideLimits_spec _ orders parsed key l Hit Hout Hl).
Qed.

Lemma singleton_entries {A} (k : string) (v : A) (entries : list (string * A)) :
  entries ≡ₚ map_to_list ({[k := v]} : gmap string A) -> entries = [(k, v)].
Proof.
  rewrite map_to_list_singleton. intros H. apply Permutation_singleton_r. exact H.
Qed.

(** X24: [parseOverrideLimits] computes the emission interval before it
    validates the limit: when the first map of the input is one override
    with a known name, a count of zero and a first id that
    [validateIdForName] and the [switch] on the name accept, the call
    panics with a division by zero, where [parseDefaultLimits] returns an
    error for a default limit with a count of zero. *)
Theorem parseOverrideLimits_zero_count (k : string) (v : overrideYAML) (name : Z)
    (entry : overrideIdYAML) (more : list overrideIdYAML) (id : string)
    (rest : list (gmap string overrideYAML)) :
  StringToName k = Some name ->
  oy_Ids v = entry :: more ->
  validateIdForName name (oi_Id entry) = None ->
  overrideBucketId name (oi_Id entry) = Ok id ->
  lc_Count (oy_LimitConfig v) = 0 ->
  (forall out, parseOverrideLimits ({[k := v]} :: rest) out ->
     out = Panics "runtime error: integer divide by zero") /\
  (forall out, parseDefaultLimits {[k := Some (oy_LimitConfig v)]} out ->
     exists err, out = Returns (Err err)).
Proof.
  intros Hn Hids Hval Hid Hz. split.
  - intros out (orders & Hit & ->).
    inversion Hit as [| entries m orders' ovs Hperm Hrest]; subst.
    apply singleton_entries in Hperm as ->.
    unfold parseOverrideLimitsIn. cbn [overridesLoop overrideEntriesLoop].
    rewrite Hn, Hids. cbn [idsLoop]. rewrite Hval, Hid.
    unfold precompute. cbn [Count]. rewrite Hz. reflexivity.
  - intros out (entries & Hperm & ->).
    apply singleton_entries in Hperm as ->.
    unfold parseDefaultLimitsIn. cbn [defaultsLoop]. rewrite Hn.
    unfold ValidateLimit. cbn [Burst Count Period]. rewrite Hz.
    destruct (lc_Burst (oy_LimitConfig v) <=? 0); eauto.
Qed.

(** X25: every limit that [getLimit] returns from a registry made by
    [newLimitRegistry] is a checked limit, and [getLimit] returns it for a
    valid name only: the override stored under the bucket key, when the key
    is not empty and has one, whatever the name asked for; else the default
    stored under the enum string of the name. Its only other answers are
    the error for a name that is not valid and [errLimitDisabled] for a
    valid name without a default. *)
Theorem getLimit_checked (defaultLimits : gmap string (option LimitConfig))
    (overrideLimits : list (gmap string overrideYAML))
    (reg : limitRegistry) (name : Z) (bucketKey : string) :
  newLimitRegistry defaultLimits overrideLimits (Returns (Ok reg)) ->
  match getLimit reg name bucketKey with
  | Ok l =>
      checkedLimit l /\ isValid name = true /\
      ((bucketKey <> EmptyString /\ reg_overrides reg !! bucketKey = Some l /\
        isOverride l = true) \/
       ((bucketKey = EmptyString \/ reg_overrides reg !! bucketKey = None) /\
        reg_defaults reg !! EnumString name = Some l /\ isOverride l = false))
  | Err err =>
      isValid name = false \/
      (err = errLimitDisabled /\ reg_defaults reg !! EnumString name = None /\
       (bucketKey = EmptyString \/ reg_overrides reg !! bucketKey = None))
  end.
Proof.
  intros (entries & orders & Hperm & Hit & Hout).
  unfold newLimitRegistryIn in Hout.
  pose proof (parseDefaultLimits_spec defaultLimits (parseDefaultLimitsIn entries)
                (ex_intro _ entries (conj Hperm eq_refl))) as (_ & _ & _ & Hdef).
  destruct (parseDefaultLimitsIn entries) as [[regDefaults | err] | msg];
    [| discriminate | discriminate].
  pose proof (fun parsed key l =>
                parseOverrideLimits_spec overrideLimits orders parsed key l Hit) as Hov.
  destruct (parseOverrideLimitsIn orders) as [[regOverrides | err] | msg];
    [| discriminate | discriminate].
  injection Hout as ->. cbn [reg_defaults reg_overrides] in *.
  unfold getLimit. cbn [reg_defaults reg_overrides].
  destruct (isValid name); cbn [negb]; [| left; reflexivity].
  destruct (String.eqb_spec bucketKey EmptyString) as [-> | Hkey]; cbn [negb].
  - destruct (regDefaults !! EnumString name) as [dl |] eqn:Hd.
    + destruct (Hdef _ _ dl eq_refl Hd) as (Hc & Hio & _).
      split; [exact Hc |]. split; [reflexivity |]. right. auto.
    + right. auto.
  - destruct (regOverrides !! bucketKey) as [ol |] eqn:Ho.
    + destruct (Hov _ bucketKey ol eq_refl Ho) as (Hc & Hio & _).
      split; [exact Hc |]. split; [reflexivity |]. left. auto.
    + destruct (regDefaults !! EnumString name) as [dl |] eqn:Hd.
      * destruct (Hdef _ _ dl eq_refl Hd) as (Hc & Hio & _).
        split; [exact Hc |]. split; [reflexivity |]. right. auto.
      * right. auto.
Qed.

End RegistryFacts.

(** ** What the export writes *)

Section ExportFacts.
Import GoStrings ratelimits.
Context {fmt : Fmt} {names : Names} {runtime : Runtime} {sorter : Sort}
        {laws : SortLaws}.



End ExportFacts.

(** X22, witness: a default of 300 new orders per account in three hours:
    one order each 36 seconds; and the name of that limit without a value,
    for which the call panics. *)
Lemma parseDefaultLimits_checked_witness :
  let v := ratelimits.mkLimitConfig 300 300 10800000000000 in
  let l := defaultLimit 3 v in
  (checkedLimit l /\ ratelimits.isOverride l = false /\
   ratelimits.emissionInterval l = 36000000000%Z) /\
  ratelimits.parseDefaultLimitsIn (fmt := Ref.RefFmt) (names := Ref.RefNames)
    (runtime := Ref.RefRuntime) (table := Ref.RefNameTable)
    [("NewOrdersPerAccount", None)]
  = ratelimits.Panics ratelimits.nilPointerDereference.
Proof.
  intros v l. split.
  - destruct (parseDefaultLimits_checked (fmt := Ref.RefFmt) (names := Ref.RefNames)
                (runtime := Ref.RefRuntime) (table := Ref.RefNameTable)
                {["NewOrdersPerAccount" := Some v]}
                (ratelimits.Returns (Ok {["3" := l]})))
      as (_ & _ & _ & H).
    { exists [("NewOrdersPerAccount", Some v)]. split.
      - rewrite map_to_list_singleton. reflexivity.
      - vm_compute. reflexivity. }
    destruct (H {["3" := l]} "3" l eq_refl) as (Hc & Ho & _).
    { apply lookup_singleton_eq. }
    split; [exact Hc |]. split; [exact Ho |]. vm_compute. reflexivity.
  - destruct (parseDefaultLimits_checked (fmt := Ref.RefFmt) (names := Ref.RefNames)
                (runtime := Ref.RefRuntime) (table := Ref.RefNameTable)
                {["NewOrdersPerAccount" := None]}
                (ratelimits.parseDefaultLimitsIn (fmt := Ref.RefFmt)
                   (names := Ref.RefNames) (runtime := Ref.RefRuntime)
                   (table := Ref.RefNameTable) [("NewOrdersPerAccount", None)]))
      as (_ & _ & H & _).
    { exists [("NewOrdersPerAccount", None)]. split; [| reflexivity].
      rewrite map_to_list_singleton. reflexivity. }
    apply H.
    + apply map_Forall_singleton. split; [eexists; reflexivity | left; reflexivity].
    + exists "NewOrdersPerAccount". apply lookup_singleton_eq.
Defined.

(** X23, witness: an override of 500 new orders per account for the
    account 12345 is stored under [3:12345]. *)
Lemma parseOverrideLimits_checked_witness :
  let v := ratelimits.mkOverrideYAML
             (ratelimits.mkLimitConfig 500 500 10800000000000)
             [ratelimits.mkOverrideIdYAML "12345" "a large account"] in
  let l := overrideLimit 3 v (ratelimits.mkOverrideIdYAML "12345" "a large account") in
  checkedLimit l /\ ratelimits.isOverride l = true.
Proof.
  intros v l.
  destruct (parseOverrideLimits_checked (fmt := Ref.RefFmt) (names := Ref.RefNames)
              (runtime := Ref.RefRuntime) (table := Ref.RefNameTable)
              [{["NewOrdersPerAccount" := v]}]
              (ratelimits.Returns (Ok {["3:12345" := l]}))
              {["3:12345" := l]} "3:12345" l)
    as (Hc & Ho & _).
  - exists [[("NewOrdersPerAccount", v)]]. split.
    + constructor; [| constructor]. rewrite map_to_list_singleton. reflexivity.
    + vm_compute. reflexivity.
  - reflexivity.
  - apply lookup_singleton_eq.
  - split; [exact Hc | exact Ho].
Defined.

(** X24, witness: an override of new orders per account with a count of
    zero for the account 12345. *)
Lemma parseOverrideLimits_zero_count_witness :
  let v := ratelimits.mkOverrideYAML
             (ratelimits.mkLimitConfig 500 0 10800000000000)
             [ratelimits.mkOverrideIdYAML "12345" EmptyString] in
  ratelimits.parseOverrideLimitsIn (fmt := Ref.RefFmt) (names := Ref.RefNames)
    (runtime := Ref.RefRuntime) (table := Ref.RefNameTable)
    [[("NewOrdersPerAccount", v)]]
  = ratelimits.Panics "runtime error: integer divide by zero" /\
  exists err,
    ratelimits.parseDefaultLimitsIn (fmt := Ref.RefFmt) (names := Ref.RefNames)
      (runtime := Ref.RefRuntime) (table := Ref.RefNameTable)
      [("NewOrdersPerAccount", Some (ratelimits.oy_LimitConfig v))]
    = ratelimits.Returns (Err err).
Proof.
  intros v.
  destruct (parseOverrideLimits_zero_count (fmt := Ref.RefFmt) (names := Ref.RefNames)
              (runtime := Ref.RefRuntime) (table := Ref.RefNameTable)
              "NewOrdersPerAccount" v 3
              (ratelimits.mkOverrideIdYAML "12345" EmptyString) [] "12345" []
              eq_refl eq_refl eq_refl eq_refl eq_refl) as [Hp Hd].
  split.
  - apply Hp. exists [[("NewOrdersPerAccount", v)]]. split; [| reflexivity].
    constructor; [| constructor]. rewrite map_to_list_singleton. reflexivity.
  - apply Hd. exists [("NewOrdersPerAccount", Some (ratelimits.oy_LimitConfig v))].
    split; [| reflexivity]. rewrite map_to_list_singleton. reflexivity.
Defined.

(** X25, witness: a registry with a default for new orders per account and
    an override for the account 12345 answers with the override for its
    bucket key and with the default for another key. *)
Lemma getLimit_checked_witness :
  let d := ratelimits.mkLimitConfig 300 300 10800000000000 in
  let v := ratelimits.mkOverrideYAML
             (ratelimits.mkLimitConfig 500 500 10800000000000)
             [ratelimits.mkOverrideIdYAML "12345" "a large account"] in
  let reg := ratelimits.mkLimitRegistry
               {["3" := defaultLimit 3 d]}
               {["3:12345" :=
                   overrideLimit 3 v (ratelimits.mkOverrideIdYAML "12345" "a large account")]} in
  match ratelimits.getLimit (fmt := Ref.RefFmt) (names := Ref.RefNames)
          (table := Ref.RefNameTable) reg 3 "3:12345" with
  | Ok l => checkedLimit l /\ ratelimits.Count l = 500%Z
  | Err _ => False
  end.
Proof.
  intros d v reg.
  pose proof (getLimit_checked (fmt := Ref.RefFmt) (names := Ref.RefNames)
                (runtime := Ref.RefRuntime) (table := Ref.RefNameTable)
                {["NewOrdersPerAccount" := Some d]} [{["NewOrdersPerAccount" := v]}]
                reg 3 "3:12345") as H.
  assert (Hreg : ratelimits.newLimitRegistry (fmt := Ref.RefFmt) (names := Ref.RefNames)
                   (runtime := Ref.RefRuntime) (table := Ref.RefNameTable)
                   {["NewOrdersPerAccount" := Some d]} [{["NewOrdersPerAccount" := v]}]
                   (ratelimits.Returns (Ok reg))).
  { exists [("NewOrdersPerAccount", Some d)], [[("NewOrdersPerAccount", v)]].
    split; [rewrite map_to_list_singleton; reflexivity |].
    split; [constructor; [rewrite map_to_list_singleton; reflexivity | constructor] |].
    vm_compute. reflexivity. }
  specialize (H Hreg).
  destruct (ratelimits.getLimit (fmt := Ref.RefFmt) (names := Ref.RefNames)
              (table := Ref.RefNameTable) reg 3 "3:12345") as [l | err] eqn:E.
  - destruct H as (Hc & _). split; [exact Hc |].
    vm_compute in E. injection E as <-. reflexivity.
  - vm_compute in E. discriminate E.
Defined.


(** ** A registry from files *)

Section RegistryFileFacts.
Import GoStrings ratelimits.
Context {fmt : Fmt} {netip : NetIP} {names : Names} {runtime : Runtime}
        {table : NameTable} {limitFiles : LimitFiles}.

Local Open Scope Z_scope.

(** X27: [newLimitRegistryFromFiles] with an empty path of overrides reads
    the file of defaults only. It returns the error of reading or decoding
    that file, or the error of a default that is not valid; it panics only
    when the file decodes to a map with a nil value under a known name, by
    reading through that value; and a registry it returns has no override,
    so that [getLimit] answers for every bucket key as it does without
    one. *)
Theorem newLimitRegistryFromFiles_defaults_only (defaultsPath : string)
    (out : run (result limitRegistry)) :
  newLimitRegistryFromFiles defaultsPath EmptyString out ->
  (forall msg, out = Panics msg ->
     msg = nilPointerDereference /\
     exists defaultsData k,
       loadDefaults defaultsPath = Ok defaultsData /\
       defaultsData !! k = Some None /\ is_Some (StringToName k)) /\
  (forall defaultsData,
     loadDefaults defaultsPath = Ok defaultsData ->
     map_Forall nilOrGoodDefault defaultsData ->
     (exists k, defaultsData !! k = Some None) ->
     out = Panics nilPointerDereference) /\
  (forall err, loadDefaults defaultsPath = Err err -> out = Returns (Err err)) /\
  (forall reg, out = Returns (Ok reg) ->
     reg_overrides reg = ∅ /\
     (exists defaultsData,
        loadDefaults defaultsPath = Ok defaultsData /\
        parseDefaultLimits defaultsData (Returns (Ok (reg_defaults reg)))) /\
     forall name bucketKey, getLimit reg name bucketKey = getLimit reg name EmptyString).
Proof.
  unfold newLimitRegistryFromFiles.
  destruct (loadDefaults defaultsPath) as [defaultsData | err0].
  2: { intros ->. split; [discriminate |]. split; [discriminate |].
       split; [intros err [= ->]; reflexivity |].
       intros reg H. discriminate. }
  rewrite String.eqb_refl.
  intros (entries & orders & Hperm & Hit & ->).
  inversion Hit; subst. unfold newLimitRegistryIn.
  pose proof (parseDefaultLimits_spec defaultsData (parseDefaultLimitsIn entries)
                (ex_intro _ entries (conj Hperm eq_refl))) as (_ & Hpanic & Hnil & _).
  destruct (parseDefaultLimitsIn entries) as [[regDefaults | err] | msg] eqn:Hd.
  - cbn. split; [discriminate |].
    split; [intros d [= <-] Hm Hk; specialize (Hnil Hm Hk); discriminate |].
    split; [discriminate |].
    intros reg [= <-]. cbn [reg_overrides reg_defaults].
    split; [reflexivity |]. split.
    + exists defaultsData. split; [reflexivity |].
      exists entries. split; [exact Hperm | symmetry; exact Hd].
    + intros name bucketKey. unfold getLimit. cbn [reg_overrides reg_defaults].
      destruct (negb (isValid name)); [reflexivity |].
      rewrite lookup_empty. destruct (negb (String.eqb bucketKey EmptyString)); reflexivity.
  - split; [discriminate |].
    split; [intros d [= <-] Hm Hk; specialize (Hnil Hm Hk); discriminate |].
    split; [discriminate |]. intros reg H. discriminate.
  - destruct (Hpanic msg eq_refl) as [-> (k & Hk & Hn)].
    split; [| split; [| split]].
    + intros msg [= <-]. split; [reflexivity |]. exists defaultsData, k. auto.
    + intros d _ _ _. reflexivity.
    + discriminate.
    + intros reg H. discriminate.
Qed.

End RegistryFileFacts.

(** X27, witness: the registry of [defaults.yml] alone answers for the
    bucket key [3:12345] with the default of 300 new orders; and making a
    registry from [null.yml], where the name of a limit has no value,
    panics. *)
Lemma newLimitRegistryFromFiles_defaults_only_witness :
  let reg := ratelimits.mkLimitRegistry
               {["3" := defaultLimit 3 (ratelimits.mkLimitConfig 300 300 10800000000000)]}
               ∅ in
  ratelimits.getLimit (fmt := Ref.RefFmt) (names := Ref.RefNames)
    (table := Ref.RefNameTable) reg 3 "3:12345"
  = ratelimits.getLimit (fmt := Ref.RefFmt) (names := Ref.RefNames)
      (table := Ref.RefNameTable) reg 3 EmptyString /\
  ratelimits.newLimitRegistryIn (fmt := Ref.RefFmt) (names := Ref.RefNames)
    (runtime := Ref.RefRuntime) (table := Ref.RefNameTable)
    [("NewOrdersPerAccount", None)] []
  = ratelimits.Panics ratelimits.nilPointerDereference.
Proof.
  intros reg. split.
  - destruct (newLimitRegistryFromFiles_defaults_only (fmt := Ref.RefFmt)
                (names := Ref.RefNames) (runtime := Ref.RefRuntime)
                (table := Ref.RefNameTable) (limitFiles := Ref.RefLimitFiles)
                "defaults.yml" (ratelimits.Returns (Ok reg))) as (_ & _ & _ & H).
    + exists [("NewOrdersPerAccount",
               Some (ratelimits.mkLimitConfig 300 300 10800000000000))], [].
      split; [rewrite map_to_list_singleton; reflexivity |].
      split; [constructor | vm_compute; reflexivity].
    + destruct (H reg eq_refl) as (_ & _ & Hg). apply Hg.
  - destruct (newLimitRegistryFromFiles_defaults_only (fmt := Ref.RefFmt)
                (names := Ref.RefNames) (runtime := Ref.RefRuntime)
                (table := Ref.RefNameTable) (limitFiles := Ref.RefLimitFiles)
                "null.yml"
                (ratelimits.newLimitRegistryIn (fmt := Ref.RefFmt)
                   (names := Ref.RefNames) (runtime := Ref.RefRuntime)
                   (table := Ref.RefNameTable) [("NewOrdersPerAccount", None)] []))
      as (_ & H & _).
    + exists [("NewOrdersPerAccount", None)], [].
      split; [rewrite map_to_list_singleton; reflexivity |].
      split; [constructor | reflexivity].
    + apply (H {["NewOrdersPerAccount" := None]} eq_refl).
      * apply map_Forall_singleton. split; [eexists; reflexivity | left; reflexivity].
      * exists "NewOrdersPerAccount". apply lookup_singleton_eq.
Defined.

(** ** Queries for authorizations *)

Section QueryFacts.
Import GoStrings identifier sa.
Context {fmt : Fmt} {codec : Codec} {store : AuthzStore}.

Lemma conditionsLoop_spec (groups : list (IdentifierType * list string))
    (conditions : list string) (args : list queryArg) :
  conditionsLoop groups conditions args =
  (conditions ++ map (fun g => typeCondition (length (snd g))) groups,
   args ++ flat_map typeArgs groups).
Proof.
  revert conditions args. induction groups as [| [idType idValues] rest IH];
    intros conditions args; simpl.
  - rewrite !app_nil_r. reflexivity.
  - rewrite IH. unfold typeArgs at 2. cbn [fst snd].
    rewrite <- !app_assoc. reflexivity.
Qed.

(** The map of the types grows value by value. *)
Lemma identsByType_step (m : gmap IdentifierType (list string)) (idents : list ACMEIdentifier) :
  let step := fun (m : gmap IdentifierType (list string)) id =>
                <[Type_ id := default [] (m !! Type_ id) ++ [Value id]]> m in
  length <$> foldl step m idents
  = foldl (fun c t => <[t := S (default 0%nat (c !! t))]> c) (length <$> m)
          (map Type_ idents).
Proof.
  intros step. revert m. induction idents as [| id rest IH]; intros m; simpl.
  - reflexivity.
  - rewrite IH. f_equal. unfold step. rewrite fmap_insert, lookup_fmap.
    f_equal. rewrite length_app. simpl.
    destruct (m !! Type_ id); simpl; lia.
Qed.

Lemma identsByType_counts (idents : list ACMEIdentifier) :
  length <$> identsByType idents = countByType (map Type_ idents).
Proof.
  unfold identsByType, countByType.
  rewrite (identsByType_step ∅ idents). rewrite fmap_empty. reflexivity.
Qed.

(** What the map of the types holds: for each identifier its value under
    its type, and nothing but values of identifiers. *)
Lemma identsByType_values (idents : list ACMEIdentifier) :
  (forall id, In id idents ->
     exists values, identsByType idents !! Type_ id = Some values /\
                    In (Value id) values) /\
  (forall t values value, identsByType idents !! t = Some values -> In value values ->
     exists id, In id idents /\ Value id = value).
Proof.
  unfold identsByType.
  set (step := fun (m : gmap IdentifierType (list string)) id =>
                 <[Type_ id := default [] (m !! Type_ id) ++ [Value id]]> m).
  assert (Hgen : forall (l : list ACMEIdentifier) (m : gmap IdentifierType (list string)),
            (forall t values value, m !! t = Some values -> In value values ->
               exists values', foldl step m l !! t = Some values' /\ In value values') /\
            (forall id, In id l ->
               exists values, foldl step m l !! Type_ id = Some values /\
                              In (Value id) values) /\
            (forall t values value, foldl step m l !! t = Some values -> In value values ->
               (exists values0, m !! t = Some values0 /\ In value values0) \/
               exists id, In id l /\ Value id = value)).
  { induction l as [| id rest IH]; intros m; simpl.
    - split; [eauto |]. split; [contradiction | eauto].
    - destruct (IH (step m id)) as (Hkeep & Hnew & Hold).
      assert (Hstep : step m id !! Type_ id
                      = Some (default [] (m !! Type_ id) ++ [Value id])).
      { unfold step. apply lookup_insert_eq. }
      split; [| split].
      + intros t values value Hm Hin.
        destruct (decide (Type_ id = t)) as [<- | Hne].
        * apply (Hkeep _ _ value Hstep). rewrite Hm. simpl.
          apply in_or_app. left. exact Hin.
        * apply (Hkeep t values value); [| exact Hin].
          unfold step. rewrite lookup_insert_ne by exact Hne. exact Hm.
      + intros id' [<- | Hin].
        * apply (Hkeep _ _ _ Hstep). apply in_or_app. right. left. reflexivity.
        * apply Hnew. exact Hin.
      + intros t values value Hf Hin.
        destruct (Hold t values value Hf Hin) as [(values0 & Hs & Hin0) | (id' & Hid & Hv)].
        * unfold step in Hs. apply lookup_insert_Some in Hs as [[<- <-] | [Hne Hs]].
          -- apply in_app_or in Hin0 as [Hin0 | [<- | []]].
             ++ left. destruct (m !! Type_ id) as [values0 |]; [eauto | contradiction].
             ++ right. exists id. split; [left; reflexivity | reflexivity].
          -- left. eauto.
        * right. exists id'. split; [right; exact Hid | exact Hv]. }
  destruct (Hgen idents ∅) as (_ & Hnew & Hold). split; [exact Hnew |].
  intros t values value Hf Hin.
  destruct (Hold t values value Hf Hin) as [(values0 & Hs & _) | H]; [| exact H].
  rewrite lookup_empty in Hs. discriminate.
Qed.

Lemma indexUint_identifierType (t : string) :
  indexUint identifierTypeToUint t = 0%Z \/ indexUint identifierTypeToUint t = 1%Z.
Proof.
  unfold indexUint. destruct (identifierTypeToUint !! t) as [n |] eqn:E; [| left; reflexivity].
  unfold identifierTypeToUint in E. cbn [list_to_map foldr uncurry fst snd] in E.
  rewrite !lookup_insert_Some, lookup_empty in E.
  destruct E as [[_ <-] | [_ [[_ <-] | [_ E]]]]; [left | right | discriminate]; reflexivity.
Qed.

Lemma sameShape_conditions (groups groups' : list (IdentifierType * list string)) :
  prod_map Datatypes.id length <$> groups = prod_map Datatypes.id length <$> groups' ->
  map (fun g => typeCondition (length (snd g))) groups
  = map (fun g => typeCondition (length (snd g))) groups' /\
  length (flat_map typeArgs groups) = length (flat_map typeArgs groups').
Proof.
  revert groups'. induction groups as [| [t values] rest IH];
    intros [| [t' values'] rest'] Heq; try discriminate Heq.
  - split; reflexivity.
  - cbn in Heq. injection Heq as _ Hlen Hrest.
    destruct (IH rest' Hrest) as [Hc Ha]. split.
    + cbn [map snd]. rewrite Hlen, Hc. reflexivity.
    + cbn [flat_map]. rewrite !length_app, Ha. f_equal.
      unfold typeArgs. cbn [snd length]. rewrite !length_map, Hlen. reflexivity.
Qed.

(** X28: the conditions that [buildIdentifierQueryConditions] returns hold
    nothing of the identifier values: two lists of identifiers with the
    same types, one by one, give the same texts, with as many arguments.
    The values travel in the arguments: each identifier value is one of
    them, and each argument is the code of an identifier type or the value
    of an identifier. For no identifier the condition is [FALSE], without
    arguments. *)
Theorem buildIdentifierQueryConditions_placeholders (idents : list ACMEIdentifier)
    (conditions : string) (args : list queryArg) :
  buildIdentifierQueryConditions idents (conditions, args) ->
  (forall idents', map Type_ idents' = map Type_ idents ->
     exists args',
       buildIdentifierQueryConditions idents' (conditions, args') /\
       length args' = length args) /\
  Forall (fun id => In (QText (Value id)) args) idents /\
  Forall (identArg idents) args /\
  (idents = [] -> conditions = "FALSE" /\ args = []).
Proof.
  intros (groups & Hperm & Hout). unfold buildIdentifierQueryConditionsIn in Hout.
  destruct idents as [| id0 rest] eqn:Hid.
  { simpl in Hout. injection Hout as -> ->. split; [| repeat split; constructor].
    intros idents' Ht. destruct idents'; [| discriminate].
    exists []. split; [| reflexivity].
    exists groups. split; [exact Hperm | reflexivity]. }
  assert (Hne : Nat.eqb (length idents) 0 = false) by (rewrite Hid; reflexivity).
  rewrite <- Hid in *. clear rest Hid.
  rewrite Hne, conditionsLoop_spec, !app_nil_l in Hout. injection Hout as -> ->.
  destruct (identsByType_values idents) as [Hin Hfrom].
  split; [| split; [| split]].
  - intros idents' Ht.
    assert (Hne' : Nat.eqb (length idents') 0 = false).
    { rewrite <- (length_map Type_ idents'), Ht, length_map. exact Hne. }
    assert (Hshape : prod_map Datatypes.id length <$> groups
                     ≡ₚ prod_map Datatypes.id length <$> map_to_list (identsByType idents')).
    { rewrite Hperm, <- !map_to_list_fmap, !identsByType_counts, Ht. reflexivity. }
    apply Permutation_map_inv in Hshape as (groups' & Heq & Hperm').
    exists (flat_map typeArgs groups'). split.
    + exists groups'. split; [symmetry; exact Hperm' |].
      unfold buildIdentifierQueryConditionsIn.
      rewrite Hne', conditionsLoop_spec, !app_nil_l. f_equal. f_equal.
      apply (proj1 (sameShape_conditions _ _ Heq)).
    + symmetry. apply (proj2 (sameShape_conditions _ _ Heq)).
  - apply Forall_forall. intros id Hid. apply list_elem_of_In in Hid.
    destruct (Hin id Hid) as (values & Hl & Hv).
    apply in_flat_map. exists (Type_ id, values). split.
    + apply list_elem_of_In. rewrite Hperm. apply elem_of_map_to_list. exact Hl.
    + right. apply in_map. exact Hv.
  - apply Forall_forall. intros a Ha. apply list_elem_of_In in Ha.
    apply in_flat_map in Ha as ([t values] & Hg & Ha).
    apply list_elem_of_In in Hg. rewrite Hperm in Hg. apply elem_of_map_to_list in Hg.
    destruct Ha as [<- | Ha]; [apply indexUint_identifierType |].
    apply in_map_iff in Ha as (value & <- & Hv). simpl.
    exact (Hfrom t values value Hg Hv).
  - intros ->. discriminate Hne.
Qed.



End QueryFacts.

Section QueryExamples.
Import GoStrings identifier sa.

(** X28, witness: two DNS names and an IP address give two conditions, one
    with two question marks; other names and another address give the same
    text; the three values are arguments. *)
Lemma buildIdentifierQueryConditions_placeholders_witness :
  let idents := [NewDNS "a.example"; NewIP "10.0.0.1"; NewDNS "b.example"] in
  let conditions :=
    "identifierType = ? AND identifierValue IN (?) OR identifierType = ? AND identifierValue IN (?,?)" in
  let args := [QUint8 1; QText "10.0.0.1"; QUint8 0; QText "a.example";
               QText "b.example"] in
  buildIdentifierQueryConditions (fmt := Ref.RefFmt) (store := Ref.RefAuthzStore)
    idents (conditions, args) /\
  (exists args',
     buildIdentifierQueryConditions (fmt := Ref.RefFmt) (store := Ref.RefAuthzStore)
       [NewDNS "x.test"; NewIP "::1"; NewDNS "y.test"] (conditions, args') /\
     length args' = 5%nat) /\
  Forall (fun id => In (QText (Value id)) args) idents /\
  Forall (identArg idents) args.
Proof.
  intros idents conditions args.
  assert (H : buildIdentifierQueryConditions (fmt := Ref.RefFmt)
                (store := Ref.RefAuthzStore) idents (conditions, args)).
  { exists (map_to_list (identsByType idents)).
    split; [reflexivity | vm_compute; reflexivity]. }
  destruct (buildIdentifierQueryConditions_placeholders
              (fmt := Ref.RefFmt) (store := Ref.RefAuthzStore)
              idents conditions args H) as (Hother & Hin & Hargs & _).
  split; [exact H |]. split; [| split; [exact Hin | exact Hargs]].
  apply (Hother [NewDNS "x.test"; NewIP "::1"; NewDNS "y.test"]). reflexivity.
Defined.


End QueryExamples.
